(** * retro-data-structures: asset manager, dependency engine and MREA/MAPW codecs

    A shallow embedding of
      - [retro_data_structures/game_check.py]   (module [GameCheck]),
      - [retro_data_structures/formats/mapw.py] (module [Mapw]),
      - [retro_data_structures/formats/mrea.py] (module [Mrea]),
      - [retro_data_structures/asset_manager.py] (module [Manager]),
    followed by the properties established about them.

    Conventions.  Python [int]s are [Z]; [bytes] are lists of [Byte.byte];
    [dict]s and [set]s are stdpp's [gmap] and [gset]; a Python exception is a
    value of [Exception], and a call that may raise returns a [Result]. *)

From Stdlib Require Import ZArith Lia.
From Stdlib Require Import Strings.Ascii Strings.Byte.
From stdpp Require Import base tactics option list numbers strings pretty.
From stdpp Require Import gmap fin_maps fin_sets sets relations sorting.

Local Open Scope string_scope.
Local Open Scope Z_scope.
Local Open Scope list_scope.

Abbreviation bytes := (list Byte.byte).

(** ** Exceptions and results *)

(** The exception classes raised by the modelled code.  The payload is the
    message (or, for [UnknownAssetId], the offending id). *)
Inductive Exception :=
  | ValueError (msg : string)
  | KeyError (msg : string)
  | IndexError (msg : string)
  | TypeError (msg : string)
  | AttributeError (msg : string)
  | RuntimeError (msg : string)
  | RecursionError
  | NotImplementedError
  | FileNotFoundError (msg : string)
  | ConstructError (msg : string)
  | UnknownAssetId (asset_id : Z).

(** [type(e).__name__] *)
Definition class_name (e : Exception) : string :=
  match e with
  | ValueError _ => "ValueError"
  | KeyError _ => "KeyError"
  | IndexError _ => "IndexError"
  | TypeError _ => "TypeError"
  | AttributeError _ => "AttributeError"
  | RuntimeError _ => "RuntimeError"
  | RecursionError => "RecursionError"
  | NotImplementedError => "NotImplementedError"
  | FileNotFoundError _ => "FileNotFoundError"
  | ConstructError _ => "ConstructError"
  | UnknownAssetId _ => "UnknownAssetId"
  end.

Inductive Result (A : Type) :=
  | Ok (a : A)
  | Raise (e : Exception).
Arguments Ok {A} a.
Arguments Raise {A} e.

Definition rbind {A B} (r : Result A) (f : A → Result B) : Result B :=
  match r with
  | Ok a => f a
  | Raise e => Raise e
  end.

Definition is_Ok {A} (r : Result A) : Prop := ∃ a, r = Ok a.

Declare Scope result_scope.
Delimit Scope result_scope with result.
Notation "x ←r m ; k" := (rbind m (λ x, k))
  (at level 100, m at next level, right associativity) : result_scope.

(** [len(b)] *)
Definition len {A} (l : list A) : Z := Z.of_nat (length l).

(** ** game_check.py *)

Module GameCheck.

Inductive Game := PRIME | ECHOES | CORRUPTION | PRIME_REMASTER.

Global Instance Game_eq_dec : EqDecision Game.
Proof. solve_decision. Defined.

(** [Game.value] *)
Definition value (g : Game) : Z :=
  match g with
  | PRIME => 1
  | ECHOES => 2
  | CORRUPTION => 3
  | PRIME_REMASTER => 10
  end.

(** [Game.__le__] *)
Definition le (g h : Game) : bool := bool_decide (value g ≤ value h).

Definition uses_asset_id_32 (g : Game) : bool := le g ECHOES.
Definition uses_asset_id_64 (g : Game) : bool := bool_decide (g = CORRUPTION).
Definition uses_guid_as_asset_id (g : Game) : bool :=
  bool_decide (g = PRIME_REMASTER).

(** The value of [Game.invalid_asset_id]: an [int], or the nil
    [uuid.UUID] for the remaster. *)
Inductive IdValue :=
  | IntId (z : Z)
  | Guid (z : Z).

Global Instance IdValue_eq_dec : EqDecision IdValue.
Proof. solve_decision. Defined.

(** [Game.invalid_asset_id].  The four games exhaust the first three
    branches, so the closing [raise NotImplementedError()] of the source
    is never reached and has no counterpart here. *)
Definition invalid_asset_id (g : Game) : IdValue :=
  if uses_asset_id_32 g then IntId (Z.shiftl 1 32 - 1)
  else if uses_asset_id_64 g then IntId (Z.shiftl 1 64 - 1)
  else Guid 0.

(** [Game.is_valid_asset_id], on an [int] asset id.  An [int] never
    compares equal to a [uuid.UUID]. *)
Definition is_valid_asset_id (g : Game) (asset_id : Z) : bool :=
  if le g ECHOES && bool_decide (asset_id = 0) then false
  else bool_decide (IntId asset_id ≠ invalid_asset_id g).

(** [Game.mlvl_dependencies_to_ignore] *)
Definition mlvl_dependencies_to_ignore (g : Game) : list Z :=
  if bool_decide (g = ECHOES) then [0x7b2ea5b1] else [].

End GameCheck.

(** ** The [construct] primitives the codecs are assembled from *)

Module Construct.

(** Parsing from a stream: the parsed value and the unread rest. *)
Definition Parser (A : Type) : Type := bytes → Result (A * bytes).

Definition pret {A} (a : A) : Parser A := λ s, Ok (a, s).
Definition pbind {A B} (p : Parser A) (f : A → Parser B) : Parser B :=
  λ s, match p s with
       | Ok (a, s') => f a s'
       | Raise e => Raise e
       end.
Definition pfail {A} (e : Exception) : Parser A := λ _, Raise e.

Declare Scope parser_scope.
Delimit Scope parser_scope with parser.
Notation "x ←p m ; k" := (pbind m (λ x, k))
  (at level 100, m at next level, right associativity) : parser_scope.

Definition byte_to_Z (b : Byte.byte) : Z := Z.of_N (Byte.to_N b).
Definition byte_of_Z (z : Z) : Byte.byte :=
  default Byte.x00 (Byte.of_N (Z.to_N (z `mod` 256))).

(** [int.from_bytes(bs, "big")] *)
Definition from_bytes_big (bs : bytes) : Z :=
  foldl (λ acc b, acc * 256 + byte_to_Z b) 0 bs.

(** [v.to_bytes(n, "big")], for [0 <= v < 256 ** n] *)
Fixpoint to_bytes_big (n : nat) (v : Z) : bytes :=
  match n with
  | O => []
  | S n' => to_bytes_big n' (v / 256) ++ [byte_of_Z v]
  end.

(** [construct.stream_read] *)
Definition stream_read (n : Z) : Parser bytes := λ s,
  if bool_decide (n < 0)
  then Raise (ConstructError "length must be non-negative")
  else if bool_decide (n ≤ len s)
  then Ok (take (Z.to_nat n) s, drop (Z.to_nat n) s)
  else Raise (ConstructError "stream read less than specified amount").

(** Big-endian unsigned integers of [n] bytes ([Int32ub], [Int64ub]). *)
Definition IntNub_parse (n : nat) : Parser Z :=
  (bs ←p stream_read (Z.of_nat n); pret (from_bytes_big bs))%parser.

Definition IntNub_build (n : nat) (v : Z) : Result bytes :=
  if bool_decide (0 ≤ v < 256 ^ Z.of_nat n) then Ok (to_bytes_big n v)
  else Raise (ConstructError "struct.error: argument out of range").

Definition Int32ub_parse : Parser Z := IntNub_parse 4.
Definition Int32ub_build : Z → Result bytes := IntNub_build 4.
Definition Int64ub_parse : Parser Z := IntNub_parse 8.
Definition Int64ub_build : Z → Result bytes := IntNub_build 8.

(** [Const(value, subcon)._parse] *)
Definition Const_parse (value : Z) (subcon : Parser Z) : Parser Z :=
  (obj ←p subcon;
   if bool_decide (obj = value) then pret obj
   else pfail (ConstructError "ConstError: parsing expected the constant"))%parser.

(** [Const(value, subcon)._build]: the object may be absent ([None]) or
    the constant itself. *)
Definition Const_build (value : Z) (subcon : Z → Result bytes)
    (obj : option Z) : Result bytes :=
  match obj with
  | None => subcon value
  | Some v => if bool_decide (v = value) then subcon value
              else Raise (ConstructError "ConstError: building expected None or the constant")
  end.

(** [Array(count, subcon)._parse] *)
Fixpoint Array_parse_go {A} (count : nat) (subcon : Parser A) : Parser (list A) :=
  match count with
  | O => pret []
  | S n => (x ←p subcon; xs ←p Array_parse_go n subcon; pret (x :: xs))%parser
  end.

Definition Array_parse {A} (count : Z) (subcon : Parser A) : Parser (list A) :=
  if bool_decide (count < 0)
  then pfail (ConstructError "RangeError: invalid count")
  else Array_parse_go (Z.to_nat count) subcon.

(** Building the items of an array one after the other. *)
Fixpoint build_items {A} (subcon : A → Result bytes) (objs : list A)
    : Result bytes :=
  match objs with
  | [] => Ok []
  | x :: xs => (b ←r subcon x; bs ←r build_items subcon xs; Ok (b ++ bs))%result
  end.

(** [Array(count, subcon)._build] *)
Definition Array_build {A} (count : Z) (subcon : A → Result bytes)
    (objs : list A) : Result bytes :=
  if bool_decide (len objs = count) then build_items subcon objs
  else Raise (ConstructError "RangeError: expected count elements").

(** [PrefixedArray(countfield, subcon)] *)
Definition PrefixedArray_parse {A} (countfield : Parser Z) (subcon : Parser A)
    : Parser (list A) :=
  (count ←p countfield; Array_parse count subcon)%parser.

Definition PrefixedArray_build {A} (countfield : Z → Result bytes)
    (subcon : A → Result bytes) (objs : list A) : Result bytes :=
  (c ←r countfield (len objs); bs ←r build_items subcon objs; Ok (c ++ bs))%result.

(** [Aligned(modulus, subcon)]: the subconstruct, then padding up to a
    multiple of [modulus] of the bytes the subconstruct took. *)
Definition Aligned_parse {A} (modulus : Z) (subcon : Parser A) : Parser A := λ s,
  match subcon s with
  | Ok (obj, s') =>
      let pad := (- (len s - len s')) `mod` modulus in
      match stream_read pad s' with
      | Ok (_, s'') => Ok (obj, s'')
      | Raise e => Raise e
      end
  | Raise e => Raise e
  end.

Definition Aligned_build (modulus : Z) (built : bytes) : bytes :=
  built ++ replicate (Z.to_nat ((- len built) `mod` modulus)) Byte.x00.

(** [FixedSized(length, GreedyBytes)._parse] *)
Definition FixedSized_GreedyBytes_parse (length : Z) : Parser bytes :=
  if bool_decide (length < 0)
  then pfail (ConstructError "PaddingError: length cannot be negative")
  else stream_read length.

End Construct.

(** ** formats/mapw.py *)

Module Mapw.
Import GameCheck Construct.

(** The container [MAPW] parses to. *)
Record Container := mkContainer {
  _magic : option Z;
  _version : option Z;
  area_map : list Z;
}.

Global Instance Container_eq_dec : EqDecision Container.
Proof. solve_decision. Defined.

(** [AssetIdCorrect = IfThenElse(uses_asset_id_32, AssetId32, AssetId64)].
    Modelled from the spec: [common_types.AssetId32] and [AssetId64] are
    the 32- and 64-bit big-endian asset ids. *)
Definition AssetIdCorrect_parse (target_game : Game) : Parser Z :=
  if uses_asset_id_32 target_game then Int32ub_parse else Int64ub_parse.

Definition AssetIdCorrect_build (target_game : Game) : Z → Result bytes :=
  if uses_asset_id_32 target_game then Int32ub_build else Int64ub_build.

(** [MAPW._parse] *)
Definition MAPW_parse (target_game : Game) : Parser Container :=
  (magic ←p Const_parse 0xDEADF00D Int32ub_parse;
   version ←p Const_parse 1 Int32ub_parse;
   area_map ←p PrefixedArray_parse Int32ub_parse (AssetIdCorrect_parse target_game);
   pret {| _magic := Some magic; _version := Some version;
           area_map := area_map |})%parser.

(** [MAPW._build] *)
Definition MAPW_build (target_game : Game) (obj : Container) : Result bytes :=
  (magic ←r Const_build 0xDEADF00D Int32ub_build (_magic obj);
   version ←r Const_build 1 Int32ub_build (_version obj);
   area_map ←r PrefixedArray_build Int32ub_build
                 (AssetIdCorrect_build target_game) (area_map obj);
   Ok (magic ++ version ++ area_map))%result.

(** [MAPW.parse(data, target_game=...)]: what is left of [data] behind
    the structure is not looked at. *)
Definition parse (target_game : Game) (data : bytes) : Result Container :=
  match MAPW_parse target_game data with
  | Ok (obj, _) => Ok obj
  | Raise e => Raise e
  end.

(** [MAPW.build(obj, target_game=...)] *)
Definition build (target_game : Game) (obj : Container) : Result bytes :=
  MAPW_build target_game obj.

(** [dependencies_for(obj, target_game)] *)
Definition dependencies_for (obj : Container) : list (string * Z) :=
  (λ item, ("MAPA", item)) <$> area_map obj.

End Mapw.

(** ** formats/mrea.py: the compressed-block encoder *)

Module Mrea.
Import Construct.

(** [MREAVersion], an [IntEnum]: the code only ever compares the integer
    values. *)
Module MREAVersion.
Definition PrimeKioskDemo : Z := 0xC.
Definition Prime : Z := 0xF.
Definition EchoesDemo : Z := 0x15.
Definition Echoes : Z := 0x19.
Definition CorruptionE3Prototype : Z := 0x1D.
Definition Corruption : Z := 0x1E.
Definition DonkeyKongCountryReturns : Z := 0x20.
End MREAVersion.

Definition _all_categories : list string :=
  [ "geometry_section";
    "unknown_section_2";
    "script_layers_section";
    "generated_script_objects_section";
    "collision_section";
    "unknown_section_1";
    "lights_section";
    "visibility_tree_section";
    "path_section";
    "area_octree_section";
    "portal_area_section";
    "static_geometry_map_section" ].

(** [CompressedBlockHeader] *)
Record BlockHeader := mkBlockHeader {
  buffer_size : Z;
  uncompressed_size : Z;
  compressed_size : Z;
  data_section_count : Z;
}.

(** An element of [compressed_blocks]: [Container(header=..., data=...)]. *)
Record Block := mkBlock {
  header : BlockHeader;
  data : bytes;
}.

(** [item.ljust(len(item) + (-len(item) % 32), b"\x00")] *)
Definition ljust32 (item : bytes) : bytes :=
  item ++ replicate (Z.to_nat ((- len item) `mod` 32)) Byte.x00.

(** [_start_new_group] inside [_encode_compressed_blocks] *)
Definition _start_new_group (group_size section_size : Z)
    (curr_label prev_label : string) : bool * string :=
  if bool_decide (group_size = 0) then (false, "")
  else if bool_decide (group_size + section_size > 0x20000)
    then (true, "Next section too big.")
  else if bool_decide (curr_label = "script_layers_section")
    then (true, "New SCLY section.")
  else if bool_decide (prev_label = "script_layers_section")
    then (true, "Previous SCLY completed.")
  else if bool_decide (curr_label = "generated_script_objects_section")
    then (true, "New SCGN section.")
  else if bool_decide (prev_label = "generated_script_objects_section")
    then (true, "Previous SCGN completed.")
  else (false, "").

(** [filtered_starts.sort(key=lambda it: it[1])]: Python's sort is stable,
    so an element stays in front of the later elements with an equal
    key. *)
Fixpoint insert_by_start (x : string * Z) (l : list (string * Z))
    : list (string * Z) :=
  match l with
  | [] => [x]
  | y :: l' => if bool_decide (x.2 ≤ y.2) then x :: y :: l'
               else y :: insert_by_start x l'
  end.

Definition sort_by_start (l : list (string * Z)) : list (string * Z) :=
  foldr insert_by_start [] l.

(** [dict(filtered_starts)]: a later pair with the same key overwrites the
    value at the position of the first. *)
Fixpoint dict_set (k : string) (v : Z) (d : list (string * Z))
    : list (string * Z) :=
  match d with
  | [] => [(k, v)]
  | (k', v') :: d' => if bool_decide (k' = k) then (k', v) :: d'
                      else (k', v') :: dict_set k v d'
  end.

Definition dict_of (l : list (string * Z)) : list (string * Z) :=
  foldl (λ d kv, dict_set kv.1 kv.2 d) [] l.

(** [[(cat, start) for cat, start in category_starts.items()
      if start is not None]] *)
Definition filter_starts (category_starts : list (string * option Z))
    : list (string * Z) :=
  omap (λ kv, match kv.2 with Some s => Some (kv.1, s) | None => None end)
       category_starts.

(** The state the loop of [_encode_compressed_blocks] updates. *)
Record EncState := mkEncState {
  compressed_blocks : list Block;
  current_group : list bytes;
  current_group_size : Z;
  previous_label : string;
}.

Section Encoder.
(** [LZOCompressedBlock(uncompressed_size)._build(data, ...)]: the bytes
    the LZO layer ([retro_data_structures.compression]) writes. *)
Variable lzo_build : Z → bytes → bytes.

(** [add_group] *)
Definition add_group (st : EncState) : EncState :=
  let merged_and_padded_group := concat (ljust32 <$> current_group st) in
  let header0 :=
    {| buffer_size := current_group_size st;
       uncompressed_size := current_group_size st;
       compressed_size := 0;
       data_section_count := len (current_group st) |} in
  let data := lzo_build (uncompressed_size header0) merged_and_padded_group in
  let compressed_size := len data in
  let compressed_pad := Z.land (32 - (compressed_size `mod` 32)) 0x1F in
  let block :=
    if bool_decide (compressed_size + compressed_pad < uncompressed_size header0)
    then {| header :=
              {| buffer_size := buffer_size header0 + 0x120;
                 uncompressed_size := uncompressed_size header0;
                 compressed_size := compressed_size;
                 data_section_count := data_section_count header0 |};
            data := data |}
    else {| header := header0; data := merged_and_padded_group |} in
  {| compressed_blocks := compressed_blocks st ++ [block];
     current_group := [];
     current_group_size := 0;
     previous_label := previous_label st |}.

(** [[cat for cat, start in category_starts.items() if i >= start][-1]] *)
Definition cat_label_at (category_starts : list (string * Z)) (i : Z)
    : Result string :=
  match last (filter (λ kv, kv.2 ≤ i) category_starts) with
  | Some kv => Ok kv.1
  | None => Raise (IndexError "list index out of range")
  end.

(** One iteration of [for i, section in enumerate(data_sections)].
    The call passes [previous_label, cat_label] for the parameters
    [curr_label, prev_label], in that order. *)
Definition encode_step (category_starts : list (string * Z)) (i : Z)
    (section : bytes) (st : EncState) : Result EncState :=
  (cat_label ←r cat_label_at category_starts i;
   let '(start_new, reason) :=
     _start_new_group (current_group_size st) (len section)
                      (previous_label st) cat_label in
   let st := if start_new then add_group st else st in
   Ok {| compressed_blocks := compressed_blocks st;
         current_group := current_group st ++ [section];
         current_group_size := current_group_size st + len section;
         previous_label := cat_label |})%result.

Fixpoint encode_loop (category_starts : list (string * Z)) (i : Z)
    (data_sections : list bytes) (st : EncState) : Result EncState :=
  match data_sections with
  | [] => Ok st
  | section :: rest =>
      (st' ←r encode_step category_starts i section st;
       encode_loop category_starts (i + 1) rest st')%result
  end.

(** [MREAConstruct._encode_compressed_blocks] *)
Definition _encode_compressed_blocks (data_sections : list bytes)
    (category_starts : list (string * option Z)) : Result (list Block) :=
  let category_starts := dict_of (sort_by_start (filter_starts category_starts)) in
  let st0 := {| compressed_blocks := []; current_group := [];
                current_group_size := 0; previous_label := "" |} in
  (st ←r encode_loop category_starts 0 data_sections st0;
   Ok (compressed_blocks (add_group st)))%result.

(** *** The codec *)

(** [LZOCompressedBlock(uncompressed_size)._parse] *)
Variable lzo_parse : Z → bytes → Result bytes.
(** [DataSection(GreedyBytes, size=lambda: Computed(n))], from
    [retro_data_structures.data_section]. *)
Variable DataSection_parse : Z → Parser bytes.
Variable DataSection_build : Z → bytes → Result bytes.
(** The decoded form of a section, and [subcon._build] for the
    construct [_CATEGORY_ENCODINGS] lists under a category. *)
Context {Decoded : Type}.
Variable category_build : string → Decoded → Result bytes.

(** [MREAHeader]: the fields of the struct.  [offsets] holds the
    section-index fields, by label; a field a version does not have is
    [None]. *)
Record Header := mkHeader {
  h_version : Z;
  h_area_transform : bytes;
  h_world_model_count : Z;
  h_script_layer_count : option Z;
  h_data_section_count : Z;
  h_offsets : list (string * option Z);
  h_compressed_block_count : option Z;
}.

(** [mrea_header[label]] *)
Definition header_get (offsets : list (string * option Z)) (label : string)
    : option Z :=
  match list_find (λ kv, kv.1 = label) offsets with
  | Some (_, (_, v)) => v
  | None => None
  end.

(** [WithVersion(version, subcon)] and [BeforeVersion(version, subcon)]
    ([construct_extensions.py]) *)
Definition WithVersion_parse {A} (this_version version : Z) (subcon : Parser A)
    : Parser (option A) :=
  if bool_decide (this_version >= version)
  then (x ←p subcon; pret (Some x))%parser else pret None.

Definition BeforeVersion_parse {A} (this_version version : Z) (subcon : Parser A)
    : Parser (option A) :=
  if bool_decide (this_version < version)
  then (x ←p subcon; pret (Some x))%parser else pret None.

(** [MREAHeader._parse].  [Enum(Int32ub, MREAVersion)] parses every
    32-bit value; [Transform4f] takes twelve 32-bit floats, kept here as
    the 48 bytes read. *)
Definition MREAHeader_parse : Parser Header :=
  Aligned_parse 32 (
    _ ←p Const_parse 0xDEADBEEF Int32ub_parse;
    version ←p Int32ub_parse;
    area_transform ←p stream_read 48;
    world_model_count ←p Int32ub_parse;
    script_layer_count ←p WithVersion_parse version MREAVersion.Echoes Int32ub_parse;
    data_section_count ←p Int32ub_parse;
    geometry_section ←p Int32ub_parse;
    script_layers_section ←p Int32ub_parse;
    generated_script_objects_section ←p
      WithVersion_parse version MREAVersion.Echoes Int32ub_parse;
    collision_section ←p Int32ub_parse;
    unknown_section_1 ←p Int32ub_parse;
    lights_section ←p Int32ub_parse;
    visibility_tree_section ←p Int32ub_parse;
    path_section ←p Int32ub_parse;
    area_octree_section ←p
      BeforeVersion_parse version MREAVersion.EchoesDemo Int32ub_parse;
    unknown_section_2 ←p WithVersion_parse version MREAVersion.Echoes Int32ub_parse;
    portal_area_section ←p WithVersion_parse version MREAVersion.Echoes Int32ub_parse;
    static_geometry_map_section ←p
      WithVersion_parse version MREAVersion.Echoes Int32ub_parse;
    compressed_block_count ←p
      WithVersion_parse version MREAVersion.Echoes Int32ub_parse;
    pret {| h_version := version;
            h_area_transform := area_transform;
            h_world_model_count := world_model_count;
            h_script_layer_count := script_layer_count;
            h_data_section_count := data_section_count;
            h_offsets :=
              [ ("geometry_section", Some geometry_section);
                ("script_layers_section", Some script_layers_section);
                ("generated_script_objects_section",
                   generated_script_objects_section);
                ("collision_section", Some collision_section);
                ("unknown_section_1", Some unknown_section_1);
                ("lights_section", Some lights_section);
                ("visibility_tree_section", Some visibility_tree_section);
                ("path_section", Some path_section);
                ("area_octree_section", area_octree_section);
                ("unknown_section_2", unknown_section_2);
                ("portal_area_section", portal_area_section);
                ("static_geometry_map_section", static_geometry_map_section) ];
            h_compressed_block_count := compressed_block_count |})%parser.

Definition CompressedBlockHeader_parse : Parser BlockHeader :=
  (buffer_size ←p Int32ub_parse;
   uncompressed_size ←p Int32ub_parse;
   compressed_size ←p Int32ub_parse;
   data_section_count ←p Int32ub_parse;
   pret {| buffer_size := buffer_size;
           uncompressed_size := uncompressed_size;
           compressed_size := compressed_size;
           data_section_count := data_section_count |})%parser.

Definition CompressedBlockHeader_build (h : BlockHeader) : Result bytes :=
  (a ←r Int32ub_build (buffer_size h);
   b ←r Int32ub_build (uncompressed_size h);
   c ←r Int32ub_build (compressed_size h);
   d ←r Int32ub_build (data_section_count h);
   Ok (a ++ b ++ c ++ d))%result.

(** [_get_compressed_block_size] *)
Definition _get_compressed_block_size (header : BlockHeader) : Z :=
  if bool_decide (compressed_size header = 0) then uncompressed_size header
  else compressed_size header + ((- compressed_size header) `mod` 32).

(** [PrefixedWithPaddingBefore(Computed(length), subcon)]
    ([construct_extensions.py]) *)
Definition PrefixedWithPaddingBefore_parse {A} (length : Z)
    (subcon : bytes → Result A) : Parser A :=
  let bytes_to_pad := 32 - (length `mod` 32) in
  (_ ←p (if bool_decide (bytes_to_pad < 32) then stream_read bytes_to_pad
         else pret []);
   data ←p stream_read length;
   match subcon data with
   | Ok obj => pret obj
   | Raise e => pfail e
   end)%parser.

(** [PrefixedWithPaddingBefore(Computed(_), GreedyBytes)._build] *)
Definition PrefixedWithPaddingBefore_build (data : bytes) : bytes :=
  let length := len data in
  let bytes_to_pad := 32 - (length `mod` 32) in
  (if bool_decide (bytes_to_pad < 32)
   then replicate (Z.to_nat bytes_to_pad) Byte.x00 else []) ++ data.

(** [_get_compressed_block_subcon(compressed_size, uncompressed_size)],
    parsing *)
Definition _get_compressed_block_subcon (compressed_size uncompressed_size : Z)
    : Parser bytes :=
  if bool_decide (compressed_size ≠ 0)
  then PrefixedWithPaddingBefore_parse compressed_size (lzo_parse uncompressed_size)
  else DataSection_parse uncompressed_size.

(** [data[a:b]] for non-negative bounds *)
Definition slice {A} (a : Z) (b : option Z) (l : list A) : list A :=
  drop (Z.to_nat a) (match b with
                     | Some b => take (Z.to_nat b) l
                     | None => l
                     end).

(** The inner loop of [_decode_compressed_blocks]:
    [for i in range(compressed_header.data_section_count)] *)
Fixpoint split_block (count : nat) (data_section_sizes : list Z)
    (decompressed_block : bytes) (offset : Z) (data_sections : list bytes)
    : Result (list bytes) :=
  match count with
  | O => Ok data_sections
  | S n =>
      match data_section_sizes !! length data_sections with
      | Some section_size =>
          split_block n data_section_sizes decompressed_block
            (offset + section_size)
            (data_sections ++
               [slice offset (Some (offset + section_size)) decompressed_block])
      | None => Raise (IndexError "list index out of range")
      end
  end.

(** The outer loop of [_decode_compressed_blocks] *)
Fixpoint decompress_blocks (data_section_sizes : list Z)
    (blocks : list (BlockHeader * bytes)) (data_sections : list bytes)
    : Result (list bytes) :=
  match blocks with
  | [] => Ok data_sections
  | (compressed_header, compressed_block) :: rest =>
      match _get_compressed_block_subcon (compressed_size compressed_header)
              (uncompressed_size compressed_header) compressed_block with
      | Raise e => Raise e
      | Ok (decompressed_block, _) =>
          if bool_decide (len decompressed_block ≠ uncompressed_size compressed_header)
          then Raise (ConstructError "Expected uncompressed_size bytes")
          else
            (data_sections ←r
               split_block (Z.to_nat (data_section_count compressed_header))
                 data_section_sizes decompressed_block 0 data_sections;
             decompress_blocks data_section_sizes rest data_sections)%result
      end
  end.

(** Reading the blocks one after the other:
    [self._aligned_parse(FixedSized(_get_compressed_block_size(header),
    GreedyBytes), ...) for header in compressed_block_headers] *)
Fixpoint read_blocks (headers : list BlockHeader) : Parser (list bytes) :=
  match headers with
  | [] => pret []
  | header :: rest =>
      (b ←p Aligned_parse 32
              (FixedSized_GreedyBytes_parse (_get_compressed_block_size header));
       bs ←p read_blocks rest;
       pret (b :: bs))%parser
  end.

(** [MREAConstruct._decode_compressed_blocks] *)
Definition _decode_compressed_blocks (compressed_block_count : Z)
    (data_section_sizes : list Z) : Parser (list bytes) :=
  (compressed_block_headers ←p
     Aligned_parse 32 (Array_parse compressed_block_count CompressedBlockHeader_parse);
   compressed_blocks ←p read_blocks compressed_block_headers;
   match decompress_blocks data_section_sizes
           (zip compressed_block_headers compressed_blocks) [] with
   | Ok data_sections => pret data_sections
   | Raise e => pfail e
   end)%parser.

(** [Array(count, Aligned(32, FixedSized(lambda ctx:
    data_section_sizes[ctx._index], GreedyBytes)))] *)
Fixpoint read_sections (data_section_sizes : list Z) : Parser (list bytes) :=
  match data_section_sizes with
  | [] => pret []
  | size :: rest =>
      (b ←p Aligned_parse 32 (FixedSized_GreedyBytes_parse size);
       bs ←p read_sections rest;
       pret (b :: bs))%parser
  end.

(** The loop [for i, c in enumerate(categories)] of [_parse] *)
Fixpoint split_categories (categories : list (string * Z))
    (data_sections : list bytes) : gmap string (list bytes) :=
  match categories with
  | [] => ∅
  | (label, start) :: rest =>
      let end_ := match rest with
                  | [] => None
                  | (_, v) :: _ => Some v
                  end in
      (* later labels are written later: a repeated label keeps the
         last slice *)
      split_categories rest data_sections ∪
        {[ label := slice start end_ data_sections ]}
  end.

(** A section as the client holds it in [obj.sections]: absent
    ([None]), raw [bytes], or a decoded object. *)
Inductive SectionValue :=
  | SNone
  | SBytes (b : bytes)
  | SDecoded (d : Decoded).

(** The container [MREA] parses to and builds from. *)
Record Container := mkContainer {
  version : Z;
  area_transform : bytes;
  world_model_count : Z;
  raw_sections : gmap string (list bytes);
  sections : list (string * list SectionValue);
}.

(** [MREAConstruct._parse] *)
Definition _parse : Parser Container :=
  (mrea_header ←p MREAHeader_parse;
   data_section_sizes ←p
     Aligned_parse 32 (Array_parse (h_data_section_count mrea_header) Int32ub_parse);
   data_sections ←p
     match h_compressed_block_count mrea_header with
     | Some n => _decode_compressed_blocks n data_section_sizes
     | None => read_sections data_section_sizes
     end;
   let categories :=
     sort_by_start
       (omap (λ label, match header_get (h_offsets mrea_header) label with
                       | Some v => Some (label, v)
                       | None => None
                       end) _all_categories) in
   pret {| version := h_version mrea_header;
           area_transform := h_area_transform mrea_header;
           world_model_count := h_world_model_count mrea_header;
           raw_sections := split_categories categories data_sections;
           sections := [] |})%parser.

(** [_encode_category], for one section *)
Definition encode_section (category : string) (section : SectionValue)
    : Result bytes :=
  match section with
  | SNone => Ok []
  | SBytes b => Ok (Aligned_build 32 b)
  | SDecoded d => (b ←r category_build category d; Ok (Aligned_build 32 b))%result
  end.

(** [_encode_category] *)
Fixpoint _encode_category (category : string) (values : list SectionValue)
    : Result (list bytes) :=
  match values with
  | [] => Ok []
  | section :: rest =>
      (data ←r encode_section category section;
       result ←r _encode_category category rest;
       Ok (data :: result))%result
  end.

(** [for category, values in obj.sections.items():
       raw_sections[category] = _encode_category(...)] *)
Fixpoint encode_sections (sections : list (string * list SectionValue))
    (raw_sections : gmap string (list bytes))
    : Result (gmap string (list bytes)) :=
  match sections with
  | [] => Ok raw_sections
  | (category, values) :: rest =>
      (encoded ←r _encode_category category values;
       encode_sections rest (<[category := encoded]> raw_sections))%result
  end.

(** [for category in _all_categories: ...]: the header offsets and the
    data sections array *)
Fixpoint combine_sections (categories : list string)
    (raw_sections : gmap string (list bytes))
    (mrea_header : list (string * option Z)) (data_sections : list bytes)
    : list (string * option Z) * list bytes :=
  match categories with
  | [] => (mrea_header, data_sections)
  | category :: rest =>
      match raw_sections !! category with
      | Some secs =>
          combine_sections rest raw_sections
            (mrea_header ++ [(category, Some (len data_sections))])
            (data_sections ++ secs)
      | None =>
          combine_sections rest raw_sections
            (mrea_header ++ [(category, None)]) data_sections
      end
  end.

(** What [_build] has computed when it starts to write: the header, the
    data sections and the compressed blocks. *)
Record Layout := mkLayout {
  l_header : Header;
  l_data_sections : list bytes;
  l_compressed_blocks : list Block;
}.

(** [MREAConstruct._build], up to the point where writing starts *)
Definition build_layout (obj : Container) : Result Layout :=
  (raw_sections' ←r encode_sections (sections obj) (raw_sections obj);
   let '(mrea_header, data_sections) :=
     combine_sections _all_categories raw_sections' [] [] in
   compressed_blocks ←r
     (if bool_decide (version obj >= MREAVersion.Echoes)
      then _encode_compressed_blocks data_sections mrea_header
      else Raise (RuntimeError "Not implemented yet"));
   script_layers ←r
     match raw_sections obj !! "script_layers_section" with
     | Some l => Ok l
     | None => Raise (AttributeError "script_layers_section")
     end;
   Ok {| l_header :=
           {| h_version := version obj;
              h_area_transform := area_transform obj;
              h_world_model_count := world_model_count obj;
              h_script_layer_count := Some (len script_layers);
              h_data_section_count := len data_sections;
              h_offsets := mrea_header;
              h_compressed_block_count := Some (len compressed_blocks) |};
         l_data_sections := data_sections;
         l_compressed_blocks := compressed_blocks |})%result.

(** Building an integer field from a value that may be [None] *)
Definition Int32ub_build_opt (v : option Z) : Result bytes :=
  match v with
  | Some v => Int32ub_build v
  | None => Raise (ConstructError "struct.error: required argument is not an integer")
  end.

Definition WithVersion_build (this_version version : Z) (v : option Z)
    : Result bytes :=
  if bool_decide (this_version >= version) then Int32ub_build_opt v else Ok [].

Definition BeforeVersion_build (this_version version : Z) (v : option Z)
    : Result bytes :=
  if bool_decide (this_version < version) then Int32ub_build_opt v else Ok [].

(** [MREAHeader._build] *)
Definition MREAHeader_build (h : Header) : Result bytes :=
  let v := h_version h in
  let get := header_get (h_offsets h) in
  (magic ←r Int32ub_build 0xDEADBEEF;
   version ←r Int32ub_build v;
   area_transform ←r
     (if bool_decide (len (h_area_transform h) = 48) then Ok (h_area_transform h)
      else Raise (ConstructError "RangeError: expected 12 elements"));
   world_model_count ←r Int32ub_build (h_world_model_count h);
   script_layer_count ←r WithVersion_build v MREAVersion.Echoes (h_script_layer_count h);
   data_section_count ←r Int32ub_build (h_data_section_count h);
   geometry_section ←r Int32ub_build_opt (get "geometry_section");
   script_layers_section ←r Int32ub_build_opt (get "script_layers_section");
   generated_script_objects_section ←r
     WithVersion_build v MREAVersion.Echoes (get "generated_script_objects_section");
   collision_section ←r Int32ub_build_opt (get "collision_section");
   unknown_section_1 ←r Int32ub_build_opt (get "unknown_section_1");
   lights_section ←r Int32ub_build_opt (get "lights_section");
   visibility_tree_section ←r Int32ub_build_opt (get "visibility_tree_section");
   path_section ←r Int32ub_build_opt (get "path_section");
   area_octree_section ←r
     BeforeVersion_build v MREAVersion.EchoesDemo (get "area_octree_section");
   unknown_section_2 ←r WithVersion_build v MREAVersion.Echoes (get "unknown_section_2");
   portal_area_section ←r
     WithVersion_build v MREAVersion.Echoes (get "portal_area_section");
   static_geometry_map_section ←r
     WithVersion_build v MREAVersion.Echoes (get "static_geometry_map_section");
   compressed_block_count ←r
     WithVersion_build v MREAVersion.Echoes (h_compressed_block_count h);
   Ok (Aligned_build 32
         (magic ++ version ++ area_transform ++ world_model_count
          ++ script_layer_count ++ data_section_count ++ geometry_section
          ++ script_layers_section ++ generated_script_objects_section
          ++ collision_section ++ unknown_section_1 ++ lights_section
          ++ visibility_tree_section ++ path_section ++ area_octree_section
          ++ unknown_section_2 ++ portal_area_section
          ++ static_geometry_map_section ++ compressed_block_count)))%result.

(** [for compressed_block in compressed_blocks: ...] of [_build] *)
Definition build_block (compressed_block : Block) : Result bytes :=
  let block_header := header compressed_block in
  if bool_decide (compressed_size block_header ≠ 0)
  then Ok (PrefixedWithPaddingBefore_build (data compressed_block))
  else DataSection_build (uncompressed_size block_header) (data compressed_block).

(** [MREAConstruct._build] *)
Definition _build (obj : Container) : Result bytes :=
  (layout ←r build_layout obj;
   let mrea_header := l_header layout in
   header_bytes ←r MREAHeader_build mrea_header;
   sizes ←r Array_build (h_data_section_count mrea_header) Int32ub_build
              (len <$> l_data_sections layout);
   block_headers ←r
     Array_build (len (l_compressed_blocks layout)) CompressedBlockHeader_build
       (header <$> l_compressed_blocks layout);
   blocks ←r build_items build_block (l_compressed_blocks layout);
   Ok (header_bytes ++ Aligned_build 32 sizes
         ++ Aligned_build 32 block_headers ++ blocks))%result.

(** [MREA.parse(data, ...)] and [MREA.build(obj, ...)] *)
Definition parse (data : bytes) : Result Container :=
  match _parse data with
  | Ok (obj, _) => Ok obj
  | Raise e => Raise e
  end.

Definition build (obj : Container) : Result bytes := _build obj.

(** *** What the encoder is measured against *)

(** The uncompressed payload size of a group of sections. *)
Definition total (group : list bytes) : Z :=
  foldr (λ section acc, len section + acc) 0 group.

(** The block [add_group] emits for a group. *)
Definition block_of (group : list bytes) : Block :=
  let merged_and_padded_group := concat (ljust32 <$> group) in
  let data := lzo_build (total group) merged_and_padded_group in
  let compressed_pad := Z.land (32 - (len data `mod` 32)) 0x1F in
  if bool_decide (len data + compressed_pad < total group)
  then {| header := {| buffer_size := total group + 0x120;
                       uncompressed_size := total group;
                       compressed_size := len data;
                       data_section_count := len group |};
          data := data |}
  else {| header := {| buffer_size := total group;
                       uncompressed_size := total group;
                       compressed_size := 0;
                       data_section_count := len group |};
          data := merged_and_padded_group |}.

(** The labels the boundary rule singles out. *)
Definition is_script (label : string) : Prop :=
  label = "script_layers_section" ∨ label = "generated_script_objects_section".

(** The three kinds of sections: script layers, generated script
    objects, and the rest. *)
Definition section_class (label : string) : Z :=
  if bool_decide (label = "script_layers_section") then 1
  else if bool_decide (label = "generated_script_objects_section") then 2
  else 0.

(** A group of labelled sections in which a script section that is not
    empty comes last and has only empty sections before it. *)
Definition script_closes (group : list (string * bytes)) : Prop :=
  ∀ pre label section post,
    group = pre ++ (label, section) :: post →
    is_script label → 0 < len section →
    post = [] ∧ Forall (λ x, len x.2 = 0) pre.

(** The state of the loop against the groups closed so far and the
    labelled sections of the group in the making. *)
Definition loop_inv (st : EncState) (groups : list (list (string * bytes)))
    (cg : list (string * bytes)) : Prop :=
  compressed_blocks st = block_of <$> (fmap snd <$> groups) ∧
  current_group st = cg.*2 ∧
  current_group_size st = total (cg.*2) ∧
  (cg ≠ [] → ∃ pre s, cg = pre ++ [(previous_label st, s)]) ∧
  Forall script_closes groups ∧
  script_closes cg.

(** The offsets [_build] gives the categories that are present, from
    [base] on. *)
Fixpoint starts_from (base : Z) (present : list (string * list bytes))
    : list (string * Z) :=
  match present with
  | [] => []
  | (category, secs) :: rest =>
      (category, base) :: starts_from (base + len secs) rest
  end.

(** The categories of [categories] that [raw_sections] has, with their
    sections. *)
Definition present_in (raw_sections : gmap string (list bytes))
    (categories : list string) : list (string * list bytes) :=
  omap (λ category, (λ secs, (category, secs)) <$> raw_sections !! category)
       categories.

(** The category each data section comes from. *)
Definition section_labels (present : list (string * list bytes)) : list string :=
  concat ((λ cs, replicate (length cs.2) cs.1) <$> present).

End Encoder.

End Mrea.

(** ** asset_manager.py *)

Module Manager.
Import GameCheck.

Definition AssetId : Type := Z.
Definition AssetType : Type := string.

(** [NameOrAssetId]: a custom name, or an asset id. *)
Inductive NameOrAssetId :=
  | Name (name : string)
  | Id (asset_id : AssetId).

(** [str(value)] *)
Definition str (value : NameOrAssetId) : string :=
  match value with
  | Name name => name
  | Id asset_id => pretty asset_id
  end.

(** [RawResource(type, data)] *)
Record RawResource := mkRawResource {
  r_type : AssetType;
  r_data : bytes;
}.

(** [Dependency(type, id, exclude_for_mlvl)] *)
Record Dependency := mkDependency {
  d_type : AssetType;
  d_id : AssetId;
  exclude_for_mlvl : bool;
}.

Global Instance Dependency_eq_dec : EqDecision Dependency.
Proof. solve_decision. Defined.

(** [Resource]: raw already, or a [BaseResource] still to be encoded, seen
    through [resource_type()] and the outcome of [build()]. *)
Inductive Resource :=
  | Raw (raw : RawResource)
  | Base (resource_type : AssetType) (build : Result bytes).

(** *** The files a provider reads and [save_modifications] writes *)

(** The file tree, by path. *)
Abbreviation World := (gmap string bytes).

(** [Path.joinpath] *)
Definition joinpath (root name : string) : string := root +:+ "/" +:+ name.

(** [FileProvider]: the interface; [get_dol] plays no part in the manager. *)
Record FileProvider := mkFileProvider {
  is_file : World → string → bool;
  rglob : World → string → list string;
  open_binary : World → string → Result bytes;
}.

(** The part of [s] behind the prefix [p], when [s] starts with [p]. *)
Fixpoint strip_prefix (p s : string) : option string :=
  match p, s with
  | EmptyString, _ => Some s
  | String a p', String b s' => if bool_decide (a = b) then strip_prefix p' s' else None
  | String _ _, EmptyString => None
  end.

(** [PurePath.name]: the component behind the last slash. *)
Fixpoint basename_go (s acc : string) : string :=
  match s with
  | EmptyString => acc
  | String c s' => if bool_decide (c = "/"%char) then basename_go s' EmptyString
                   else basename_go s' (acc +:+ String c EmptyString)
  end.
Definition basename (s : string) : string := basename_go s EmptyString.

Section Providers.
(** [fnmatch.fnmatch(name, pattern)] *)
Variable fnmatch : string → string → bool.

(** [PathFileProvider(root)] *)
Definition PathFileProvider (root : string) : FileProvider :=
  {| is_file := λ w name, bool_decide (is_Some (w !! joinpath root name));
     rglob := λ w pattern,
       omap (λ path, match strip_prefix (root +:+ "/") path with
                     | Some rel => if fnmatch (basename rel) pattern
                                   then Some rel else None
                     | None => None
                     end)
            (elements (dom w));
     open_binary := λ w name,
       match w !! joinpath root name with
       | Some content => Ok content
       | None => Raise (FileNotFoundError (joinpath root name))
       end |}.

(** The data partition of a disc, as [nod] hands it out. *)
Record Partition := mkPartition {
  files : list string;
  read_file : string → Result bytes;
}.

(** A disc: [get_data_partition()] is a partition or [None]. *)
Record Disc := mkDisc {
  get_data_partition : option Partition;
}.

(** [nod.open_disc_from_image(iso_path)]: [None], or the disc. *)
Variable open_disc_from_image : World → string → option Disc.

(** [IsoFileProvider.__init__] and the methods of the object built. *)
Definition IsoFileProvider (w0 : World) (iso_path : string) : Result FileProvider :=
  match open_disc_from_image w0 iso_path with
  | None => Raise (ValueError (iso_path +:+ " is not a GC/Wii ISO"))
  | Some disc =>
      match get_data_partition disc with
      | None => Raise (ValueError (iso_path +:+ " does not have data"))
      | Some data =>
          let all_files := files data in
          Ok {| is_file := λ _ name, bool_decide (name ∈ all_files);
                rglob := λ _ pattern, filter (λ it, fnmatch it pattern = true) all_files;
                open_binary := λ _ name, read_file data name |}
      end
  end.
End Providers.

(** *** The collaborators of the manager *)

(** What the generator of a parser ([dependencies_for],
    [get_cheated_dependencies]) does, as the manager sees it: it yields a
    dependency of its own, or it yields from
    [asset_manager.get_dependencies_for_asset(child, must_exist=...)]. *)
Inductive DepItem :=
  | Yield (d : Dependency)
  | YieldFrom (child : AssetId) (must_exist : bool).

(** The code the manager calls into: [formats.pak.Pak],
    the [formats] registry, [dependency_cheating], [json] and
    [base_resource.resolve_asset_id]. *)
Record Collaborators := mkCollaborators {
  (** [formats.pak.Pak] *)
  Pak : Type;
  (** [Pak.header_for_game(game).parse_stream(f, ...).resources], each
      entry as [(entry.asset.id, entry.asset.type)] *)
  Pak_header_resources : Game → bytes → Result (list (AssetId * AssetType));
  Pak_parse : Game → bytes → Result Pak;
  Pak_get_asset : Pak → AssetId → option RawResource;
  Pak_remove_asset : Pak → AssetId → Result Pak;
  Pak_replace_asset : Pak → AssetId → RawResource → Result Pak;
  Pak_add_asset : Pak → AssetId → option RawResource → Result Pak;
  Pak_build_stream : Pak → Result bytes;
  (** [dependency_cheating] *)
  should_cheat_asset : AssetType → bool;
  get_cheated_dependencies : Game → option RawResource → Result (list DepItem);
  (** [formats.has_resource_type], and for the class
      [formats.resource_type_for(asset_type)]: [has_dependencies(game)]
      and [parse(data, ...).dependencies_for()] *)
  has_resource_type : AssetType → bool;
  has_dependencies : AssetType → Game → bool;
  parsed_dependencies_for : AssetType → Game → bytes → Result (list DepItem);
  (** [json.loads(f.read().decode("utf-8"))] and [json.dump] *)
  json_loads : bytes → Result (gmap string AssetId);
  json_dump : gmap string AssetId → bytes;
  (** [resolve_asset_id(game, name)] for a [str]: the id derived from
      the name *)
  name_to_asset_id : Game → string → AssetId;
}.

Section AssetManager.
Context {X : Collaborators}.

(** [resolve_asset_id] of [base_resource].
    Modelled from the spec: an asset id stands for itself, a name for
    the id derived from it. *)
Definition resolve_asset_id (game : Game) (value : NameOrAssetId) : AssetId :=
  match value with
  | Name name => name_to_asset_id X game name
  | Id asset_id => asset_id
  end.

(** The attributes of an [AssetManager]. *)
Record AssetManager := mkAssetManager {
  provider : FileProvider;
  target_game : Game;
  _modified_resources : gmap AssetId (option RawResource);
  _in_memory_paks : gmap string (Pak X);
  _next_generated_id : Z;
  _ensured_asset_ids : gmap string (gset AssetId);
  _paks_for_asset_id : gmap AssetId (gset string);
  _types_for_asset_id : gmap AssetId AssetType;
  _custom_asset_ids : gmap string AssetId;
  all_paks : list string;
  _cached_dependencies : gmap AssetId (list Dependency);
  _cached_ancs_per_char_dependencies : gmap AssetId (gmap Z (list Dependency));
  _sound_id_to_agsc : gmap Z (option AssetId);
}.

Definition set_modified_resources v (m : AssetManager) : AssetManager :=
  mkAssetManager (provider m) (target_game m) v (_in_memory_paks m)
    (_next_generated_id m) (_ensured_asset_ids m) (_paks_for_asset_id m)
    (_types_for_asset_id m) (_custom_asset_ids m) (all_paks m)
    (_cached_dependencies m) (_cached_ancs_per_char_dependencies m)
    (_sound_id_to_agsc m).
Definition set_in_memory_paks v (m : AssetManager) : AssetManager :=
  mkAssetManager (provider m) (target_game m) (_modified_resources m) v
    (_next_generated_id m) (_ensured_asset_ids m) (_paks_for_asset_id m)
    (_types_for_asset_id m) (_custom_asset_ids m) (all_paks m)
    (_cached_dependencies m) (_cached_ancs_per_char_dependencies m)
    (_sound_id_to_agsc m).
Definition set_next_generated_id v (m : AssetManager) : AssetManager :=
  mkAssetManager (provider m) (target_game m) (_modified_resources m)
    (_in_memory_paks m) v (_ensured_asset_ids m) (_paks_for_asset_id m)
    (_types_for_asset_id m) (_custom_asset_ids m) (all_paks m)
    (_cached_dependencies m) (_cached_ancs_per_char_dependencies m)
    (_sound_id_to_agsc m).
Definition set_ensured_asset_ids v (m : AssetManager) : AssetManager :=
  mkAssetManager (provider m) (target_game m) (_modified_resources m)
    (_in_memory_paks m) (_next_generated_id m) v (_paks_for_asset_id m)
    (_types_for_asset_id m) (_custom_asset_ids m) (all_paks m)
    (_cached_dependencies m) (_cached_ancs_per_char_dependencies m)
    (_sound_id_to_agsc m).
Definition set_paks_for_asset_id v (m : AssetManager) : AssetManager :=
  mkAssetManager (provider m) (target_game m) (_modified_resources m)
    (_in_memory_paks m) (_next_generated_id m) (_ensured_asset_ids m) v
    (_types_for_asset_id m) (_custom_asset_ids m) (all_paks m)
    (_cached_dependencies m) (_cached_ancs_per_char_dependencies m)
    (_sound_id_to_agsc m).
Definition set_types_for_asset_id v (m : AssetManager) : AssetManager :=
  mkAssetManager (provider m) (target_game m) (_modified_resources m)
    (_in_memory_paks m) (_next_generated_id m) (_ensured_asset_ids m)
    (_paks_for_asset_id m) v (_custom_asset_ids m) (all_paks m)
    (_cached_dependencies m) (_cached_ancs_per_char_dependencies m)
    (_sound_id_to_agsc m).
Definition set_custom_asset_ids v (m : AssetManager) : AssetManager :=
  mkAssetManager (provider m) (target_game m) (_modified_resources m)
    (_in_memory_paks m) (_next_generated_id m) (_ensured_asset_ids m)
    (_paks_for_asset_id m) (_types_for_asset_id m) v (all_paks m)
    (_cached_dependencies m) (_cached_ancs_per_char_dependencies m)
    (_sound_id_to_agsc m).
Definition set_all_paks v (m : AssetManager) : AssetManager :=
  mkAssetManager (provider m) (target_game m) (_modified_resources m)
    (_in_memory_paks m) (_next_generated_id m) (_ensured_asset_ids m)
    (_paks_for_asset_id m) (_types_for_asset_id m) (_custom_asset_ids m) v
    (_cached_dependencies m) (_cached_ancs_per_char_dependencies m)
    (_sound_id_to_agsc m).
Definition set_cached_dependencies v (m : AssetManager) : AssetManager :=
  mkAssetManager (provider m) (target_game m) (_modified_resources m)
    (_in_memory_paks m) (_next_generated_id m) (_ensured_asset_ids m)
    (_paks_for_asset_id m) (_types_for_asset_id m) (_custom_asset_ids m)
    (all_paks m) v (_cached_ancs_per_char_dependencies m)
    (_sound_id_to_agsc m).

(** A method that updates the manager and returns or raises: the
    manager afterwards, whatever the outcome, and the outcome. *)
Definition M (A : Type) : Type := AssetManager → AssetManager * Result A.

Definition mret {A} (a : A) : M A := λ m, (m, Ok a).
Definition mraise {A} (e : Exception) : M A := λ m, (m, Raise e).
Definition mbind {A B} (c : M A) (f : A → M B) : M B :=
  λ m, match c m with
       | (m', Ok a) => f a m'
       | (m', Raise e) => (m', Raise e)
       end.
Definition mlift {A} (r : Result A) : M A := λ m, (m, r).

(** [_resolve_asset_id] *)
Definition _resolve_asset_id (m : AssetManager) (value : NameOrAssetId) : AssetId :=
  match _custom_asset_ids m !! str value with
  | Some asset_id => asset_id
  | None => resolve_asset_id (target_game m) value
  end.

(** [_add_pak_name_for_asset_id] *)
Definition _add_pak_name_for_asset_id (asset_id : AssetId) (pak_name : string)
    (m : AssetManager) : AssetManager :=
  set_paks_for_asset_id
    (<[asset_id := default ∅ (_paks_for_asset_id m !! asset_id) ∪ {[pak_name]}]>
       (_paks_for_asset_id m)) m.

(** The body of [for entry in pak_no_data.resources] *)
Definition scan_entry (name : string) (m : AssetManager)
    (entry : AssetId * AssetType) : AssetManager :=
  let m := _add_pak_name_for_asset_id entry.1 name m in
  set_types_for_asset_id (<[entry.1 := entry.2]> (_types_for_asset_id m)) m.

(** The loop [for name in self.all_paks] of [_update_headers] *)
Fixpoint scan_paks (w : World) (names : list string) : M unit := λ m,
  match names with
  | [] => (m, Ok tt)
  | name :: rest =>
      match (data ←r open_binary (provider m) w name;
             Pak_header_resources X (target_game m) data)%result with
      | Raise e => (m, Raise e)
      | Ok resources =>
          let m := set_ensured_asset_ids (<[name := ∅]> (_ensured_asset_ids m)) m in
          let m := foldl (scan_entry name) m resources in
          scan_paks w rest m
      end
  end.

(** [_update_headers] *)
Definition _update_headers (w : World) : M unit := λ m,
  let m := set_ensured_asset_ids ∅ m in
  let m := set_paks_for_asset_id ∅ m in
  let m := set_types_for_asset_id ∅ m in
  let m := set_custom_asset_ids ∅ m in
  match (if is_file (provider m) w "custom_names.json"
         then (text ←r open_binary (provider m) w "custom_names.json";
               names ←r json_loads X text;
               Ok (names ∪ _custom_asset_ids m))%result
         else Ok (_custom_asset_ids m)) with
  | Raise e => (m, Raise e)
  | Ok custom =>
      let m := set_custom_asset_ids custom m in
      let m := set_all_paks (rglob (provider m) w "*.pak") m in
      scan_paks w (all_paks m) m
  end.

(** [__init__], up to the audio-group table the manager of an ECHOES
    game goes on to build. *)
Definition init (w : World) (provider : FileProvider) (target_game : Game)
    : AssetManager * Result unit :=
  _update_headers w
    {| provider := provider; target_game := target_game;
       _modified_resources := ∅; _in_memory_paks := ∅;
       _next_generated_id := 0xFFFF0000;
       _ensured_asset_ids := ∅; _paks_for_asset_id := ∅;
       _types_for_asset_id := ∅; _custom_asset_ids := ∅; all_paks := [];
       _cached_dependencies := ∅;
       _cached_ancs_per_char_dependencies := ∅;
       _sound_id_to_agsc := ∅ |}.

(** [all_asset_ids] *)
Definition all_asset_ids (m : AssetManager) : list AssetId :=
  elements (dom (_paks_for_asset_id m)).

(** [find_paks] *)
Definition find_paks (m : AssetManager) (asset_id : NameOrAssetId)
    : Result (list string) :=
  let asset_id := _resolve_asset_id m asset_id in
  match _paks_for_asset_id m !! asset_id with
  | Some paks => Ok (elements paks)
  | None => Raise (UnknownAssetId asset_id)
  end.

(** [does_asset_exists] *)
Definition does_asset_exists (m : AssetManager) (asset_id : NameOrAssetId) : bool :=
  let asset_id := _resolve_asset_id m asset_id in
  match _modified_resources m !! asset_id with
  | Some (Some _) => true
  | Some None => false
  | None => bool_decide (asset_id ∈ dom (_paks_for_asset_id m))
  end.

(** [get_asset_type] *)
Definition get_asset_type (m : AssetManager) (asset_id : NameOrAssetId)
    : Result AssetType :=
  let original_name := asset_id in
  let asset_id := _resolve_asset_id m asset_id in
  match _modified_resources m !! asset_id with
  | Some None => Raise (ValueError ("Deleted asset_id: " +:+ str original_name))
  | Some (Some result) => Ok (r_type result)
  | None =>
      match _types_for_asset_id m !! asset_id with
      | Some t => Ok t
      | None => Raise (UnknownAssetId asset_id)
      end
  end.

Notation "x ←m c ; k" := (mbind c (λ x, k))
  (at level 100, c at next level, right associativity).

(** [for x in l: f(x)] *)
Fixpoint mfor {A} (f : A → M unit) (l : list A) : M unit :=
  match l with
  | [] => mret tt
  | x :: rest => _ ←m f x; mfor f rest
  end.

(** [get_pak] *)
Definition get_pak (w : World) (pak_name : string) : M (Pak X) := λ m,
  if bool_decide (pak_name ∉ dom (_ensured_asset_ids m))
  then (m, Raise (ValueError ("Unknown pak_name: " +:+ pak_name)))
  else match _in_memory_paks m !! pak_name with
       | Some pak => (m, Ok pak)
       | None =>
           match (data ←r open_binary (provider m) w pak_name;
                  Pak_parse X (target_game m) data)%result with
           | Raise e => (m, Raise e)
           | Ok pak =>
               (set_in_memory_paks (<[pak_name := pak]> (_in_memory_paks m)) m,
                Ok pak)
           end
       end.

(** The loop [for pak_name in self._paks_for_asset_id[asset_id]] of
    [get_raw_asset]; falling out of it returns [None]. *)
Fixpoint search_paks (w : World) (asset_id : AssetId) (pak_names : list string)
    : M (option RawResource) :=
  match pak_names with
  | [] => mret None
  | pak_name :: rest =>
      pak ←m get_pak w pak_name;
      match Pak_get_asset X pak asset_id with
      | Some result => mret (Some result)
      | None => search_paks w asset_id rest
      end
  end.

(** [get_raw_asset]: the [try] turns a [KeyError], wherever in the loop
    it was raised, into [UnknownAssetId]. *)
Definition get_raw_asset (w : World) (asset_id : NameOrAssetId)
    : M (option RawResource) := λ m,
  let original_name := asset_id in
  let asset_id := _resolve_asset_id m asset_id in
  match _modified_resources m !! asset_id with
  | Some None => (m, Raise (ValueError ("Deleted asset_id: " +:+ str original_name)))
  | Some (Some result) => (m, Ok (Some result))
  | None =>
      match _paks_for_asset_id m !! asset_id with
      | None => (m, Raise (UnknownAssetId asset_id))
      | Some paks =>
          match search_paks w asset_id (elements paks) m with
          | (m', Raise (KeyError _)) => (m', Raise (UnknownAssetId asset_id))
          | r => r
          end
      end
  end.

(** The [while] loop of [generate_asset_id], run for at most [fuel]
    tests. *)
Fixpoint generate_scan (fuel : nat) (m : AssetManager) (result : Z) : option Z :=
  match fuel with
  | O => None
  | S fuel' =>
      if does_asset_exists m (Id result)
      then generate_scan fuel' m (result + 1)
      else Some result
  end.

(** [generate_asset_id] *)
Definition generate_asset_id (fuel : nat) (m : AssetManager)
    : option (AssetManager * Z) :=
  match generate_scan fuel m (_next_generated_id m) with
  | Some result => Some (set_next_generated_id (result + 1) m, result)
  | None => None
  end.

(** [register_custom_asset_name] *)
Definition register_custom_asset_name (name : string) (asset_id : AssetId)
    : M unit := λ m,
  if does_asset_exists m (Id asset_id)
  then (m, Raise (ValueError (pretty asset_id +:+ " already exists")))
  else match _custom_asset_ids m !! name with
       | Some other =>
           if bool_decide (other ≠ asset_id)
           then (m, Raise (ValueError (name +:+ " already exists")))
           else (set_custom_asset_ids (<[name := asset_id]> (_custom_asset_ids m)) m,
                 Ok tt)
       | None =>
           (set_custom_asset_ids (<[name := asset_id]> (_custom_asset_ids m)) m, Ok tt)
       end.

(** [get_custom_asset] *)
Definition get_custom_asset (m : AssetManager) (name : string) : option AssetId :=
  _custom_asset_ids m !! name.

(** [replace_asset] *)
Definition replace_asset (asset_id : NameOrAssetId) (new_data : Resource)
    : M AssetId := λ m,
  let asset_id := _resolve_asset_id m asset_id in
  if negb (does_asset_exists m (Id asset_id))
  then (m, Raise (UnknownAssetId asset_id))
  else
    match (match new_data with
           | Base resource_type build =>
               (data ←r build; Ok (mkRawResource resource_type data))%result
           | Raw raw => Ok raw
           end) with
    | Raise e => (m, Raise e)
    | Ok raw_asset =>
        (set_modified_resources
           (<[asset_id := Some raw_asset]> (_modified_resources m)) m,
         Ok asset_id)
    end.

(** [delete_asset] *)
Definition delete_asset (asset_id : NameOrAssetId) : M unit := λ m,
  let asset_id := _resolve_asset_id m asset_id in
  if negb (does_asset_exists m (Id asset_id))
  then (m, Raise (UnknownAssetId asset_id))
  else
    let m := set_modified_resources
               (<[asset_id := None]> (_modified_resources m)) m in
    (set_ensured_asset_ids
       ((λ ensured_ids, ensured_ids ∖ {[asset_id]}) <$> _ensured_asset_ids m) m,
     Ok tt).

(** *** The dependency engine *)

(** Running the generator of a parser: [tuple(...)] takes the items in
    order; [rec] is [get_dependencies_for_asset] one call deeper. *)
Fixpoint run_items (rec : AssetId → bool → M (list Dependency))
    (items : list DepItem) : M (list Dependency) :=
  match items with
  | [] => mret []
  | Yield d :: rest =>
      ds ←m run_items rec rest; mret (d :: ds)
  | YieldFrom child must_exist :: rest =>
      cs ←m rec child must_exist;
      ds ←m run_items rec rest;
      mret (cs ++ ds)
  end.

(** The [else] branch of [_get_dependencies_for_asset]: no cache entry.
    [get_asset_format(asset_id)] looks the type up again and finds
    [asset_type]; [get_parsed_asset] reads [.data] of what
    [get_raw_asset] returned. *)
Definition compute_dependencies (rec : AssetId → bool → M (list Dependency))
    (w : World) (asset_id : AssetId) (asset_type : AssetType)
    : M (list Dependency) := λ m,
  let game := target_game m in
  if should_cheat_asset X asset_type
  then (raw ←m get_raw_asset w (Id asset_id);
        items ←m mlift (get_cheated_dependencies X game raw);
        run_items rec items) m
  else if has_resource_type X asset_type && has_dependencies X asset_type game
  then (raw ←m get_raw_asset w (Id asset_id);
        items ←m mlift (match raw with
                        | Some raw => parsed_dependencies_for X asset_type game (r_data raw)
                        | None => Raise (AttributeError "'NoneType' object has no attribute 'data'")
                        end);
        run_items rec items) m
  else (m, Ok []).

(** [_get_dependencies_for_asset], for an [int] asset id (the log lines
    format it with [#8x]). *)
Definition _get_dependencies_for_asset (rec : AssetId → bool → M (list Dependency))
    (w : World) (asset_id : AssetId) (must_exist : bool)
    : M (list Dependency) := λ m,
  if negb (is_valid_asset_id (target_game m) asset_id) then (m, Ok [])
  else if negb (does_asset_exists m (Id asset_id))
  then (if must_exist then (m, Raise (UnknownAssetId asset_id)) else (m, Ok []))
  else
    match get_asset_type m (Id asset_id) with
    | Raise e => (m, Raise e)
    | Ok asset_type =>
        match _cached_dependencies m !! asset_id with
        | Some deps => (m, Ok (deps ++ [mkDependency asset_type asset_id false]))
        | None =>
            match compute_dependencies rec w asset_id asset_type m with
            | (m', Raise e) => (m', Raise e)
            | (m', Ok deps) =>
                (set_cached_dependencies
                   (<[asset_id := deps]> (_cached_dependencies m')) m',
                 Ok (deps ++ [mkDependency asset_type asset_id false]))
            end
        end
    end.

(** The body of [get_dependencies_for_asset] *)
Definition get_dependencies_for_asset_body
    (rec : AssetId → bool → M (list Dependency))
    (w : World) (asset_id : AssetId) (must_exist : bool)
    : M (list Dependency) := λ m,
  let override :=
    bool_decide (asset_id ∈ mlvl_dependencies_to_ignore (target_game m)) in
  match _get_dependencies_for_asset rec w asset_id must_exist m with
  | (m', Ok deps) =>
      (m', Ok ((λ it, mkDependency (d_type it) (d_id it)
                        (exclude_for_mlvl it || override)) <$> deps))
  | (m', Raise e) => (m', Raise e)
  end.

(** [get_dependencies_for_asset].  [depth] is the number of nested
    calls the interpreter's stack still has room for; the call that
    would exceed it raises [RecursionError]. *)
Fixpoint get_dependencies_for_asset (depth : nat) (w : World)
    (asset_id : AssetId) (must_exist : bool) : M (list Dependency) :=
  get_dependencies_for_asset_body
    (match depth with
     | O => λ _ _, mraise RecursionError
     | S depth' => get_dependencies_for_asset depth' w
     end) w asset_id must_exist.

(** What [get_dependencies_for_asset depth] hands to its body for the
    nested calls. *)
Definition nested_call (depth : nat) (w : World)
    : AssetId → bool → M (list Dependency) :=
  match depth with
  | O => λ _ _, mraise RecursionError
  | S depth' => get_dependencies_for_asset depth' w
  end.

(** The flag [get_dependencies_for_asset(asset_id)] puts on what
    [_get_dependencies_for_asset] produced. *)
Definition with_override (game : Game) (asset_id : AssetId) (it : Dependency)
    : Dependency :=
  mkDependency (d_type it) (d_id it)
    (exclude_for_mlvl it || bool_decide (asset_id ∈ mlvl_dependencies_to_ignore game)).

(** *** Ensuring, adding and saving *)

(** [ensure_present]; [depth] as for [get_dependencies_for_asset]. *)
Fixpoint ensure_present (depth : nat) (w : World) (pak_name : string)
    (asset_id : NameOrAssetId) : M unit := λ m,
  if bool_decide (pak_name ∉ dom (_ensured_asset_ids m))
  then (m, Raise (ValueError ("Unknown pak_name: " +:+ pak_name)))
  else
    let asset_id := _resolve_asset_id m asset_id in
    if negb (does_asset_exists m (Id asset_id))
    then (m, Raise (UnknownAssetId asset_id))
    else
      match _paks_for_asset_id m !! asset_id with
      | None => (m, Raise (KeyError (pretty asset_id)))
      | Some paks =>
          let m :=
            if bool_decide (pak_name ∉ paks)
            then set_ensured_asset_ids
                   (<[pak_name := default ∅ (_ensured_asset_ids m !! pak_name)
                                    ∪ {[asset_id]}]> (_ensured_asset_ids m)) m
            else m in
          (deps ←m get_dependencies_for_asset depth w asset_id false;
           mfor (λ dep,
                   if bool_decide (d_id dep = asset_id) then mret tt
                   else match depth with
                        | O => mraise RecursionError
                        | S depth' => ensure_present depth' w pak_name (Id (d_id dep))
                        end) deps) m
      end.

(** [add_new_asset] *)
Definition add_new_asset (depth : nat) (w : World) (name : NameOrAssetId)
    (new_data : Resource) (in_paks : list string) : M unit := λ m,
  let asset_id := _resolve_asset_id m name in
  if does_asset_exists m (Id asset_id)
  then (m, Raise (ValueError (str name +:+ " already exists")))
  else
    let m := set_custom_asset_ids (<[str name := asset_id]> (_custom_asset_ids m)) m in
    let m := set_paks_for_asset_id (<[asset_id := ∅]> (_paks_for_asset_id m)) m in
    (_ ←m replace_asset name new_data;
     mfor (λ pak_name, ensure_present depth w pak_name (Id asset_id)) in_paks) m.

(** [_write_custom_names] *)
Definition _write_custom_names (output_path : string) (m : AssetManager)
    (w : World) : World :=
  <[joinpath output_path "custom_names.json" := json_dump X (_custom_asset_ids m)]> w.

(** [for asset_id in self._modified_resources.keys():
       modified_paks.update(self._paks_for_asset_id[asset_id])] *)
Fixpoint collect_modified_paks (m : AssetManager) (asset_ids : list AssetId)
    (modified_paks : gset string) : Result (gset string) :=
  match asset_ids with
  | [] => Ok modified_paks
  | asset_id :: rest =>
      match _paks_for_asset_id m !! asset_id with
      | Some paks => collect_modified_paks m rest (modified_paks ∪ paks)
      | None => Raise (KeyError (pretty asset_id))
      end
  end.

(** [for asset_ids in self._ensured_asset_ids.values():
       for asset_id in asset_ids: ...] *)
Fixpoint collect_assets_to_copy (w : World) (asset_ids : list AssetId)
    (asset_ids_to_copy : gmap AssetId (option RawResource))
    : M (gmap AssetId (option RawResource)) :=
  match asset_ids with
  | [] => mret asset_ids_to_copy
  | asset_id :: rest =>
      match asset_ids_to_copy !! asset_id with
      | Some _ => collect_assets_to_copy w rest asset_ids_to_copy
      | None =>
          raw ←m get_raw_asset w (Id asset_id);
          collect_assets_to_copy w rest (<[asset_id := raw]> asset_ids_to_copy)
      end
  end.

(** [for asset_id, raw_asset in self._modified_resources.items(): ...] *)
Fixpoint apply_modifications (m : AssetManager) (pak_name : string)
    (items : list (AssetId * option RawResource)) (pak : Pak X) : Result (Pak X) :=
  match items with
  | [] => Ok pak
  | (asset_id, raw_asset) :: rest =>
      match _paks_for_asset_id m !! asset_id with
      | None => Raise (KeyError (pretty asset_id))
      | Some paks =>
          if bool_decide (pak_name ∈ paks)
          then (pak ←r match raw_asset with
                       | None => Pak_remove_asset X pak asset_id
                       | Some raw_asset => Pak_replace_asset X pak asset_id raw_asset
                       end;
                apply_modifications m pak_name rest pak)%result
          else apply_modifications m pak_name rest pak
      end
  end.

(** [for asset_id in self._ensured_asset_ids[pak_name]:
       pak.add_asset(asset_id, asset_ids_to_copy[asset_id])] *)
Fixpoint add_ensured (asset_ids_to_copy : gmap AssetId (option RawResource))
    (asset_ids : list AssetId) (pak : Pak X) : Result (Pak X) :=
  match asset_ids with
  | [] => Ok pak
  | asset_id :: rest =>
      match asset_ids_to_copy !! asset_id with
      | None => Raise (KeyError (pretty asset_id))
      | Some raw =>
          (pak ←r Pak_add_asset X pak asset_id raw;
           add_ensured asset_ids_to_copy rest pak)%result
      end
  end.

(** One round of the loop [for pak_name in modified_paks] that updates
    and writes the PAKs. *)
Definition update_pak (output_path : string)
    (asset_ids_to_copy : gmap AssetId (option RawResource)) (pak_name : string)
    (m : AssetManager) (w : World) : AssetManager * World * Result unit :=
  match _in_memory_paks m !! pak_name with
  | None => (m, w, Raise (KeyError pak_name))
  | Some pak =>
      let m := set_in_memory_paks (delete pak_name (_in_memory_paks m)) m in
      match (pak ←r apply_modifications m pak_name
                      (map_to_list (_modified_resources m)) pak;
             ensured ←r match _ensured_asset_ids m !! pak_name with
                        | Some ensured => Ok ensured
                        | None => Raise (KeyError pak_name)
                        end;
             pak ←r add_ensured asset_ids_to_copy (elements ensured) pak;
             Pak_build_stream X pak)%result with
      | Raise e => (m, w, Raise e)
      | Ok content => (m, <[joinpath output_path pak_name := content]> w, Ok tt)
      end
  end.

Fixpoint update_paks (output_path : string)
    (asset_ids_to_copy : gmap AssetId (option RawResource))
    (pak_names : list string) (m : AssetManager) (w : World)
    : AssetManager * World * Result unit :=
  match pak_names with
  | [] => (m, w, Ok tt)
  | pak_name :: rest =>
      match update_pak output_path asset_ids_to_copy pak_name m w with
      | (m, w, Ok _) => update_paks output_path asset_ids_to_copy rest m w
      | r => r
      end
  end.

(** [save_modifications]: the manager and the file tree afterwards, and
    the outcome. *)
Definition save_modifications (w : World) (output_path : string)
    (m : AssetManager) : AssetManager * World * Result unit :=
  match collect_modified_paks m (map_to_list (_modified_resources m)).*1 ∅ with
  | Raise e => (m, w, Raise e)
  | Ok modified_paks =>
      match mfor (λ pak_name, _ ←m get_pak w pak_name; mret tt)
                 (elements modified_paks) m with
      | (m, Raise e) => (m, w, Raise e)
      | (m, Ok _) =>
          match collect_assets_to_copy w
                  (concat (elements <$> (map_to_list (_ensured_asset_ids m)).*2))
                  ∅ m with
          | (m, Raise e) => (m, w, Raise e)
          | (m, Ok asset_ids_to_copy) =>
              match update_paks output_path asset_ids_to_copy
                      (elements modified_paks) m w with
              | (m, w, Raise e) => (m, w, Raise e)
              | (m, w, Ok _) =>
                  let w := _write_custom_names output_path m w in
                  let m := set_modified_resources ∅ m in
                  match _update_headers w m with
                  | (m, r) => (m, w, r)
                  end
              end
          end
      end
  end.

(** A number of tests after which the loop of [generate_asset_id] has
    come to an end: one more than the entries the manager knows. *)
Definition enough_fuel (m : AssetManager) : nat :=
  S (size (_custom_asset_ids m) + size (_modified_resources m)
     + size (_paks_for_asset_id m)).

(** [ensured_asset_ids[p]] and [paks_for_asset_id[a]] never both hold
    the pair [(p, a)]. *)
Definition ensured_disjoint (m : AssetManager) : Prop :=
  ∀ p a, a ∈ default ∅ (_ensured_asset_ids m !! p) →
         p ∉ default ∅ (_paks_for_asset_id m !! a).

(** The header index: what [_update_headers] fills in. *)
Definition headers (m : AssetManager)
    : gmap AssetId (gset string) * gmap AssetId AssetType
      * gmap string (gset AssetId) * gmap string AssetId :=
  (_paks_for_asset_id m, _types_for_asset_id m, _ensured_asset_ids m,
   _custom_asset_ids m).

(** *** The sessions of a manager *)

(** The part of the manager that only [_update_headers] and the
    mutating operations write; reading assets and dependencies leaves
    it alone. *)
Definition same_bookkeeping (m m' : AssetManager) : Prop :=
  provider m' = provider m ∧
  target_game m' = target_game m ∧
  _modified_resources m' = _modified_resources m ∧
  _next_generated_id m' = _next_generated_id m ∧
  _ensured_asset_ids m' = _ensured_asset_ids m ∧
  _paks_for_asset_id m' = _paks_for_asset_id m ∧
  _types_for_asset_id m' = _types_for_asset_id m ∧
  _custom_asset_ids m' = _custom_asset_ids m ∧
  all_paks m' = all_paks m.

(** *** Notions the properties are stated with *)

(** An [M] computation that only reads. *)
Definition reads {A} (c : M A) : Prop :=
  ∀ m, same_bookkeeping m (c m).1.

(** Where a known id is counted: under its decimal name if that is an
    alias, under itself otherwise. *)
Definition slot (m : AssetManager) (r : Z) : string + Z :=
  if bool_decide (pretty r ∈ dom (_custom_asset_ids m)) then inl (pretty r)
  else inr r.

Definition slots (m : AssetManager) : list (string + Z) :=
  (inl <$> elements (dom (_custom_asset_ids m)))
  ++ (inr <$> elements (dom (_modified_resources m)))
  ++ (inr <$> elements (dom (_paks_for_asset_id m))).

(** From one state of a session to a later one: the id counter does not
    go back, and the ensured sets stay clear of the PAKs' own
    contents. *)
Definition session_rel (m m' : AssetManager) : Prop :=
  _next_generated_id m ≤ _next_generated_id m' ∧
  (ensured_disjoint m → ensured_disjoint m').

(** An [M] computation that respects [session_rel]. *)
Definition keeps {A} (c : M A) : Prop :=
  ∀ m, session_rel m (c m).1.

(** [ensure_present], with [next] for the call one level deeper. *)
Definition ensure_present_body (next : NameOrAssetId → M unit)
    (depth : nat) (w : World) (pak_name : string) (asset_id : NameOrAssetId)
    : M unit := λ m,
  if bool_decide (pak_name ∉ dom (_ensured_asset_ids m))
  then (m, Raise (ValueError ("Unknown pak_name: " +:+ pak_name)))
  else
    let asset_id := _resolve_asset_id m asset_id in
    if negb (does_asset_exists m (Id asset_id))
    then (m, Raise (UnknownAssetId asset_id))
    else
      match _paks_for_asset_id m !! asset_id with
      | None => (m, Raise (KeyError (pretty asset_id)))
      | Some paks =>
          let m :=
            if bool_decide (pak_name ∉ paks)
            then set_ensured_asset_ids
                   (<[pak_name := default ∅ (_ensured_asset_ids m !! pak_name)
                                    ∪ {[asset_id]}]> (_ensured_asset_ids m)) m
            else m in
          mbind (get_dependencies_for_asset depth w asset_id false)
            (λ deps,
               mfor (λ dep,
                       if bool_decide (d_id dep = asset_id) then mret tt
                       else next (Id (d_id dep))) deps) m
      end.

(** What [_update_headers] leaves behind, whatever its outcome: the
    counter as it was, and no ensured id. *)
Definition fresh_headers (m0 m : AssetManager) : Prop :=
  _next_generated_id m = _next_generated_id m0 ∧
  ∀ p, default ∅ (_ensured_asset_ids m !! p) = ∅.

(** Two managers that [scan_paks] cannot tell apart. *)
Definition scan_eq (m1 m2 : AssetManager) : Prop :=
  provider m1 = provider m2 ∧ target_game m1 = target_game m2 ∧
  headers m1 = headers m2.

(** One operation on the manager: the state it leaves behind, be it
    by returning or by raising.  [step_read] stands for the operations
    that fill the caches and load PAKs ([get_raw_asset],
    [get_parsed_asset], the dependency queries, the audio-group
    table). *)
Inductive step : AssetManager → AssetManager → Prop :=
  | step_read m m' :
      same_bookkeeping m m' → step m m'
  | step_generate_asset_id fuel m m' result :
      generate_asset_id fuel m = Some (m', result) → step m m'
  | step_register_custom_asset_name name asset_id m :
      step m (register_custom_asset_name name asset_id m).1
  | step_add_new_asset depth w name new_data in_paks m :
      step m (add_new_asset depth w name new_data in_paks m).1
  | step_replace_asset asset_id new_data m :
      step m (replace_asset asset_id new_data m).1
  | step_delete_asset asset_id m :
      step m (delete_asset asset_id m).1
  | step_ensure_present depth w pak_name asset_id m :
      step m (ensure_present depth w pak_name asset_id m).1
  | step_save_modifications w output_path m :
      step m (save_modifications w output_path m).1.1.

(** The states of a session: a manager as [__init__] leaves it, and
    what operations make of it. *)
Inductive reachable : AssetManager → Prop :=
  | reachable_init w provider target_game m :
      init w provider target_game = (m, Ok tt) → reachable m
  | reachable_step m m' :
      reachable m → step m m' → reachable m'.

End AssetManager.

End Manager.

(** ** A small instance: PAKs of four-byte entries

    Concrete collaborators on which the operations can be run: a PAK file
    is a sequence of four-byte big-endian asset ids, one per resource, all
    of type [TXTR], the data of a resource being its id; what a resource
    depends on is given by [deps]. *)

Module Demo.
Import GameCheck Manager.

Fixpoint ends_with (suffix s : string) : bool :=
  bool_decide (s = suffix) ||
  match s with
  | String _ s' => ends_with suffix s'
  | EmptyString => false
  end.

(** [fnmatch] for the patterns [*suffix] and [literal]. *)
Definition fnmatch (name pattern : string) : bool :=
  match pattern with
  | String c suffix =>
      if bool_decide (c = "*"%char) then ends_with suffix name
      else bool_decide (name = pattern)
  | EmptyString => bool_decide (name = pattern)
  end.

Fixpoint entries (content : bytes) : list AssetId :=
  match content with
  | a :: b :: c :: d :: rest => Construct.from_bytes_big [a; b; c; d] :: entries rest
  | _ => []
  end.

Definition raw_of (asset_id : AssetId) : RawResource :=
  {| r_type := "TXTR"; r_data := Construct.to_bytes_big 4 asset_id |}.

Definition collaborators (deps : AssetId → list DepItem) : Collaborators :=
  {| Pak := list AssetId;
     Pak_header_resources := λ _ content, Ok ((λ a, (a, "TXTR")) <$> entries content);
     Pak_parse := λ _ content, Ok (entries content);
     Pak_get_asset := λ pak asset_id,
       if bool_decide (asset_id ∈ pak) then Some (raw_of asset_id) else None;
     Pak_remove_asset := λ pak asset_id, Ok (filter (λ a, a ≠ asset_id) pak);
     Pak_replace_asset := λ pak _ _, Ok pak;
     Pak_add_asset := λ pak asset_id _, Ok (pak ++ [asset_id]);
     Pak_build_stream := λ pak, Ok (concat (Construct.to_bytes_big 4 <$> pak));
     should_cheat_asset := λ _, false;
     get_cheated_dependencies := λ _ _, Ok [];
     has_resource_type := λ t, bool_decide (t = "TXTR");
     has_dependencies := λ _ _, true;
     parsed_dependencies_for := λ _ _ content,
       Ok (deps (Construct.from_bytes_big content));
     json_loads := λ _, Ok ∅;
     json_dump := λ _, [];
     name_to_asset_id := λ _ name, Z.of_nat (String.length name) |}.

(** No resource depends on another. *)
Definition X : Collaborators := collaborators (λ _, []).

(** Every resource names the texture [0x7b2ea5b1] as a plain
    dependency. *)
Definition X_ing : Collaborators :=
  collaborators (λ _, [Yield (mkDependency "TXTR" 0x7b2ea5b1 false)]).

(** The asset 1 depends on the asset 2. *)
Definition X_chain : Collaborators :=
  collaborators (λ asset_id, if bool_decide (asset_id = 1) then [YieldFrom 2 false]
                             else []).

(** A tree with two PAKs: [in/a.pak] holds the assets [1], [2],
    [0x7b2ea5b1] and [0xFFFF0000]; [in/b.pak] holds the asset [3]. *)
Definition world : World :=
  {[ "in/a.pak" := Construct.to_bytes_big 4 1 ++ Construct.to_bytes_big 4 2
                   ++ Construct.to_bytes_big 4 0x7b2ea5b1
                   ++ Construct.to_bytes_big 4 0xFFFF0000;
     "in/b.pak" := Construct.to_bytes_big 4 3 ]}.

(** The manager of that tree, for an ECHOES game. *)
Definition manager (X : Collaborators) : AssetManager (X:=X) :=
  (init world (PathFileProvider fnmatch "in") ECHOES).1.

(** *** Codec inputs *)

(** An LZO layer that does not compress, and one that keeps a single
    byte. *)
Definition lzo_stored (uncompressed_size : Z) (content : bytes) : bytes := content.
Definition lzo_one_byte (uncompressed_size : Z) (content : bytes) : bytes :=
  take 1 content.

Definition lzo_parse_stored (uncompressed_size : Z) (content : bytes)
    : Result bytes := Ok content.
Definition data_section_parse (size : Z) : Construct.Parser bytes :=
  Construct.stream_read size.
Definition data_section_build (size : Z) (content : bytes) : Result bytes :=
  Ok content.

Definition no_decoded (category : string) (d : unit) : Result bytes := Ok [].

(** An ECHOES area whose geometry category holds one empty section and
    whose script layers hold one section of 32 bytes. *)
Definition mrea_mixed : Mrea.Container (Decoded:=unit) :=
  {| Mrea.version := Mrea.MREAVersion.Echoes;
     Mrea.area_transform := replicate 48 Byte.x00;
     Mrea.world_model_count := 0;
     Mrea.raw_sections :=
       {[ "geometry_section" := [[]];
          "script_layers_section" := [replicate 32 Byte.x01] ]};
     Mrea.sections := [] |}.

(** A MAPW with no area map, followed by one byte of padding. *)
Definition mapw_padded : bytes :=
  Construct.to_bytes_big 4 0xDEADF00D ++ Construct.to_bytes_big 4 1
  ++ Construct.to_bytes_big 4 0 ++ [Byte.x00].

(** A Prime 1 MREA (version [0xF]) without data sections: the 96 bytes
    of its header. *)
Definition mrea_prime : bytes :=
  Construct.to_bytes_big 4 0xDEADBEEF ++ Construct.to_bytes_big 4 0xF
  ++ replicate 48 Byte.x00 ++ replicate 40 Byte.x00.

(** [nod] finding no disc in the file, and a disc without a data
    partition. *)
Definition no_disc (w : World) (iso_path : string) : option Disc := None.
Definition no_data (w : World) (iso_path : string) : option Disc :=
  Some {| get_data_partition := None |}.
Definition one_file (w : World) (iso_path : string) : option Disc :=
  Some {| get_data_partition :=
            Some {| files := ["Metroid1.pak"];
                    read_file := λ name, Ok [] |} |}.

End Demo.

(** ** asset_manager.py: notions for further properties *)

Module ManagerMore.
Import GameCheck Manager.

Section Notions.
Context {X : Collaborators}.

(** A PAK covers an asset when its headers list the asset or the asset
    is to be copied into it on saving. *)
Definition covered (m : AssetManager (X:=X)) (pak_name : string)
    (asset_id : AssetId) : Prop :=
  pak_name ∈ default ∅ (_paks_for_asset_id m !! asset_id) ∨
  asset_id ∈ default ∅ (_ensured_asset_ids m !! pak_name).

(** From [m] to [m'] the ensured sets have only grown, over the same
    PAK names, and the rest of the bookkeeping is as it was. *)
Definition ensured_more (m m' : AssetManager (X:=X)) : Prop :=
  provider m' = provider m ∧
  target_game m' = target_game m ∧
  _modified_resources m' = _modified_resources m ∧
  _next_generated_id m' = _next_generated_id m ∧
  _paks_for_asset_id m' = _paks_for_asset_id m ∧
  _types_for_asset_id m' = _types_for_asset_id m ∧
  _custom_asset_ids m' = _custom_asset_ids m ∧
  all_paks m' = all_paks m ∧
  dom (_ensured_asset_ids m') = dom (_ensured_asset_ids m) ∧
  ∀ p, default ∅ (_ensured_asset_ids m !! p)
         ⊆ default ∅ (_ensured_asset_ids m' !! p).

(** An [M] computation that at most adds to the ensured sets. *)
Definition only_ensures {A} (c : M (X:=X) A) : Prop :=
  ∀ m, ensured_more m (c m).1.

(** The resources the header of a PAK lists, as [_update_headers] reads
    them: [Pak.header_for_game(...).parse_stream(f, ...).resources]. *)
Definition header_resources (w : World) (m : AssetManager (X:=X))
    (name : string) : Result (list (AssetId * AssetType)) :=
  (data ←r open_binary (provider m) w name;
   Pak_header_resources X (target_game m) data)%result.

End Notions.
End ManagerMore.

(** ** Python values and exceptions the further code needs *)

Module Python.

(** Exceptions of classes that [Exception] does not list. *)
Inductive Raised :=
  | Known (e : Exception)
  | AssertionError (msg : string)
  | ZeroDivisionError.

(** [type(e).__name__] *)
Definition raised_class (e : Raised) : string :=
  match e with
  | Known e => class_name e
  | AssertionError _ => "AssertionError"
  | ZeroDivisionError => "ZeroDivisionError"
  end.

Inductive Outcome (A : Type) :=
  | Return (a : A)
  | Throw (e : Raised).
Arguments Return {A} a.
Arguments Throw {A} e.

(** [l[i]] for a Python [int] index: a negative index counts from the
    end; the position of the element, or [None] where Python raises
    [IndexError]. *)
Definition py_index {A} (l : list A) (i : Z) : option nat :=
  if bool_decide (0 ≤ i < len l) then Some (Z.to_nat i)
  else if bool_decide (- len l ≤ i < 0) then Some (Z.to_nat (len l + i))
  else None.

(** Running code that raises the exceptions of [Exception] only. *)
Definition known {A} (r : Result A) : Outcome A :=
  match r with
  | Ok a => Return a
  | Raise e => Throw (Known e)
  end.

Definition obind {A B} (o : Outcome A) (f : A → Outcome B) : Outcome B :=
  match o with
  | Return a => f a
  | Throw e => Throw e
  end.

Declare Scope outcome_scope.
Delimit Scope outcome_scope with outcome.
Notation "x ←o m ; k" := (obind m (λ x, k))
  (at level 100, m at next level, right associativity) : outcome_scope.

End Python.

(** ** formats/mrea.py: further functions *)

Module MreaMore.
Import Construct Mrea Python.

Section Decode.
Context {Decoded : Type}.

(** [GreedyBytes._parse], as the subconstruct of [_decode_category]. *)
Definition GreedyBytes_parse (section : bytes)
    : Result (SectionValue (Decoded:=Decoded)) :=
  Ok (SBytes section).

(** [_decode_category]: [subcon] is [subcon._parse] on the bytes of a
    section. *)
Fixpoint _decode_category
    (subcon : bytes → Result (SectionValue (Decoded:=Decoded)))
    (category : list bytes) : Result (list (SectionValue (Decoded:=Decoded))) :=
  match category with
  | [] => Ok []
  | section :: rest =>
      (data ←r (if bool_decide (len section > 0) then subcon section
                else Ok SNone);
       result ←r _decode_category subcon rest;
       Ok (data :: result))%result
  end.

End Decode.

(** *** The fields of [MREAHeader] by version *)

(** How a field of [MREAHeader] is declared: plainly, under
    [WithVersion(MREAVersion.Echoes, ...)], or under
    [BeforeVersion(MREAVersion.EchoesDemo, ...)]. *)
Inductive FieldGate := Plain | FromEchoes | BeforeEchoesDemo | NoField.

(** The declaration of the section-index field [label]. *)
Definition header_gate (label : string) : FieldGate :=
  if bool_decide (label ∈ [ "geometry_section"; "script_layers_section";
                            "collision_section"; "unknown_section_1";
                            "lights_section"; "visibility_tree_section";
                            "path_section" ]) then Plain
  else if bool_decide (label ∈ [ "generated_script_objects_section";
                                 "unknown_section_2"; "portal_area_section";
                                 "static_geometry_map_section" ]) then FromEchoes
  else if bool_decide (label = "area_octree_section") then BeforeEchoesDemo
  else NoField.

(** Whether a header of [version] has the field. *)
Definition gate_open (version : Z) (gate : FieldGate) : bool :=
  match gate with
  | Plain => true
  | FromEchoes => bool_decide (version >= MREAVersion.Echoes)
  | BeforeEchoesDemo => bool_decide (version < MREAVersion.EchoesDemo)
  | NoField => false
  end.

(** *** [Area]: docks, instance ids and the dependency table *)

(** An element of [dock.connecting_dock]. *)
Record Connection := mkConnection {
  area_index : Z;
  dock_index : Z;
}.

(** An element of [area.docks]; [dock_coordinates] is what else the
    dock holds, which the code below does not touch. *)
Record Dock := mkDock {
  connecting_dock : list Connection;
  dock_coordinates : list bytes;
}.

(** The part of [Area._raw] that connecting docks reads and writes. *)
Record AreaRaw := mkAreaRaw {
  docks : list Dock;
  attached_area_index : list Z;
}.

(** [for c in docks.connecting_dock:
       if c.area_index not in attached_area_index:
           attached_area_index.append(c.area_index)] *)
Definition attach_connections (attached : list Z) (cs : list Connection) : list Z :=
  foldl (λ acc c, if bool_decide (area_index c ∈ acc) then acc
                  else acc ++ [area_index c]) attached cs.

(** [for docks in self._raw.docks: ...] *)
Definition collect_attached (ds : list Dock) : list Z :=
  foldl (λ acc d, attach_connections acc (connecting_dock d)) [] ds.

(** [Area._raw_connect_to]; [target_area_index] is [target_area._index]. *)
Definition _raw_connect_to (raw : AreaRaw) (source_dock_number : Z)
    (target_area_index : Z) (target_dock_number : Z) : Outcome AreaRaw :=
  match py_index (docks raw) source_dock_number with
  | None => Throw (Known (IndexError "list index out of range"))
  | Some n =>
      match docks raw !! n with
      | None => Throw (Known (IndexError "list index out of range"))
      | Some source_dock =>
          match connecting_dock source_dock with
          | [_] =>
              let source_dock' :=
                {| connecting_dock :=
                     [ {| area_index := target_area_index;
                          dock_index := target_dock_number |} ];
                   dock_coordinates := dock_coordinates source_dock |} in
              let docks' := <[n := source_dock']> (docks raw) in
              Return {| docks := docks';
                        attached_area_index := collect_attached docks' |}
          | _ => Throw (AssertionError "Only docks with one connection supported")
          end
      end
  end.

(** The search [next(i for i in itertools.count() if i not in ids)] of
    [Area.next_instance_id], from [i] on, for at most [fuel] tests. *)
Fixpoint count_scan (fuel : nat) (ids : list Z) (i : Z) : option Z :=
  match fuel with
  | O => None
  | S fuel' => if bool_decide (i ∈ ids) then count_scan fuel' ids (i + 1)
               else Some i
  end.

(** [Area.next_instance_id], for [ids] the instance numbers of
    [self.all_instances]. *)
Definition next_instance_id (fuel : nat) (ids : list Z) : option Z :=
  count_scan fuel ids 0.

(** The loop [for layer in layer_deps: offsets.append(offset);
    offset += len(layer)] of [Area.build_mlvl_dependencies]; a
    dependency is a pair [(asset_type, asset_id)]. *)
Fixpoint layer_offsets {A} (offset : Z) (layer_deps : list (list A)) : list Z :=
  match layer_deps with
  | [] => []
  | layer :: rest => offset :: layer_offsets (offset + len layer) rest
  end.

(** What [build_mlvl_dependencies] stores in [self._raw.dependencies]:
    [(dependencies, offsets)], the dependencies being the layers chained
    one after the other. *)
Definition dependency_table {A} (layer_deps : list (list A)) : list A * list Z :=
  (concat layer_deps, layer_offsets 0 layer_deps).

(** [data[a:]] for any [int] bound. *)
Definition slice_from {A} (a : Z) (l : list A) : list A :=
  if bool_decide (0 ≤ a) then drop (Z.to_nat a) l
  else drop (Z.to_nat (len l + a)) l.

(** [Area.non_layer_dependencies], for a table [(dependencies, offsets)]
    and [layer_count = len(self._layer_names)]. *)
Definition non_layer_dependencies {A} (table : list A * list Z)
    (layer_count : Z) : Result (list A) :=
  match py_index table.2 layer_count with
  | None => Raise (IndexError "list index out of range")
  | Some n =>
      match table.2 !! n with
      | Some offset => Ok (slice_from offset table.1)
      | None => Raise (IndexError "list index out of range")
      end
  end.

End MreaMore.

(** ** construct_extensions.py *)

Module ConstructExt.
Import Construct Python.

(** [pattern * n] for [bytes]: empty for [n <= 0]. *)
Definition bytes_times (pattern : bytes) (n : Z) : bytes :=
  concat (replicate (Z.to_nat n) pattern).

(** [AlignTo(modulus)._parse], with the stream at [position]: the bytes
    read and the rest. *)
Definition AlignTo_parse (modulus position : Z) (s : bytes)
    : Outcome (bytes * bytes) :=
  if bool_decide (modulus = 0) then Throw ZeroDivisionError
  else
    let pad := modulus - position `mod` modulus in
    if bool_decide (pad < modulus) then known (stream_read pad s)
    else Return ([], s).

(** [AlignTo(modulus)._build], with the stream at [position]: the bytes
    written. *)
Definition AlignTo_build (modulus position : Z) : Outcome bytes :=
  if bool_decide (modulus = 0) then Throw ZeroDivisionError
  else
    let pad := modulus - position `mod` modulus in
    if bool_decide (pad < modulus) then Return (bytes_times [Byte.x00] pad)
    else Return [].

Section AlignedPrefixed.
(** [length_field]: an unsigned big-endian integer of [n] bytes. *)
Variable n : nat.

(** The padding both [_parse] and [_build] of [AlignedPrefixed] apply
    to [data]: [length_size] is evaluated from [self.modulus], and what
    was given as [length_size] plays no part. *)
Definition AlignedPrefixed_pad (modulus length_size : Z) (pad_byte data : bytes)
    : Outcome bytes :=
  if bool_decide (modulus = 0) then Throw ZeroDivisionError
  else
    let length_size := modulus in
    let pad := modulus - (len data - length_size) `mod` modulus in
    if bool_decide (pad < modulus) then Return (data ++ bytes_times pad_byte pad)
    else Return data.

(** [AlignedPrefixed(length_field, GreedyBytes, modulus, length_size,
    pad_byte)._parse].  The modulus is evaluated first, the division
    comes after the reads. *)
Definition AlignedPrefixed_parse (modulus length_size : Z) (pad_byte : bytes)
    (s : bytes) : Outcome (bytes * bytes) :=
  (r ←o known (IntNub_parse n s);
   d ←o known (stream_read r.1 r.2);
   data ←o AlignedPrefixed_pad modulus length_size pad_byte d.1;
   Return (data, d.2))%outcome.

(** [AlignedPrefixed(length_field, GreedyBytes, modulus, length_size,
    pad_byte)._build]: the bytes written for [obj]. *)
Definition AlignedPrefixed_build (modulus length_size : Z) (pad_byte : bytes)
    (obj : bytes) : Outcome bytes :=
  (data ←o AlignedPrefixed_pad modulus length_size pad_byte obj;
   c ←o known (IntNub_build n (len data));
   Return (c ++ data))%outcome.

End AlignedPrefixed.

End ConstructExt.

(** ** Further example data *)

Module DemoMore.
Import Construct Mrea.

(** A block of three bytes of data. *)
Definition block : Block :=
  {| header := {| buffer_size := 32; uncompressed_size := 32;
                  compressed_size := 3; data_section_count := 1 |};
     data := [Byte.x01; Byte.x02; Byte.x03] |}.

(** A Prime header that also holds values for two fields only Echoes
    has. *)
Definition prime_header : Header :=
  {| h_version := MREAVersion.Prime;
     h_area_transform := replicate 48 Byte.x00;
     h_world_model_count := 1;
     h_script_layer_count := Some 7;
     h_data_section_count := 9;
     h_offsets := [ ("geometry_section", Some 0);
                    ("script_layers_section", Some 1);
                    ("collision_section", Some 2);
                    ("unknown_section_1", Some 3);
                    ("lights_section", Some 4);
                    ("visibility_tree_section", Some 5);
                    ("path_section", Some 6);
                    ("area_octree_section", Some 7);
                    ("portal_area_section", Some 8) ];
     h_compressed_block_count := None |}.

End DemoMore.

(** * Properties *)

(** ** The codecs *)

Module CodecFacts.
Import GameCheck Construct.

Lemma byte_to_Z_range b : 0 ≤ byte_to_Z b < 256.
Proof.
  unfold byte_to_Z. pose proof (Byte.to_N_bounded b). lia.
Qed.

Lemma byte_of_to_Z b : byte_of_Z (byte_to_Z b) = b.
Proof.
  unfold byte_of_Z. rewrite Z.mod_small by apply byte_to_Z_range.
  unfold byte_to_Z. by rewrite N2Z.id, Byte.of_to_N.
Qed.

Lemma byte_to_of_Z z : byte_to_Z (byte_of_Z z) = z `mod` 256.
Proof.
  unfold byte_of_Z, byte_to_Z.
  pose proof (Z.mod_pos_bound z 256 eq_refl) as Hr.
  destruct (Byte.of_N (Z.to_N (z `mod` 256))) as [b|] eqn:Hb; simpl.
  - apply Byte.to_of_N in Hb. rewrite Hb. lia.
  - apply Byte.of_N_None_iff in Hb. lia.
Qed.

Lemma from_bytes_big_snoc bs b :
  from_bytes_big (bs ++ [b]) = from_bytes_big bs * 256 + byte_to_Z b.
Proof. unfold from_bytes_big. by rewrite foldl_app. Qed.

Lemma from_bytes_big_range bs :
  0 ≤ from_bytes_big bs < 256 ^ Z.of_nat (length bs).
Proof.
  induction bs as [|b bs IH] using rev_ind; [simpl; unfold from_bytes_big; simpl; lia|].
  rewrite from_bytes_big_snoc, length_app. simpl length.
  rewrite Nat.add_1_r, Nat2Z.inj_succ, Z.pow_succ_r by lia.
  pose proof (byte_to_Z_range b). lia.
Qed.

Lemma byte_of_Z_mod z : byte_of_Z (z `mod` 256) = byte_of_Z z.
Proof. unfold byte_of_Z. by rewrite Zmod_mod. Qed.

Lemma to_from_bytes_big bs : to_bytes_big (length bs) (from_bytes_big bs) = bs.
Proof.
  induction bs as [|b bs IH] using rev_ind; [done|].
  rewrite from_bytes_big_snoc, length_app. simpl length. rewrite Nat.add_1_r. simpl.
  pose proof (byte_to_Z_range b).
  replace ((from_bytes_big bs * 256 + byte_to_Z b) / 256) with (from_bytes_big bs)
    by (apply Z.div_unique with (byte_to_Z b); lia).
  rewrite IH. f_equal. f_equal.
  rewrite <- byte_of_Z_mod.
  replace ((from_bytes_big bs * 256 + byte_to_Z b) `mod` 256) with (byte_to_Z b)
    by (apply Z.mod_unique with (from_bytes_big bs); lia).
  apply byte_of_to_Z.
Qed.

Lemma length_to_bytes_big n v : length (to_bytes_big n v) = n.
Proof.
  revert v. induction n as [|n IH]; intros v; simpl; [done|].
  rewrite length_app, IH. simpl. lia.
Qed.

Lemma from_to_bytes_big n v :
  0 ≤ v < 256 ^ Z.of_nat n → from_bytes_big (to_bytes_big n v) = v.
Proof.
  revert v. induction n as [|n IH]; intros v Hv; simpl.
  - unfold from_bytes_big; simpl. change (256 ^ Z.of_nat 0) with 1 in Hv. lia.
  - rewrite from_bytes_big_snoc, byte_to_of_Z.
    rewrite Nat2Z.inj_succ, Z.pow_succ_r in Hv by lia.
    rewrite IH.
    + pose proof (Z.div_mod v 256). lia.
    + split; [apply Z.div_pos; lia|]. apply Z.div_lt_upper_bound; lia.
Qed.

(** **** Parsing what was built, building what was parsed *)

Lemma stream_read_app bs rest :
  stream_read (len bs) (bs ++ rest) = Ok (bs, rest).
Proof.
  unfold stream_read, len.
  rewrite bool_decide_eq_false_2 by lia.
  rewrite bool_decide_eq_true_2 by (rewrite length_app; lia).
  by rewrite Nat2Z.id, take_app_length, drop_app_length.
Qed.

Lemma stream_read_Ok n s bs rest :
  stream_read n s = Ok (bs, rest) → s = bs ++ rest ∧ len bs = n.
Proof.
  unfold stream_read. repeat case_bool_decide; [done| |done].
  intros [= <- <-]. split; [by rewrite take_drop|].
  unfold len in *. rewrite length_take. lia.
Qed.

Lemma IntNub_parse_build n v rest :
  0 ≤ v < 256 ^ Z.of_nat n →
  IntNub_parse n (to_bytes_big n v ++ rest) = Ok (v, rest).
Proof.
  intros Hv. unfold IntNub_parse, pbind.
  rewrite <- (length_to_bytes_big n v) at 1.
  fold (len (to_bytes_big n v)). rewrite stream_read_app.
  unfold pret. by rewrite from_to_bytes_big.
Qed.

Lemma IntNub_parse_Ok n s v rest :
  IntNub_parse n s = Ok (v, rest) →
  IntNub_build n v = Ok (to_bytes_big n v) ∧ s = to_bytes_big n v ++ rest.
Proof.
  unfold IntNub_parse, pbind, pret.
  destruct (stream_read _ s) as [[bs rest']|e] eqn:Hread; [|done].
  intros [= <- <-]. apply stream_read_Ok in Hread as [-> Hlen].
  unfold len in Hlen. apply Nat2Z.inj in Hlen. subst n.
  unfold IntNub_build. pose proof (from_bytes_big_range bs).
  rewrite bool_decide_eq_true_2 by done. by rewrite to_from_bytes_big.
Qed.

Lemma IntNub_build_Ok n v b :
  IntNub_build n v = Ok b → b = to_bytes_big n v ∧ 0 ≤ v < 256 ^ Z.of_nat n.
Proof. unfold IntNub_build. case_bool_decide; [|done]. by intros [= <-]. Qed.

Lemma Array_parse_go_Ok {A} (subcon : Parser A) (build : A → Result bytes) count :
  (∀ s v rest, subcon s = Ok (v, rest) →
               ∃ b, build v = Ok b ∧ s = b ++ rest) →
  ∀ s items rest,
    Array_parse_go count subcon s = Ok (items, rest) →
    ∃ built, build_items build items = Ok built ∧ s = built ++ rest ∧
             length items = count.
Proof.
  intros Hsub. induction count as [|count IH]; intros s items rest; simpl.
  - intros [= <- <-]. by exists [].
  - unfold pbind, pret.
    destruct (subcon s) as [[x s1]|e] eqn:Hx; [|done].
    destruct (Array_parse_go count subcon s1) as [[xs s2]|e] eqn:Hxs; [|done].
    intros [= <- <-].
    destruct (Hsub _ _ _ Hx) as (b & Hb & ->).
    destruct (IH _ _ _ Hxs) as (bs & Hbs & -> & <-).
    exists (b ++ bs). simpl. rewrite Hb, Hbs. simpl. by rewrite <- app_assoc.
Qed.

Lemma Array_parse_go_build {A} (subcon : Parser A) (build : A → Result bytes) :
  (∀ v b rest, build v = Ok b → subcon (b ++ rest) = Ok (v, rest)) →
  ∀ items built rest,
    build_items build items = Ok built →
    Array_parse_go (length items) subcon (built ++ rest) = Ok (items, rest).
Proof.
  intros Hsub. induction items as [|x items IH]; intros built rest; simpl.
  - by intros [= <-].
  - destruct (build x) as [b|e] eqn:Hb; simpl; [|done].
    destruct (build_items build items) as [bs|e] eqn:Hbs; simpl; [|done].
    intros [= <-]. unfold pbind, pret.
    rewrite <- app_assoc, (Hsub _ _ _ Hb), (IH _ _ eq_refl). done.
Qed.

Lemma Const_parse_Ok value s x rest :
  Const_parse value Int32ub_parse s = Ok (x, rest) →
  x = value ∧ Int32ub_build value = Ok (to_bytes_big 4 value) ∧
  s = to_bytes_big 4 value ++ rest.
Proof.
  unfold Const_parse, pbind.
  destruct (Int32ub_parse s) as [[v s1]|e] eqn:Hv; [|done].
  case_bool_decide as Heq; [|done]. intros [= <- <-]. subst v.
  by apply IntNub_parse_Ok in Hv as [? ?].
Qed.

Lemma Const_parse_build value rest :
  0 ≤ value < 256 ^ 4 →
  Const_parse value Int32ub_parse (to_bytes_big 4 value ++ rest) = Ok (value, rest).
Proof.
  intros Hv. unfold Const_parse, pbind, Int32ub_parse.
  rewrite IntNub_parse_build by done. by rewrite bool_decide_eq_true_2.
Qed.

Import Mapw.

Lemma AssetIdCorrect_parse_Ok game s v rest :
  AssetIdCorrect_parse game s = Ok (v, rest) →
  ∃ b, AssetIdCorrect_build game v = Ok b ∧ s = b ++ rest.
Proof.
  unfold AssetIdCorrect_parse, AssetIdCorrect_build.
  destruct (uses_asset_id_32 game); intros [? ?]%IntNub_parse_Ok; eauto.
Qed.

Lemma AssetIdCorrect_parse_build game v b rest :
  AssetIdCorrect_build game v = Ok b →
  AssetIdCorrect_parse game (b ++ rest) = Ok (v, rest).
Proof.
  unfold AssetIdCorrect_parse, AssetIdCorrect_build.
  destruct (uses_asset_id_32 game); intros [-> ?]%IntNub_build_Ok;
    by apply IntNub_parse_build.
Qed.

(** What [MAPW] parsed, it builds back to the bytes it took. *)
Lemma MAPW_parse_Ok game s obj rest :
  MAPW_parse game s = Ok (obj, rest) →
  _magic obj = Some 0xDEADF00D ∧ _version obj = Some 1 ∧
  ∃ built, MAPW_build game obj = Ok built ∧ s = built ++ rest.
Proof.
  unfold MAPW_parse, MAPW_build, PrefixedArray_parse, PrefixedArray_build,
    pbind, pret.
  destruct (Const_parse _ _ s) as [[magic s1]|e] eqn:Hmagic; [|done].
  destruct (Const_parse _ _ s1) as [[version s2]|e] eqn:Hversion; [|done].
  destruct (Int32ub_parse s2) as [[count s3]|e] eqn:Hcount; [|done].
  destruct (Array_parse count _ s3) as [[items s4]|e] eqn:Hitems; [|done].
  intros [= <- <-]. cbn [_magic _version area_map].
  apply Const_parse_Ok in Hmagic as (-> & Hbm & ->).
  apply Const_parse_Ok in Hversion as (-> & Hbv & ->).
  pose proof Hcount as [Hbc ->]%IntNub_parse_Ok.
  pose proof Hbc as [_ Hrange]%IntNub_build_Ok.
  unfold Array_parse in Hitems. rewrite bool_decide_eq_false_2 in Hitems by lia.
  apply (Array_parse_go_Ok _ (AssetIdCorrect_build game)) in Hitems
    as (built & Hbuilt & -> & Hlen); [|apply AssetIdCorrect_parse_Ok].
  split; [done|]. split; [done|].
  unfold Const_build. rewrite !bool_decide_eq_true_2 by done.
  rewrite Hbm, Hbv. cbn [rbind].
  replace (len items) with count by (unfold len; lia).
  unfold Int32ub_build. rewrite Hbc. cbn [rbind]. rewrite Hbuilt. cbn [rbind].
  eexists. split; [done|]. by rewrite <- !app_assoc.
Qed.

(** What [MAPW] built from a container with its constants in place, it
    parses back. *)
Lemma MAPW_parse_build game obj built rest :
  _magic obj = Some 0xDEADF00D → _version obj = Some 1 →
  MAPW_build game obj = Ok built →
  MAPW_parse game (built ++ rest) = Ok (obj, rest).
Proof.
  destruct obj as [magic version items]. cbn [_magic _version]. intros -> ->.
  unfold MAPW_parse, MAPW_build, PrefixedArray_parse, PrefixedArray_build,
    pbind, pret, Const_build. cbn [_magic _version area_map].
  rewrite !bool_decide_eq_true_2 by done.
  change (Int32ub_build 3735941133) with (Ok (A:=bytes) (to_bytes_big 4 3735941133)).
  change (Int32ub_build 1) with (Ok (A:=bytes) (to_bytes_big 4 1)).
  cbn [rbind].
  destruct (Int32ub_build (len items)) as [c|e] eqn:Hc; cbn [rbind]; [|done].
  destruct (build_items _ items) as [bs|e] eqn:Hbs; cbn [rbind]; [|done].
  intros Heq.
  assert (built = to_bytes_big 4 3735941133 ++ to_bytes_big 4 1 ++ c ++ bs) as ->
    by congruence.
  clear Heq. apply IntNub_build_Ok in Hc as [-> Hrange].
  rewrite <- !app_assoc.
  rewrite Const_parse_build by (by vm_compute).
  rewrite Const_parse_build by (by vm_compute).
  unfold Int32ub_parse. rewrite IntNub_parse_build by done.
  unfold Array_parse. rewrite bool_decide_eq_false_2 by (unfold len; lia).
  unfold len. rewrite Nat2Z.id.
  by rewrite (Array_parse_go_build _ (AssetIdCorrect_build game)
                (AssetIdCorrect_parse_build game) _ _ _ Hbs).
Qed.

Section MreaBuild.
Import Mrea.
Variable lzo_build : Z → bytes → bytes.
Variable lzo_parse : Z → bytes → Result bytes.
Variable DataSection_parse : Z → Parser bytes.
Variable DataSection_build : Z → bytes → Result bytes.
Context {Decoded : Type}.
Variable category_build : string → Decoded → Result bytes.

Lemma parse_sections_empty raw (obj : Mrea.Container (Decoded:=Decoded)) :
  Mrea.parse lzo_parse DataSection_parse raw = Ok obj → sections obj = [].
Proof.
  unfold Mrea.parse.
  destruct (_parse _ _ raw) as [[o rest]|e] eqn:Hparse; [|done]. intros [= <-].
  unfold _parse, pbind, pret in Hparse.
  destruct (MREAHeader_parse raw) as [[h s1]|e]; [|done].
  destruct (Aligned_parse _ _ s1) as [[sizes s2]|e]; [|done].
  match type of Hparse with
  | match ?c with _ => _ end = _ => destruct c as [[ds s3]|e]; [|done]
  end.
  by injection Hparse as <- _.
Qed.

Lemma build_before_echoes (obj : Mrea.Container (Decoded:=Decoded)) :
  version obj < MREAVersion.Echoes →
  ∃ e, Mrea.build lzo_build DataSection_build category_build obj = Raise e ∧
       (sections obj = [] → e = RuntimeError "Not implemented yet").
Proof.
  intros Hversion. unfold Mrea.build, _build, build_layout.
  destruct (encode_sections category_build (sections obj) (raw_sections obj))
    as [raw'|e] eqn:Hencode; cbn [rbind].
  - destruct (combine_sections _ _ _ _) as [mrea_header data_sections].
    rewrite bool_decide_eq_false_2 by lia. cbn [rbind]. eauto.
  - exists e. split; [done|]. intros Hnil. rewrite Hnil in Hencode. done.
Qed.
End MreaBuild.




End CodecFacts.

(** ** The MREA encoder *)

Module MreaFacts.
Import Construct Mrea.

Lemma len_nonneg {A} (l : list A) : 0 ≤ len l.
Proof. unfold len. lia. Qed.

Lemma len_app {A} (l k : list A) : len (l ++ k) = len l + len k.
Proof. unfold len. rewrite length_app. lia. Qed.

Lemma total_app g1 g2 : total (g1 ++ g2) = total g1 + total g2.
Proof. induction g1 as [|s g1 IH]; simpl; [lia|]. rewrite IH. lia. Qed.

Lemma total_nonneg g : 0 ≤ total g.
Proof. induction g as [|s g IH]; simpl; [lia|]. pose proof (len_nonneg s). lia. Qed.

Lemma total_zero g : total g = 0 → Forall (λ s, len s = 0) g.
Proof.
  induction g as [|s g IH]; simpl; [constructor|].
  pose proof (len_nonneg s). pose proof (total_nonneg g).
  intros Hz. constructor; [lia | apply IH; lia].
Qed.

(** The padding the code computes is the distance to the next multiple
    of 32. *)
Lemma compressed_pad_alt c : Z.land (32 - c `mod` 32) 0x1F = (- c) `mod` 32.
Proof.
  change 0x1F with (Z.ones 5). rewrite Z.land_ones by lia.
  change (2 ^ 5) with 32.
  rewrite Zminus_mod, Z_mod_same_full, Zmod_mod.
  change (- c) with (0 - c). by rewrite (Zminus_mod 0 c).
Qed.

Section Encoder.
Variable lzo_build : Z → bytes → bytes.

Lemma add_group_block st :
  current_group_size st = total (current_group st) →
  add_group lzo_build st =
  {| compressed_blocks := compressed_blocks st ++ [block_of lzo_build (current_group st)];
     current_group := [];
     current_group_size := 0;
     previous_label := previous_label st |}.
Proof.
  intros Hsize. unfold add_group, block_of. simpl. rewrite Hsize.
  by case_bool_decide.
Qed.

(** **** Groups in which a script section closes the block *)

Lemma snoc_decompose {A} (l pre post : list A) (x y : A) :
  l ++ [x] = pre ++ y :: post →
  (post = [] ∧ pre = l ∧ y = x) ∨ (∃ post', post = post' ++ [x] ∧ l = pre ++ y :: post').
Proof.
  destruct post as [|z post _] using rev_ind.
  - intros [-> ->]%app_inj_tail. by left.
  - rewrite app_comm_cons, app_assoc. intros [-> ->]%app_inj_tail.
    right. by exists post.
Qed.

Lemma script_closes_nil : script_closes [].
Proof. intros pre l s post H. by destruct pre. Qed.

Lemma script_closes_single x : script_closes [x].
Proof.
  intros pre l s post H _ _. destruct pre as [|? [|? ?]]; [|done..].
  by injection H as _ <-.
Qed.

Lemma script_closes_snoc_empty cg x :
  Forall (λ y : string * bytes, len y.2 = 0) cg → script_closes (cg ++ [x]).
Proof.
  intros Hzero pre l s post [(-> & -> & _)|(post' & -> & ->)]%snoc_decompose _ Hlen;
    [done|].
  apply Forall_app in Hzero as [_ Hzero]. apply Forall_cons in Hzero as [Hz _].
  simpl in Hz. lia.
Qed.

Lemma script_closes_snoc_plain cg x prev s0 pre0 :
  script_closes cg → cg = pre0 ++ [(prev, s0)] →
  ¬ is_script prev → ¬ is_script x.1 → script_closes (cg ++ [x]).
Proof.
  intros Hcg Hlast Hprev Hx pre l s post
    [(-> & -> & <-)|(post' & -> & Hdec)]%snoc_decompose Hl Hlen; [done|].
  destruct (Hcg _ _ _ _ Hdec Hl Hlen) as [-> _].
  rewrite Hdec in Hlast. apply app_inj_tail in Hlast as [_ [= -> _]]. done.
Qed.

Lemma _start_new_group_cases group_size section_size curr_label prev_label :
  match (_start_new_group group_size section_size curr_label prev_label).1 with
  | true => group_size ≠ 0
  | false => group_size = 0 ∨
             (group_size ≠ 0 ∧ ¬ is_script curr_label ∧ ¬ is_script prev_label)
  end.
Proof.
  unfold _start_new_group, is_script.
  repeat case_bool_decide; simpl; try done; [by left|]. right. intuition congruence.
Qed.

(** **** The loop of the encoder *)

Variable starts : list (string * Z).

Lemma encode_step_inv i section st st' groups cg :
  encode_step lzo_build starts i section st = Ok st' →
  loop_inv lzo_build st groups cg →
  ∃ label groups' cg',
    cat_label_at starts i = Ok label ∧
    loop_inv lzo_build st' groups' cg' ∧
    concat groups' ++ cg' = concat groups ++ cg ++ [(label, section)].
Proof.
  unfold encode_step. intros Hstep (Hblocks & Hcg & Hsize & Hlast & Hgroups & Hclose).
  destruct (cat_label_at starts i) as [label|e]; simpl in Hstep; [|done].
  pose proof (_start_new_group_cases (current_group_size st) (len section)
                (previous_label st) label) as Hcases.
  destruct (_start_new_group _ _ _ _) as [start_new reason]. simpl in Hcases.
  injection Hstep as <-. exists label.
  destruct start_new.
  - (* a new group starts *)
    exists (groups ++ [cg]), [(label, section)].
    rewrite (add_group_block st) by (by rewrite Hsize, Hcg). simpl.
    split; [done|]. split.
    + split_and!; simpl.
      * rewrite Hblocks, Hcg, !fmap_app. done.
      * done.
      * lia.
      * intros _. by exists [], section.
      * apply Forall_app. split; [done|]. by constructor.
      * apply script_closes_single.
    + rewrite concat_app. simpl. by rewrite app_nil_r, <- app_assoc.
  - (* the section joins the current group *)
    exists groups, (cg ++ [(label, section)]).
    split; [done|]. split; [|by rewrite app_assoc].
    split_and!; simpl.
    + done.
    + by rewrite Hcg, fmap_app.
    + rewrite Hsize, fmap_app, total_app. simpl. lia.
    + intros _. by exists cg, section.
    + done.
    + destruct Hcases as [Hzero|(Hnz & Hprev & Hlabel)].
      * apply script_closes_snoc_empty.
        rewrite Hsize in Hzero. apply total_zero in Hzero.
        by apply Forall_fmap in Hzero.
      * destruct cg as [|c cg0]; [by rewrite Hsize in Hnz|].
        destruct Hlast as (pre & s0 & Hlast); [done|].
        by eapply script_closes_snoc_plain.
Qed.

Lemma encode_loop_inv sections : ∀ i st st' groups cg,
  encode_loop lzo_build starts i sections st = Ok st' →
  loop_inv lzo_build st groups cg →
  ∃ labels groups' cg',
    Forall2 (λ j label, cat_label_at starts j = Ok label)
            (seqZ i (len sections)) labels ∧
    loop_inv lzo_build st' groups' cg' ∧
    concat groups' ++ cg' = concat groups ++ cg ++ zip labels sections.
Proof.
  induction sections as [|section sections IH]; intros i st st' groups cg; simpl.
  - intros [= <-] Hinv. exists [], groups, cg.
    split; [constructor|]. split; [done|]. by rewrite app_nil_r.
  - destruct (encode_step lzo_build starts i section st) as [st1|e] eqn:Hstep;
      simpl; [|done].
    intros Hloop Hinv.
    destruct (encode_step_inv _ _ _ _ _ _ Hstep Hinv)
      as (label & groups1 & cg1 & Hlabel & Hinv1 & Hcat1).
    destruct (IH _ _ _ _ _ Hloop Hinv1)
      as (labels & groups2 & cg2 & Hlabels & Hinv2 & Hcat2).
    exists (label :: labels), groups2, cg2. split; [|split; [done|]].
    + unfold len. simpl length. rewrite Nat2Z.inj_succ.
      rewrite seqZ_cons by lia. constructor; [done|].
      by replace (Z.pred (Z.succ (Z.of_nat (length sections))))
        with (len sections) by (unfold len; lia).
    + rewrite Hcat2, app_assoc, Hcat1. simpl. by rewrite <- !app_assoc.
Qed.

(** What [_encode_compressed_blocks] returns, for the start table
    [starts] it works with. *)
Lemma encode_blocks_groups data_sections st :
  encode_loop lzo_build starts 0 data_sections
    {| compressed_blocks := []; current_group := [];
       current_group_size := 0; previous_label := "" |} = Ok st →
  ∃ labels groups,
    Forall2 (λ j label, cat_label_at starts j = Ok label)
            (seqZ 0 (len data_sections)) labels ∧
    concat groups = zip labels data_sections ∧
    compressed_blocks (add_group lzo_build st)
      = block_of lzo_build <$> (fmap snd <$> groups) ∧
    Forall script_closes groups.
Proof.
  intros Hloop.
  destruct (encode_loop_inv _ _ _ _ [] [] Hloop)
    as (labels & groups & cg & Hlabels & Hinv & Hcat).
  { split_and!; first [done | by constructor | apply script_closes_nil]. }
  destruct Hinv as (Hblocks & Hcg & Hsize & _ & Hgroups & Hclose).
  exists labels, (groups ++ [cg]). split_and!.
  - done.
  - rewrite concat_app. simpl. by rewrite app_nil_r.
  - rewrite add_group_block by (by rewrite Hsize, Hcg). simpl.
    by rewrite Hblocks, Hcg, !fmap_app.
  - apply Forall_app. split; [done | by constructor].
Qed.

End Encoder.

Lemma concat_fmap_snd {A B} (groups : list (list (A * B))) :
  concat (fmap (M:=list) snd <$> groups) = (concat groups).*2.
Proof.
  induction groups as [|g groups IH]; [done|].
  cbn [fmap list_fmap concat]. rewrite fmap_app. f_equal. exact IH.
Qed.

(** **** The start table *)

Lemma filter_none {A} (P : A → Prop) `{∀ x, Decision (P x)} (l : list A) :
  Forall (λ x, ¬ P x) l → filter P l = [].
Proof.
  induction 1 as [|x l Hx _ IH]; [done|]. by rewrite filter_cons_False.
Qed.

Lemma starts_from_lower base present :
  Forall (λ kv : string * Z, base ≤ kv.2) (starts_from base present).
Proof.
  revert base. induction present as [|[c secs] present IH]; intros base; simpl;
    [constructor|].
  constructor; [simpl; lia|].
  eapply Forall_impl; [apply IH|]. intros kv; simpl.
  pose proof (len_nonneg secs). lia.
Qed.

Lemma starts_from_sorted base present :
  StronglySorted (λ x y : string * Z, x.2 ≤ y.2) (starts_from base present).
Proof.
  revert base. induction present as [|[c secs] present IH]; intros base; simpl;
    constructor; [apply IH|].
  eapply Forall_impl; [apply starts_from_lower|]. intros kv; simpl.
  pose proof (len_nonneg secs). lia.
Qed.

Lemma starts_from_keys base present : (starts_from base present).*1 = present.*1.
Proof.
  revert base. induction present as [|[c secs] present IH]; intros base; simpl;
    [done|]. by rewrite IH.
Qed.

Lemma sort_by_start_sorted l :
  StronglySorted (λ x y : string * Z, x.2 ≤ y.2) l → sort_by_start l = l.
Proof.
  induction 1 as [|x l Hl IH Hx]; [done|].
  unfold sort_by_start in *. simpl. rewrite IH.
  destruct Hx as [|y l' Hy _]; simpl; [done|]. by rewrite bool_decide_eq_true_2.
Qed.

Lemma dict_set_fresh k v d : k ∉ d.*1 → dict_set k v d = d ++ [(k, v)].
Proof.
  induction d as [|[k' v'] d IH]; simpl; [done|].
  intros [Hne Hnotin]%not_elem_of_cons.
  rewrite bool_decide_eq_false_2 by done. by rewrite IH.
Qed.

Lemma dict_of_acc l : ∀ acc,
  NoDup (acc ++ l).*1 →
  foldl (λ d (kv : string * Z), dict_set kv.1 kv.2 d) acc l = acc ++ l.
Proof.
  induction l as [|[k v] l IH]; intros acc Hnd; simpl.
  - by rewrite app_nil_r.
  - rewrite dict_set_fresh.
    + rewrite IH; [by rewrite <- app_assoc|]. by rewrite <- app_assoc.
    + rewrite fmap_app in Hnd. apply NoDup_app in Hnd as (_ & Hdisj & _).
      intros Hin. apply (Hdisj _ Hin). simpl. left.
Qed.

Lemma dict_of_NoDup l : NoDup l.*1 → dict_of l = l.
Proof. intros Hnd. by apply (dict_of_acc l []). Qed.

Lemma present_in_keys raw categories c :
  c ∈ (present_in raw categories).*1 → c ∈ categories.
Proof.
  unfold present_in. induction categories as [|c' cats IH]; simpl; [done|].
  destruct (raw !! c') as [secs|]; simpl.
  - intros [->|Hin]%elem_of_cons; [left | right; by apply IH].
  - intros Hin. right. by apply IH.
Qed.

Lemma present_in_NoDup raw categories :
  NoDup categories → NoDup (present_in raw categories).*1.
Proof.
  induction 1 as [|c cats Hnotin Hnd IH]; [constructor|].
  unfold present_in in *. simpl. destruct (raw !! c) as [secs|]; simpl; [|done].
  constructor; [|done]. intros Hin. by apply Hnotin, (present_in_keys raw).
Qed.

Lemma encoder_start_table present :
  NoDup present.*1 →
  dict_of (sort_by_start (starts_from 0 present)) = starts_from 0 present.
Proof.
  intros Hnd. rewrite sort_by_start_sorted by apply starts_from_sorted.
  apply dict_of_NoDup. by rewrite starts_from_keys.
Qed.

Lemma length_section_labels present :
  length (section_labels present) = length (concat present.*2).
Proof.
  induction present as [|[c secs] present IH]; [done|].
  unfold section_labels in *. simpl. rewrite !length_app, length_replicate.
  f_equal. exact IH.
Qed.

(** The label the encoder works out for a section is the category the
    section comes from. *)
Lemma cat_label_at_starts_from present : ∀ base k label,
  section_labels present !! k = Some label →
  cat_label_at (starts_from base present) (base + Z.of_nat k) = Ok label.
Proof.
  unfold cat_label_at.
  induction present as [|[c secs] present IH]; intros base k label; [done|].
  unfold section_labels. simpl. fold (section_labels present).
  rewrite filter_cons_True by (simpl; lia).
  destruct (decide (k < length secs)%nat) as [Hlt|Hge].
  - rewrite lookup_app_l by (by rewrite length_replicate).
    intros [-> _]%lookup_replicate.
    assert (filter (λ kv : string * Z, kv.2 ≤ base + Z.of_nat k)
                   (starts_from (base + len secs) present) = []) as ->; [|done].
    apply filter_none.
    eapply Forall_impl; [apply starts_from_lower|]. intros kv; simpl.
    unfold len. lia.
  - rewrite lookup_app_r by (rewrite length_replicate; lia).
    rewrite length_replicate. intros Hlabel.
    specialize (IH (base + len secs) (k - length secs)%nat label Hlabel).
    replace (base + len secs + Z.of_nat (k - length secs)) with (base + Z.of_nat k)
      in IH by (unfold len; lia).
    rewrite last_cons. by destruct (last _).
Qed.

Lemma starts_from_monotone base present :
  StronglySorted Z.le (starts_from base present).*2.
Proof.
  revert base. induction present as [|[c secs] present IH]; intros base; simpl;
    constructor; [apply IH|].
  apply Forall_fmap. eapply Forall_impl; [apply starts_from_lower|].
  intros kv; simpl. pose proof (len_nonneg secs). lia.
Qed.

Lemma combine_sections_spec categories raw : ∀ mrea_header data_sections,
  ∃ entries,
    combine_sections categories raw mrea_header data_sections
      = (mrea_header ++ entries,
         data_sections ++ concat (present_in raw categories).*2) ∧
    entries.*1 = categories ∧
    filter_starts entries = starts_from (len data_sections) (present_in raw categories).
Proof.
  induction categories as [|c cats IH]; intros hdr secs0; simpl.
  - exists []. by rewrite !app_nil_r.
  - unfold present_in. simpl. fold (present_in raw cats).
    destruct (raw !! c) as [secs|] eqn:Hc; simpl.
    + destruct (IH (hdr ++ [(c, Some (len secs0))]) (secs0 ++ secs))
        as (entries & -> & <- & Hstarts).
      exists ((c, Some (len secs0)) :: entries). split_and!.
      * by rewrite <- !app_assoc.
      * done.
      * change (filter_starts ((c, Some (len secs0)) :: entries))
          with ((c, len secs0) :: filter_starts entries).
        by rewrite Hstarts, len_app.
    + destruct (IH (hdr ++ [(c, None)]) secs0) as (entries & -> & <- & Hstarts).
      exists ((c, None) :: entries). split_and!; [by rewrite <- app_assoc|done..].
Qed.

Lemma section_class_script label : section_class label ≠ 0 → is_script label.
Proof.
  unfold section_class, is_script. repeat case_bool_decide; auto. done.
Qed.

Lemma script_closes_one_class g :
  script_closes g →
  ∀ x y, x ∈ g → y ∈ g → 0 < len x.2 → 0 < len y.2 →
         section_class x.1 = section_class y.1.
Proof.
  intros Hclose.
  assert (∀ x y, x ∈ g → y ∈ g → 0 < len x.2 → 0 < len y.2 →
                 is_script x.1 → x = y) as Hsame.
  { intros [l s] y [pre [post ->]]%list_elem_of_split Hy Hx Hylen Hscript.
    destruct (Hclose pre l s post eq_refl Hscript Hx) as [-> Hpre].
    apply elem_of_app in Hy as [Hy|Hy%list_elem_of_singleton]; [|done].
    rewrite Forall_forall in Hpre. specialize (Hpre _ Hy). lia. }
  intros x y Hx Hy Hxlen Hylen.
  destruct (decide (section_class x.1 = 0)) as [Hx0|Hx0].
  - destruct (decide (section_class y.1 = 0)) as [Hy0|Hy0]; [congruence|].
    by rewrite (Hsame y x Hy Hx Hylen Hxlen (section_class_script _ Hy0)).
  - by rewrite (Hsame x y Hx Hy Hxlen Hylen (section_class_script _ Hx0)).
Qed.

Lemma _all_categories_NoDup : NoDup _all_categories.
Proof. apply (bool_decide_unpack _). by vm_compute. Qed.

Section Build.
Variable lzo_build : Z → bytes → bytes.
Context {Decoded : Type}.
Variable category_build : string → Decoded → Result bytes.

(** C5.  Every block the encoder emits is the block of a group of
    consecutive sections, and stands in one of two ways: either
    [compressed_size] is 0 and the payload is the padded sections as
    they are, with [buffer_size] the uncompressed size; or
    [compressed_size], the padding to the next multiple of 32 added, is
    strictly less than [uncompressed_size], the payload is the
    compressed data, and [buffer_size] is the uncompressed payload size
    plus [0x120]. *)
Theorem C5_compressed_block_invariant data_sections category_starts blocks :
  _encode_compressed_blocks lzo_build data_sections category_starts = Ok blocks →
  ∃ groups : list (list bytes),
    concat groups = data_sections ∧
    Forall2 (λ (b : Block) (g : list bytes),
               uncompressed_size (header b) = total g ∧
               data_section_count (header b) = len g ∧
               ((compressed_size (header b) = 0 ∧
                 data b = concat (ljust32 <$> g) ∧
                 buffer_size (header b) = total g)
                ∨
                (compressed_size (header b) = len (data b) ∧
                 data b = lzo_build (total g) (concat (ljust32 <$> g)) ∧
                 compressed_size (header b)
                   + (- compressed_size (header b)) `mod` 32
                   < uncompressed_size (header b) ∧
                 buffer_size (header b) = total g + 0x120)))
            blocks groups.
Proof.
  unfold _encode_compressed_blocks. intros Hrun.
  destruct (encode_loop _ _ _ _ _) as [st|e] eqn:Hloop; cbn [rbind] in Hrun; [|done].
  assert (blocks = compressed_blocks (add_group lzo_build st)) as ->
    by congruence.
  destruct (encode_blocks_groups _ _ _ _ Hloop)
    as (labels & groups & Hlabels & Hconcat & -> & _).
  exists (fmap (M:=list) snd <$> groups). split.
  - rewrite <- (snd_zip labels data_sections).
    + rewrite <- Hconcat. apply concat_fmap_snd.
    + apply Forall2_length in Hlabels. rewrite length_seqZ in Hlabels.
      unfold len in Hlabels. lia.
  - apply Forall2_fmap_l, Forall_Forall2_diag, Forall_forall.
    intros g _. unfold compose, block_of. cbn zeta.
    case_bool_decide as Hc; [rewrite compressed_pad_alt in Hc|]; simpl;
      split_and!; try done; [right | left]; done.
Qed.


End Build.

Lemma C5_compressed_block_invariant_witness :
  ∃ blocks groups,
    _encode_compressed_blocks Demo.lzo_one_byte
      [replicate 64 Byte.x00; replicate 32 Byte.x01]
      [("geometry_section", Some 0)] = Ok blocks ∧
    concat groups = [replicate 64 Byte.x00; replicate 32 Byte.x01] ∧
    length blocks = length groups.
Proof.
  eassert (_encode_compressed_blocks Demo.lzo_one_byte
             [replicate 64 Byte.x00; replicate 32 Byte.x01]
             [("geometry_section", Some 0)] = Ok _) as Hrun
    by (vm_compute; reflexivity).
  destruct (C5_compressed_block_invariant _ _ _ _ Hrun) as (groups & Hconcat & Hall).
  eexists _, groups. split_and!; [exact Hrun | exact Hconcat |].
  exact (Forall2_length _ _ _ Hall).
Defined.



End MreaFacts.

(** ** The asset manager *)

Module ManagerFacts.
Import GameCheck Manager.

Section Facts.
Context {X : Collaborators}.
Implicit Types m : AssetManager (X:=X).
Local Abbreviation reads := (@Manager.reads X _).
Local Abbreviation keeps := (@Manager.keeps X _).

Lemma surjective_pairing_Ok {S A} (x : S * Result A) (a : A) :
  x.2 = Ok a → x = (x.1, Ok a).
Proof. destruct x as [s r]; simpl. by intros ->. Qed.

(** *** Reading leaves the bookkeeping alone *)

Lemma same_bookkeeping_refl m : same_bookkeeping m m.
Proof. repeat split. Qed.

Lemma same_bookkeeping_trans m1 m2 m3 :
  same_bookkeeping m1 m2 → same_bookkeeping m2 m3 → same_bookkeeping m1 m3.
Proof.
  unfold same_bookkeeping. intros H12 H23.
  destruct_and!. repeat split; congruence.
Qed.

Lemma reads_mret {A} (a : A) : reads (mret a).
Proof. intros m. apply same_bookkeeping_refl. Qed.

Lemma reads_mraise {A} e : reads (mraise (A:=A) e).
Proof. intros m. apply same_bookkeeping_refl. Qed.

Lemma reads_mlift {A} (r : Result A) : reads (mlift r).
Proof. intros m. apply same_bookkeeping_refl. Qed.

Lemma reads_mbind {A B} (c : M (X:=X) A) (f : A → M (X:=X) B) :
  reads c → (∀ a, reads (f a)) → reads (mbind c f).
Proof.
  intros Hc Hf m. unfold mbind. specialize (Hc m).
  destruct (c m) as [m' [a|e]]; simpl in *; [|done].
  eapply same_bookkeeping_trans; [exact Hc | apply Hf].
Qed.

Lemma reads_get_pak w pak_name : reads (get_pak w pak_name).
Proof.
  intros m. unfold get_pak.
  repeat case_match; simpl; try apply same_bookkeeping_refl.
  repeat split.
Qed.

Lemma reads_search_paks w asset_id pak_names :
  reads (search_paks w asset_id pak_names).
Proof.
  induction pak_names as [|p ps IH]; simpl; [apply reads_mret|].
  apply reads_mbind; [apply reads_get_pak|].
  intros pak. case_match; [apply reads_mret | exact IH].
Qed.

Lemma reads_get_raw_asset w asset_id : reads (get_raw_asset w asset_id).
Proof.
  intros m. unfold get_raw_asset.
  destruct (_modified_resources m !! _) as [[r|]|]; simpl;
    try apply same_bookkeeping_refl.
  destruct (_paks_for_asset_id m !! _) as [paks|]; simpl;
    [|apply same_bookkeeping_refl].
  pose proof (reads_search_paks w (_resolve_asset_id m asset_id) (elements paks) m) as H.
  destruct (search_paks _ _ _ m) as [m' [r|[]]]; exact H.
Qed.

Lemma reads_run_items rec items :
  (∀ a b, reads (rec a b)) → reads (run_items rec items).
Proof.
  intros Hrec. induction items as [|[d|child me] rest IH]; simpl.
  - apply reads_mret.
  - apply reads_mbind; [exact IH|]. intros. apply reads_mret.
  - apply reads_mbind; [apply Hrec|]. intros.
    apply reads_mbind; [exact IH|]. intros. apply reads_mret.
Qed.

Lemma reads_compute_dependencies rec w asset_id asset_type :
  (∀ a b, reads (rec a b)) →
  reads (compute_dependencies rec w asset_id asset_type).
Proof.
  intros Hrec m. unfold compute_dependencies.
  repeat case_match; try apply same_bookkeeping_refl.
  - apply (reads_mbind (get_raw_asset w (Id asset_id))); [apply reads_get_raw_asset|].
    intros raw. apply reads_mbind; [apply reads_mlift|].
    intros. by apply reads_run_items.
  - apply (reads_mbind (get_raw_asset w (Id asset_id))); [apply reads_get_raw_asset|].
    intros raw. apply reads_mbind; [apply reads_mlift|].
    intros. by apply reads_run_items.
Qed.

Lemma reads__get_dependencies_for_asset rec w asset_id must_exist :
  (∀ a b, reads (rec a b)) →
  reads (_get_dependencies_for_asset rec w asset_id must_exist).
Proof.
  intros Hrec m. unfold _get_dependencies_for_asset.
  destruct (negb (is_valid_asset_id _ _)); [apply same_bookkeeping_refl|].
  destruct (negb (does_asset_exists _ _));
    [destruct must_exist; apply same_bookkeeping_refl|].
  destruct (get_asset_type _ _) as [asset_type|e]; [|apply same_bookkeeping_refl].
  destruct (_cached_dependencies m !! asset_id); [apply same_bookkeeping_refl|].
  pose proof (reads_compute_dependencies rec w asset_id asset_type Hrec m) as Hc.
  destruct (compute_dependencies _ _ _ _ m) as [m' [deps|e]]; simpl in *; [|exact Hc].
  eapply same_bookkeeping_trans; [exact Hc|]. repeat split.
Qed.

Lemma reads_get_dependencies_for_asset_body rec w asset_id must_exist :
  (∀ a b, reads (rec a b)) →
  reads (get_dependencies_for_asset_body rec w asset_id must_exist).
Proof.
  intros Hrec m. unfold get_dependencies_for_asset_body.
  pose proof (reads__get_dependencies_for_asset rec w asset_id must_exist Hrec m) as H.
  destruct (_get_dependencies_for_asset _ _ _ _ m) as [m' [deps|e]]; exact H.
Qed.

Lemma reads_get_dependencies_for_asset depth w asset_id must_exist :
  reads (get_dependencies_for_asset depth w asset_id must_exist).
Proof.
  revert asset_id must_exist.
  induction depth as [|depth IH]; intros asset_id must_exist; simpl;
    apply reads_get_dependencies_for_asset_body; [|exact IH].
  intros. apply reads_mraise.
Qed.

(** *** The dependency engine *)

Lemma get_dependencies_for_asset_unfold depth w asset_id must_exist m :
  get_dependencies_for_asset depth w asset_id must_exist m =
  get_dependencies_for_asset_body (nested_call depth w) w asset_id must_exist m.
Proof. destruct depth; reflexivity. Qed.

Lemma get_dependencies_for_asset_Ok depth w a must_exist m m' deps :
  get_dependencies_for_asset depth w a must_exist m = (m', Ok deps) →
  ∃ produced,
    _get_dependencies_for_asset (nested_call depth w) w a must_exist m
      = (m', Ok produced) ∧
    deps = with_override (target_game m) a <$> produced.
Proof.
  rewrite get_dependencies_for_asset_unfold.
  unfold get_dependencies_for_asset_body.
  destruct (_get_dependencies_for_asset _ _ _ _ m) as [m1 [produced|e]];
    intros [= <- <-]; eauto.
Qed.

Lemma _get_dependencies_for_asset_existing rec w a must_exist m t :
  is_valid_asset_id (target_game m) a = true →
  does_asset_exists m (Id a) = true →
  get_asset_type m (Id a) = Ok t →
  _get_dependencies_for_asset rec w a must_exist m =
  match _cached_dependencies m !! a with
  | Some deps => (m, Ok (deps ++ [mkDependency t a false]))
  | None =>
      match compute_dependencies rec w a t m with
      | (m', Raise e) => (m', Raise e)
      | (m', Ok deps) =>
          (set_cached_dependencies (<[a := deps]> (_cached_dependencies m')) m',
           Ok (deps ++ [mkDependency t a false]))
      end
  end.
Proof.
  intros Hvalid Hexists Htype. unfold _get_dependencies_for_asset.
  by rewrite Hvalid, Hexists, Htype.
Qed.

(** C4 (amended).  The override of [get_dependencies_for_asset(a)] goes
    by the asset [a] that was asked for, not by the id of the dependency
    yielded: every yielded dependency is the one
    [_get_dependencies_for_asset] produced, with [exclude_for_mlvl]
    or-ed with "[a] is in [mlvl_dependencies_to_ignore]".  So when [a] is
    in the set every yielded dependency is excluded, and when it is not,
    every dependency keeps the flag its producer supplied. *)
Theorem C4_override_by_queried_asset depth w a must_exist m deps :
  (get_dependencies_for_asset depth w a must_exist m).2 = Ok deps →
  ∃ produced,
    (_get_dependencies_for_asset (nested_call depth w) w a must_exist m).2
      = Ok produced ∧
    deps = with_override (target_game m) a <$> produced ∧
    (a ∈ mlvl_dependencies_to_ignore (target_game m) →
       ∀ d, d ∈ deps → exclude_for_mlvl d = true) ∧
    (a ∉ mlvl_dependencies_to_ignore (target_game m) → deps = produced).
Proof.
  intros Hrun.
  destruct (get_dependencies_for_asset depth w a must_exist m) as [m' r] eqn:E.
  simpl in Hrun; subst r.
  destruct (get_dependencies_for_asset_Ok _ _ _ _ _ _ _ E)
    as (produced & Hinner & ->).
  exists produced. rewrite Hinner. split_and!; [done..| |].
  - intros Hin d [p [-> _]]%list_elem_of_fmap. unfold with_override; simpl.
    rewrite bool_decide_eq_true_2 by done. apply orb_true_r.
  - intros Hnotin. rewrite <- (list_fmap_id produced) at 2.
    apply list_fmap_ext. intros _ [t i e] _. unfold with_override; simpl.
    rewrite bool_decide_eq_false_2 by done. by rewrite orb_false_r.
Qed.

(** C1 (amended).  For an asset id that is valid for the game, exists
    and has a type, [get_dependencies_for_asset] either raises -- only
    on a cache miss, with the exception the computation of the
    children raised -- or yields a non-empty sequence whose last
    element is the asset itself, [(get_asset_type(id), id)], with
    [exclude_for_mlvl] true exactly when the id is one of the game's
    [mlvl_dependencies_to_ignore]. *)
Theorem C1_asset_itself_last depth w a must_exist m t :
  is_valid_asset_id (target_game m) a = true →
  does_asset_exists m (Id a) = true →
  get_asset_type m (Id a) = Ok t →
  match get_dependencies_for_asset depth w a must_exist m with
  | (_, Ok deps) =>
      deps ≠ [] ∧
      last deps =
        Some (mkDependency t a
                (bool_decide (a ∈ mlvl_dependencies_to_ignore (target_game m))))
  | (m', Raise e) =>
      _cached_dependencies m !! a = None ∧
      compute_dependencies (nested_call depth w) w a t m = (m', Raise e)
  end.
Proof.
  intros Hvalid Hexists Htype.
  rewrite get_dependencies_for_asset_unfold.
  unfold get_dependencies_for_asset_body.
  rewrite (_get_dependencies_for_asset_existing _ _ _ _ _ t) by done.
  destruct (_cached_dependencies m !! a) as [cached|].
  - rewrite fmap_app; simpl. split; [by destruct (_ <$> cached)|].
    by rewrite last_snoc.
  - destruct (compute_dependencies _ _ _ _ m) as [m1 [deps|e]]; [|done].
    rewrite fmap_app; simpl. split; [by destruct (_ <$> deps)|].
    by rewrite last_snoc.
Qed.

(** *** Fresh ids *)

Lemma does_asset_exists_known m r :
  does_asset_exists m (Id r) = true →
  pretty r ∈ dom (_custom_asset_ids m) ∨
  r ∈ dom (_modified_resources m) ∨ r ∈ dom (_paks_for_asset_id m).
Proof.
  unfold does_asset_exists, _resolve_asset_id; simpl.
  destruct (_custom_asset_ids m !! pretty r) as [alias|] eqn:Ealias.
  { intros _. left. apply elem_of_dom. eauto. }
  simpl. destruct (_modified_resources m !! r) as [[raw|]|] eqn:Emod.
  - intros _. right; left. apply elem_of_dom. eauto.
  - discriminate.
  - intros H%bool_decide_eq_true. by right; right.
Qed.

Lemma slot_inj m : Inj (=) (=) (slot m).
Proof.
  intros r1 r2. unfold slot. repeat case_bool_decide; intros [=]; [|done].
  by apply (inj pretty).
Qed.

Lemma length_slots m : S (length (slots m)) = enough_fuel m.
Proof.
  unfold slots, enough_fuel. rewrite !length_app, !length_fmap.
  rewrite <- !(size_dom (D:=gset _)). unfold size, set_size; simpl.
  by rewrite Nat.add_assoc.
Qed.

Lemma does_asset_exists_slot m r :
  does_asset_exists m (Id r) = true → slot m r ∈ slots m.
Proof.
  intros H. unfold slot, slots. case_bool_decide as Hc.
  - apply elem_of_app. left. apply list_elem_of_fmap.
    exists (pretty r). split; [done|]. by apply elem_of_elements.
  - destruct (does_asset_exists_known _ _ H) as [?|[Hm|Hp]]; [done| |].
    + apply elem_of_app. right. apply elem_of_app. left.
      apply list_elem_of_fmap. exists r. split; [done|]. by apply elem_of_elements.
    + apply elem_of_app. right. apply elem_of_app. right.
      apply list_elem_of_fmap. exists r. split; [done|]. by apply elem_of_elements.
Qed.

Lemma generate_scan_None fuel m r :
  generate_scan fuel m r = None →
  ∀ x, x ∈ seqZ r (Z.of_nat fuel) → does_asset_exists m (Id x) = true.
Proof.
  revert r. induction fuel as [|fuel IH]; intros r Hscan x Hx.
  { by apply elem_of_nil in Hx. }
  simpl in Hscan.
  destruct (does_asset_exists m (Id r)) eqn:Hr; [|done].
  apply list_elem_of_lookup in Hx as [i Hi].
  apply lookup_seqZ in Hi as [-> Hi].
  destruct i as [|i]; [by rewrite Z.add_0_r|].
  apply (IH (r + 1) Hscan). apply list_elem_of_lookup. exists i.
  apply lookup_seqZ. lia.
Qed.

Lemma generate_scan_enough m r : is_Some (generate_scan (enough_fuel m) m r).
Proof.
  destruct (generate_scan (enough_fuel m) m r) as [x|] eqn:Hscan; [eauto|].
  exfalso. pose proof (generate_scan_None _ _ _ Hscan) as Hall.
  assert (length (slot m <$> seqZ r (Z.of_nat (enough_fuel m)))
            ≤ length (slots m))%nat as Hle.
  { apply submseteq_length, NoDup_submseteq.
    - apply (NoDup_fmap_2 (slot m) (Inj0:=slot_inj m)), NoDup_seqZ.
    - intros y [x [-> Hx]]%list_elem_of_fmap.
      apply does_asset_exists_slot, Hall, Hx. }
  rewrite length_fmap, length_seqZ, Nat2Z.id, <- length_slots in Hle. lia.
Qed.

Lemma generate_scan_Some fuel m r x :
  generate_scan fuel m r = Some x →
  r ≤ x ∧ does_asset_exists m (Id x) = false.
Proof.
  revert r. induction fuel as [|fuel IH]; intros r; simpl; [done|].
  destruct (does_asset_exists m (Id r)) eqn:Hr.
  - intros [? ?]%IH. split; [lia | done].
  - intros [= <-]. split; [lia | done].
Qed.

Lemma generate_scan_more fuel fuel' m r x :
  generate_scan fuel m r = Some x → (fuel ≤ fuel')%nat →
  generate_scan fuel' m r = Some x.
Proof.
  revert fuel' r. induction fuel as [|fuel IH]; intros fuel' r; simpl; [done|].
  intros Hscan Hle. destruct fuel' as [|fuel']; [lia|]. simpl.
  destruct (does_asset_exists m (Id r)); [|done].
  apply IH; [done | lia].
Qed.

(** *** What a session keeps *)

Lemma session_rel_refl m : session_rel m m.
Proof. split; [lia | done]. Qed.

Lemma session_rel_trans m1 m2 m3 :
  session_rel m1 m2 → session_rel m2 m3 → session_rel m1 m3.
Proof. intros [? ?] [? ?]. split; [lia | auto]. Qed.

Lemma same_bookkeeping_session_rel m m' :
  same_bookkeeping m m' → session_rel m m'.
Proof.
  unfold same_bookkeeping, session_rel, ensured_disjoint. intros H.
  destruct_and!. split; [lia|].
  intros Hd p a. repeat match goal with H : _ = _ |- _ => rewrite H end.
  apply Hd.
Qed.

Lemma reads_keeps {A} (c : M (X:=X) A) : reads c → keeps c.
Proof. intros H m. apply same_bookkeeping_session_rel, H. Qed.

Lemma keeps_mret {A} (a : A) : keeps (mret a).
Proof. intros m. apply session_rel_refl. Qed.

Lemma keeps_mraise {A} e : keeps (mraise (A:=A) e).
Proof. intros m. apply session_rel_refl. Qed.

Lemma keeps_mbind {A B} (c : M (X:=X) A) (f : A → M (X:=X) B) :
  keeps c → (∀ a, keeps (f a)) → keeps (mbind c f).
Proof.
  intros Hc Hf m. unfold mbind. specialize (Hc m).
  destruct (c m) as [m' [a|e]]; simpl in *; [|done].
  eapply session_rel_trans; [exact Hc | apply Hf].
Qed.

Lemma keeps_mfor {A} (f : A → M (X:=X) unit) l :
  (∀ a, keeps (f a)) → keeps (mfor f l).
Proof.
  intros Hf. induction l as [|x l IH]; simpl; [apply keeps_mret|].
  apply keeps_mbind; [apply Hf | intros _; exact IH].
Qed.

Lemma reads_mfor {A} (f : A → M (X:=X) unit) l :
  (∀ a, reads (f a)) → reads (mfor f l).
Proof.
  intros Hf. induction l as [|x l IH]; simpl; [apply reads_mret|].
  apply reads_mbind; [apply Hf | intros _; exact IH].
Qed.

Lemma keeps_register_custom_asset_name name asset_id :
  keeps (register_custom_asset_name name asset_id).
Proof.
  intros m. unfold register_custom_asset_name.
  repeat case_match; simpl; try apply session_rel_refl;
    (split; [simpl; lia | done]).
Qed.

Lemma keeps_replace_asset asset_id new_data :
  keeps (replace_asset asset_id new_data).
Proof.
  intros m. unfold replace_asset.
  repeat case_match; simpl; try apply session_rel_refl;
    (split; [simpl; lia | done]).
Qed.

Lemma keeps_delete_asset asset_id : keeps (delete_asset asset_id).
Proof.
  intros m. unfold delete_asset.
  case_match; simpl; [apply session_rel_refl|].
  split; [simpl; lia|]. unfold ensured_disjoint; simpl.
  intros Hd p a. rewrite lookup_fmap.
  destruct (_ensured_asset_ids m !! p) as [s|] eqn:Es; simpl; [|set_solver].
  intros Ha. apply Hd. rewrite Es; simpl. set_solver.
Qed.

Lemma ensure_present_unfold depth w pak_name asset_id m :
  ensure_present depth w pak_name asset_id m =
  ensure_present_body
    (match depth with
     | O => λ _, mraise RecursionError
     | S depth' => ensure_present depth' w pak_name
     end) depth w pak_name asset_id m.
Proof. destruct depth; reflexivity. Qed.

Lemma keeps_ensure_present_body next depth w pak_name asset_id :
  (∀ x, keeps (next x)) →
  keeps (ensure_present_body next depth w pak_name asset_id).
Proof.
  intros Hnext m. unfold ensure_present_body.
  case_bool_decide; [apply session_rel_refl|]; simpl.
  destruct (negb _); [apply session_rel_refl|].
  destruct (_paks_for_asset_id m !! _) as [paks|] eqn:Epaks;
    [|apply session_rel_refl].
  eapply session_rel_trans; [|apply keeps_mbind].
  - case_bool_decide as Hp; [|apply session_rel_refl].
    split; [simpl; lia|]. unfold ensured_disjoint; simpl.
    intros Hd p a. rewrite lookup_insert. case_decide as Heq; simpl;
      [subst p|apply Hd].
    intros [Ha| ->%elem_of_singleton]%elem_of_union;
      [by apply Hd | by rewrite Epaks].
  - apply reads_keeps, reads_get_dependencies_for_asset.
  - intros deps. apply keeps_mfor. intros dep.
    case_bool_decide; [apply keeps_mret | apply Hnext].
Qed.

Lemma keeps_ensure_present depth w pak_name asset_id :
  keeps (ensure_present depth w pak_name asset_id).
Proof.
  revert asset_id. induction depth as [|depth IH]; intros asset_id m;
    rewrite ensure_present_unfold; apply keeps_ensure_present_body.
  - intros _. apply keeps_mraise.
  - exact IH.
Qed.

Lemma keeps_add_new_asset depth w name new_data in_paks :
  keeps (add_new_asset depth w name new_data in_paks).
Proof.
  intros m. unfold add_new_asset.
  case_match; [apply session_rel_refl|].
  eapply session_rel_trans;
    [|apply keeps_mbind; [apply keeps_replace_asset|];
      intros _; apply keeps_mfor; intros; apply keeps_ensure_present].
  split; [simpl; lia|]. unfold ensured_disjoint; simpl.
  intros Hd p a Ha. rewrite lookup_insert. case_decide; simpl; [set_solver|].
  by apply Hd.
Qed.

Lemma scan_entries_frame name resources m :
  _next_generated_id (foldl (scan_entry name) m resources) = _next_generated_id m ∧
  _ensured_asset_ids (foldl (scan_entry name) m resources) = _ensured_asset_ids m.
Proof.
  revert m. induction resources as [|entry resources IH]; intros m; [done|].
  cbn [foldl]. destruct (IH (scan_entry name m entry)) as [-> ->]. done.
Qed.

Lemma scan_paks_fresh w names m0 m :
  fresh_headers m0 m → fresh_headers m0 (scan_paks w names m).1.
Proof.
  revert m. induction names as [|name names IH]; intros m Hm; simpl; [done|].
  destruct (rbind _ _) as [resources|e]; [|done].
  apply IH. destruct Hm as [Hnext Hens].
  destruct (scan_entries_frame name resources
              (set_ensured_asset_ids (<[name := ∅]> (_ensured_asset_ids m)) m))
    as [Hn He]. simpl in Hn, He.
  split; [by rewrite Hn|].
  intros p. rewrite He, lookup_insert. case_decide; [done | apply Hens].
Qed.

Lemma _update_headers_fresh w m : fresh_headers m (_update_headers w m).1.
Proof.
  unfold _update_headers.
  assert (∀ m', _next_generated_id m' = _next_generated_id m →
                _ensured_asset_ids m' = ∅ → fresh_headers m m') as Hfresh.
  { intros m' Hn He. split; [done|]. intros p. by rewrite He, lookup_empty. }
  repeat case_match; simpl; try (by apply Hfresh);
    by apply scan_paks_fresh, Hfresh.
Qed.

Lemma fresh_headers_disjoint m0 m : fresh_headers m0 m → ensured_disjoint m.
Proof. intros [_ He] p a. rewrite He. set_solver. Qed.

Lemma reads_collect_assets_to_copy w asset_ids acc :
  reads (collect_assets_to_copy w asset_ids acc).
Proof.
  revert acc. induction asset_ids as [|a l IH]; intros acc; simpl;
    [apply reads_mret|].
  case_match; [apply IH|].
  apply reads_mbind; [apply reads_get_raw_asset | intros; apply IH].
Qed.

Lemma update_paks_same output_path to_copy pak_names m w :
  same_bookkeeping m (update_paks output_path to_copy pak_names m w).1.1.
Proof.
  revert m w. induction pak_names as [|p l IH]; intros m w; simpl;
    [apply same_bookkeeping_refl|].
  assert (same_bookkeeping m (update_pak output_path to_copy p m w).1.1) as Hp.
  { unfold update_pak. repeat case_match; simpl;
      try apply same_bookkeeping_refl; repeat split. }
  destruct (update_pak output_path to_copy p m w) as [[m1 w1] [[]|e]];
    simpl in *; [|done].
  eapply same_bookkeeping_trans; [exact Hp | apply IH].
Qed.

Lemma save_modifications_session_rel w output_path m :
  session_rel m (save_modifications w output_path m).1.1.
Proof.
  unfold save_modifications.
  destruct (collect_modified_paks _ _ _) as [modified_paks|e];
    [|apply session_rel_refl].
  pose proof (reads_mfor (λ pak_name, mbind (get_pak w pak_name) (λ _, mret tt))
                (elements modified_paks)
                (λ a, reads_mbind _ _ (reads_get_pak w a) (λ _, reads_mret tt)) m)
    as H1.
  destruct (mfor _ _ m) as [m1 [[]|e]]; simpl in *;
    [|by apply same_bookkeeping_session_rel].
  pose proof (reads_collect_assets_to_copy w
                (concat (elements <$> (map_to_list (_ensured_asset_ids m1)).*2))
                ∅ m1) as H2.
  destruct (collect_assets_to_copy _ _ _ m1) as [m2 [to_copy|e]]; simpl in *;
    [|by eapply same_bookkeeping_session_rel, same_bookkeeping_trans].
  pose proof (update_paks_same output_path to_copy (elements modified_paks) m2 w)
    as H3.
  destruct (update_paks _ _ _ m2 w) as [[m3 w3] [[]|e]]; simpl in *;
    [|by eapply same_bookkeeping_session_rel, same_bookkeeping_trans;
         [eapply same_bookkeeping_trans|]].
  pose proof (_update_headers_fresh (_write_custom_names output_path m3 w3)
                (set_modified_resources ∅ m3)) as H4.
  destruct (_update_headers _ _) as [m4 r]; simpl in *.
  assert (same_bookkeeping m m3) as H03
    by (eapply same_bookkeeping_trans; [eapply same_bookkeeping_trans|]; done).
  split.
  - destruct H4 as [-> _]. simpl. destruct H03 as (_&_&_&->&_). lia.
  - intros _. eapply fresh_headers_disjoint, H4.
Qed.

Lemma step_session_rel m m' : step m m' → session_rel m m'.
Proof.
  destruct 1 as [m m' H|fuel m m' r H| | | | | |].
  - by apply same_bookkeeping_session_rel.
  - unfold generate_asset_id in H.
    destruct (generate_scan fuel m _) as [x|] eqn:Hscan; [|done].
    injection H as <- <-. apply generate_scan_Some in Hscan as [? _].
    split; [simpl; lia | done].
  - apply keeps_register_custom_asset_name.
  - apply keeps_add_new_asset.
  - apply keeps_replace_asset.
  - apply keeps_delete_asset.
  - apply keeps_ensure_present.
  - apply save_modifications_session_rel.
Qed.

Lemma rtc_step_session_rel m m' : rtc step m m' → session_rel m m'.
Proof.
  induction 1 as [|m1 m2 m3 H12 _ IH]; [apply session_rel_refl|].
  eapply session_rel_trans; [by apply step_session_rel | done].
Qed.

Lemma init_disjoint w provider target_game :
  ensured_disjoint (init (X:=X) w provider target_game).1.
Proof. eapply fresh_headers_disjoint, _update_headers_fresh. Qed.

(** C8.  In every state a session reaches, no PAK ensures an asset it
    already holds: [a ∈ ensured_asset_ids[p]] excludes
    [p ∈ paks_for_asset_id[a]]. *)
Theorem C8_ensured_disjoint m :
  reachable m →
  ∀ p a, a ∈ default ∅ (_ensured_asset_ids m !! p) →
         p ∉ default ∅ (_paks_for_asset_id m !! a).
Proof.
  induction 1 as [w provider target_game m Hinit|m m' _ IH Hstep].
  - pose proof (init_disjoint w provider target_game) as H.
    by rewrite Hinit in H.
  - by apply (step_session_rel _ _ Hstep).
Qed.

(** C3 (amended).  [generate_asset_id] returns: with the number of
    tests [enough_fuel] allows, and any larger one, the loop ends with
    the same id.  The id is not below the counter, does not exist
    ([does_asset_exists] is false for it when the call is made; a
    tombstoned id does not exist and may be returned), and every id a
    later call of the session generates is strictly greater. *)
Theorem C3_generate_asset_id_fresh m :
  ∃ r1,
    (∀ fuel, (enough_fuel m ≤ fuel)%nat →
       generate_asset_id fuel m = Some (set_next_generated_id (r1 + 1) m, r1)) ∧
    _next_generated_id m ≤ r1 ∧
    does_asset_exists m (Id r1) = false ∧
    ∀ m2, rtc step (set_next_generated_id (r1 + 1) m) m2 →
      ∀ fuel m3 r2, generate_asset_id fuel m2 = Some (m3, r2) → r1 < r2.
Proof.
  destruct (generate_scan_enough m (_next_generated_id m)) as [r1 Hscan].
  exists r1. destruct (generate_scan_Some _ _ _ _ Hscan) as [Hle Hfresh].
  split_and!; [|done..|].
  - intros fuel Hfuel. unfold generate_asset_id.
    by rewrite (generate_scan_more _ fuel _ _ _ Hscan Hfuel).
  - intros m2 [Hnext _]%rtc_step_session_rel fuel m3 r2 Hgen.
    unfold generate_asset_id in Hgen.
    destruct (generate_scan fuel m2 _) as [x|] eqn:Hscan2; [|done].
    injection Hgen as _ <-. apply generate_scan_Some in Hscan2 as [? _].
    simpl in Hnext. lia.
Qed.

(** *** Deleting *)

(** C10.  [delete_asset] on an argument that resolves to an existing
    id [a] returns; it writes the tombstone at [a] in the modification
    map and takes [a] out of every ensured set, and changes nothing else:
    [paks_for_asset_id], [types_for_asset_id], [custom_asset_ids],
    [in_memory_paks], the dependency caches and the rest are as before,
    so [all_asset_ids()] and [find_paks] answer as before. *)
Theorem C10_delete_asset_frame m (x : NameOrAssetId) :
  does_asset_exists m (Id (_resolve_asset_id m x)) = true →
  (delete_asset x m).2 = Ok tt ∧
  _modified_resources (delete_asset x m).1
    = <[_resolve_asset_id m x := None]> (_modified_resources m) ∧
  _ensured_asset_ids (delete_asset x m).1
    = (λ ids, ids ∖ {[_resolve_asset_id m x]}) <$> _ensured_asset_ids m ∧
  (∀ p, _resolve_asset_id m x ∉ default ∅ (_ensured_asset_ids (delete_asset x m).1 !! p)) ∧
  _paks_for_asset_id (delete_asset x m).1 = _paks_for_asset_id m ∧
  _types_for_asset_id (delete_asset x m).1 = _types_for_asset_id m ∧
  _custom_asset_ids (delete_asset x m).1 = _custom_asset_ids m ∧
  _in_memory_paks (delete_asset x m).1 = _in_memory_paks m ∧
  _cached_dependencies (delete_asset x m).1 = _cached_dependencies m ∧
  _cached_ancs_per_char_dependencies (delete_asset x m).1
    = _cached_ancs_per_char_dependencies m ∧
  _sound_id_to_agsc (delete_asset x m).1 = _sound_id_to_agsc m ∧
  _next_generated_id (delete_asset x m).1 = _next_generated_id m ∧
  all_paks (delete_asset x m).1 = all_paks m ∧
  provider (delete_asset x m).1 = provider m ∧
  target_game (delete_asset x m).1 = target_game m ∧
  all_asset_ids (delete_asset x m).1 = all_asset_ids m ∧
  (∀ y, find_paks (delete_asset x m).1 y = find_paks m y).
Proof.
  intros Hexists. unfold delete_asset. rewrite Hexists. simpl.
  split_and!; try reflexivity.
  intros p. rewrite lookup_fmap.
  destruct (_ensured_asset_ids m !! p); simpl; set_solver.
Qed.

(** *** Saving *)

Lemma scan_entries_keep name resources m :
  provider (foldl (scan_entry name) m resources) = provider m ∧
  target_game (foldl (scan_entry name) m resources) = target_game m ∧
  _modified_resources (foldl (scan_entry name) m resources) = _modified_resources m.
Proof.
  revert m. induction resources as [|entry resources IH]; intros m; [done|].
  cbn [foldl]. destruct (IH (scan_entry name m entry)) as (-> & -> & ->). done.
Qed.

Lemma scan_paks_keep w names m :
  provider (scan_paks w names m).1 = provider m ∧
  target_game (scan_paks w names m).1 = target_game m ∧
  _modified_resources (scan_paks w names m).1 = _modified_resources m.
Proof.
  revert m. induction names as [|name names IH]; intros m; simpl; [done|].
  destruct (rbind _ _) as [resources|e]; [|done].
  destruct (IH (foldl (scan_entry name)
                  (set_ensured_asset_ids (<[name:=∅]> (_ensured_asset_ids m)) m)
                  resources)) as (-> & -> & ->).
  destruct (scan_entries_keep name resources
              (set_ensured_asset_ids (<[name:=∅]> (_ensured_asset_ids m)) m))
    as (-> & -> & ->). done.
Qed.

Lemma _update_headers_keep w m :
  provider (_update_headers w m).1 = provider m ∧
  target_game (_update_headers w m).1 = target_game m ∧
  _modified_resources (_update_headers w m).1 = _modified_resources m.
Proof.
  unfold _update_headers. repeat case_match; simpl; try done.
  all: match goal with
       | |- context [scan_paks ?w ?n ?m'] =>
           destruct (scan_paks_keep w n m') as (-> & -> & ->)
       end; done.
Qed.

Lemma scan_entries_eq name resources m1 m2 :
  scan_eq m1 m2 →
  scan_eq (foldl (scan_entry name) m1 resources) (foldl (scan_entry name) m2 resources).
Proof.
  revert m1 m2. induction resources as [|entry resources IH]; intros m1 m2 H; [done|].
  cbn [foldl]. apply IH. destruct H as (Hp & Hg & [= H1 H2 H3 H4]).
  unfold scan_eq, headers, scan_entry; simpl. by rewrite Hp, Hg, H1, H2, H3, H4.
Qed.

Lemma scan_paks_eq w names m1 m2 :
  scan_eq m1 m2 →
  (scan_paks w names m1).2 = (scan_paks w names m2).2 ∧
  scan_eq (scan_paks w names m1).1 (scan_paks w names m2).1.
Proof.
  revert m1 m2. induction names as [|name names IH]; intros m1 m2 H; [done|].
  cbn [scan_paks].
  pose proof H as (Hp & Hg & [= H1 H2 H3 H4]).
  replace (provider m1) with (provider m2).
  replace (target_game m1) with (target_game m2).
  destruct (rbind _ _) as [resources|e]; [|done].
  apply IH, scan_entries_eq.
  unfold scan_eq, headers; simpl. by rewrite Hp, Hg, H1, H2, H3, H4.
Qed.

Lemma _update_headers_eq w m1 m2 :
  provider m1 = provider m2 → target_game m1 = target_game m2 →
  (_update_headers w m1).2 = (_update_headers w m2).2 ∧
  headers (_update_headers w m1).1 = headers (_update_headers w m2).1.
Proof.
  intros Hp Hg. unfold _update_headers; simpl.
  replace (provider m1) with (provider m2).
  destruct (if is_file (provider m2) w "custom_names.json" then _ else _)
    as [custom|e]; [|done].
  match goal with
  | |- (scan_paks ?w ?n ?a).2 = (scan_paks _ _ ?b).2 ∧ _ =>
      destruct (scan_paks_eq w n a b) as (Hr & _ & _ & Hh); [|done]
  end.
  unfold scan_eq, headers; simpl. by rewrite Hg.
Qed.

Lemma save_modifications_Ok w output_path m :
  (save_modifications w output_path m).2 = Ok tt →
  ∃ m3, provider m3 = provider m ∧ target_game m3 = target_game m ∧
        (save_modifications w output_path m).1.1 =
        (_update_headers (save_modifications w output_path m).1.2
           (set_modified_resources ∅ m3)).1 ∧
        (_update_headers (save_modifications w output_path m).1.2
           (set_modified_resources ∅ m3)).2 = Ok tt.
Proof.
  unfold save_modifications.
  destruct (collect_modified_paks _ _ _) as [modified_paks|e]; [|done].
  pose proof (reads_mfor (λ pak_name, mbind (get_pak w pak_name) (λ _, mret tt))
                (elements modified_paks)
                (λ a, reads_mbind _ _ (reads_get_pak w a) (λ _, reads_mret tt)) m)
    as H1.
  destruct (mfor _ _ m) as [m1 [[]|e]]; simpl in *; [|done].
  pose proof (reads_collect_assets_to_copy w
                (concat (elements <$> (map_to_list (_ensured_asset_ids m1)).*2))
                ∅ m1) as H2.
  destruct (collect_assets_to_copy _ _ _ m1) as [m2 [to_copy|e]]; simpl in *; [|done].
  pose proof (update_paks_same output_path to_copy (elements modified_paks) m2 w)
    as H3.
  destruct (update_paks _ _ _ m2 w) as [[m3 w3] [[]|e]]; simpl in *; [|done].
  assert (same_bookkeeping m m3) as (Hp & Hg & _)
    by (eapply same_bookkeeping_trans; [eapply same_bookkeeping_trans|]; done).
  destruct (_update_headers _ _) as [m4 r] eqn:E; simpl. intros ->.
  exists m3. rewrite E. done.
Qed.

(** C2 (amended).  When [save_modifications(out_root)] returns, the
    modification map is empty and the header index
    ([paks_for_asset_id], [types_for_asset_id], the ensured sets, the
    custom aliases) is the one a manager built anew over the manager's
    own provider finds in the file tree as the save left it: the
    headers are scanned again through [self.provider], not under
    [out_root]. *)
Theorem C2_save_rescans_own_provider w output_path m :
  (save_modifications w output_path m).2 = Ok tt →
  _modified_resources (save_modifications w output_path m).1.1 = ∅ ∧
  (init (X:=X) (save_modifications w output_path m).1.2
     (provider m) (target_game m)).2 = Ok tt ∧
  headers (save_modifications w output_path m).1.1
    = headers (init (X:=X) (save_modifications w output_path m).1.2
                 (provider m) (target_game m)).1.
Proof.
  intros Hok.
  destruct (save_modifications_Ok _ _ _ Hok) as (m3 & Hp & Hg & Hsave & Hr).
  set (w' := (save_modifications w output_path m).1.2) in *.
  rewrite Hsave. simpl.
  destruct (_update_headers_keep w' (set_modified_resources ∅ m3)) as (_ & _ & ->).
  split; [done|]. unfold init.
  match goal with
  | |- (_update_headers _ ?m0).2 = _ ∧ _ =>
      destruct (_update_headers_eq w' (set_modified_resources ∅ m3) m0)
        as [Hr' Hh']; [by simpl..|]
  end.
  by rewrite <- Hr', <- Hh'.
Qed.

End Facts.

(** The asset 1 of the demo tree: valid, present, a [TXTR]. *)
Lemma C1_asset_itself_last_witness :
  match get_dependencies_for_asset 0 Demo.world 1 false (Demo.manager Demo.X) with
  | (_, Ok deps) =>
      deps ≠ [] ∧
      last deps =
        Some (mkDependency "TXTR" 1
                (bool_decide (1 ∈ mlvl_dependencies_to_ignore
                                    (target_game (Demo.manager Demo.X)))))
  | (m', Raise e) =>
      _cached_dependencies (Demo.manager Demo.X) !! 1 = None ∧
      compute_dependencies (nested_call 0 Demo.world) Demo.world 1 "TXTR"
        (Demo.manager Demo.X) = (m', Raise e)
  end.
Proof.
  apply (C1_asset_itself_last 0 Demo.world 1 false (Demo.manager Demo.X) "TXTR");
    vm_compute; reflexivity.
Defined.

(** C1 as stated fails for the one id ECHOES ignores: the asset itself
    comes last, but with [exclude_for_mlvl] true. *)
Lemma C1_counterexample :
  is_valid_asset_id ECHOES 0x7b2ea5b1 = true ∧
  does_asset_exists (Demo.manager Demo.X) (Id 0x7b2ea5b1) = true ∧
  get_asset_type (Demo.manager Demo.X) (Id 0x7b2ea5b1) = Ok "TXTR" ∧
  (get_dependencies_for_asset 0 Demo.world 0x7b2ea5b1 false (Demo.manager Demo.X)).2
    = Ok [mkDependency "TXTR" 0x7b2ea5b1 true] ∧
  last [mkDependency "TXTR" 0x7b2ea5b1 true]
    ≠ Some (mkDependency "TXTR" 0x7b2ea5b1 false).
Proof. split_and!; [by vm_compute..|]. simpl. by intros [=]. Qed.

Lemma C4_override_by_queried_asset_witness :
  ∃ produced,
    (_get_dependencies_for_asset (nested_call 0 Demo.world) Demo.world 1 false
       (Demo.manager Demo.X_ing)).2 = Ok produced ∧
    [mkDependency "TXTR" 0x7b2ea5b1 false; mkDependency "TXTR" 1 false]
      = with_override (target_game (Demo.manager Demo.X_ing)) 1 <$> produced ∧
    (1 ∈ mlvl_dependencies_to_ignore (target_game (Demo.manager Demo.X_ing)) →
       ∀ d, d ∈ [mkDependency "TXTR" 0x7b2ea5b1 false; mkDependency "TXTR" 1 false] →
            exclude_for_mlvl d = true) ∧
    (1 ∉ mlvl_dependencies_to_ignore (target_game (Demo.manager Demo.X_ing)) →
       [mkDependency "TXTR" 0x7b2ea5b1 false; mkDependency "TXTR" 1 false] = produced).
Proof.
  apply (C4_override_by_queried_asset 0 Demo.world 1 false (Demo.manager Demo.X_ing)).
  vm_compute. reflexivity.
Defined.

(** C4 as stated fails: asked for the asset 1, the engine yields the
    ignored texture [0x7b2ea5b1] with the flag its parser gave it. *)
Lemma C4_counterexample :
  (get_dependencies_for_asset 0 Demo.world 1 false (Demo.manager Demo.X_ing)).2
    = Ok [mkDependency "TXTR" 0x7b2ea5b1 false; mkDependency "TXTR" 1 false] ∧
  ¬ (∀ d, d ∈ [mkDependency "TXTR" 0x7b2ea5b1 false; mkDependency "TXTR" 1 false] →
          d_id d ∈ mlvl_dependencies_to_ignore ECHOES →
          exclude_for_mlvl d = true).
Proof.
  split; [by vm_compute|].
  intros H. specialize (H (mkDependency "TXTR" 0x7b2ea5b1 false)).
  simpl in H. discriminate H; [left | vm_compute; left].
Qed.




(** The demo manager after the asset 1, which [in/a.pak] holds, has been
    ensured in [b.pak]: a state of a session, in which [b.pak] ensures
    the asset 1 and is none of its PAKs. *)
Lemma C8_ensured_disjoint_witness :
  reachable
    (ensure_present 5 Demo.world "b.pak" (Id 1)
       (init (X:=Demo.X_chain) Demo.world
          (PathFileProvider Demo.fnmatch "in") ECHOES).1).1 ∧
  1 ∈ default ∅ (_ensured_asset_ids
                   (ensure_present 5 Demo.world "b.pak" (Id 1)
                      (init (X:=Demo.X_chain) Demo.world
                         (PathFileProvider Demo.fnmatch "in") ECHOES).1).1
                   !! "b.pak") ∧
  ("b.pak" ∉ default ∅ (_paks_for_asset_id
                          (ensure_present 5 Demo.world "b.pak" (Id 1)
                             (init (X:=Demo.X_chain) Demo.world
                                (PathFileProvider Demo.fnmatch "in") ECHOES).1).1
                          !! 1)).
Proof.
  assert (reachable
            (ensure_present 5 Demo.world "b.pak" (Id 1)
               (init (X:=Demo.X_chain) Demo.world
                  (PathFileProvider Demo.fnmatch "in") ECHOES).1).1) as Hr.
  { eapply reachable_step; [|apply step_ensure_present].
    apply (reachable_init Demo.world (PathFileProvider Demo.fnmatch "in")
             ECHOES).
    apply surjective_pairing_Ok. vm_compute. reflexivity. }
  assert (1 ∈ default ∅ (_ensured_asset_ids
                   (ensure_present 5 Demo.world "b.pak" (Id 1)
                      (init (X:=Demo.X_chain) Demo.world
                         (PathFileProvider Demo.fnmatch "in") ECHOES).1).1
                   !! "b.pak")) as He.
  { apply (bool_decide_unpack _). vm_compute. exact I. }
  split_and!; [exact Hr | exact He |].
  exact (C8_ensured_disjoint _ Hr "b.pak" 1 He).
Defined.

(** C3 as stated fails: once the asset [0xFFFF0000] of [in/a.pak] is
    deleted, [generate_asset_id] returns that very id, which the header
    index knows, the modification map holds, and which is tombstoned. *)
Lemma C3_counterexample :
  snd <$> generate_asset_id 1
            (delete_asset (Id 0xFFFF0000) (Demo.manager Demo.X)).1
    = Some 0xFFFF0000 ∧
  0xFFFF0000 ∈ dom (_paks_for_asset_id
                      (delete_asset (Id 0xFFFF0000) (Demo.manager Demo.X)).1) ∧
  _modified_resources (delete_asset (Id 0xFFFF0000) (Demo.manager Demo.X)).1
    !! 0xFFFF0000 = Some None.
Proof.
  split_and!.
  - vm_compute. reflexivity.
  - apply elem_of_dom. vm_compute. eauto.
  - vm_compute. reflexivity.
Qed.

Lemma C10_delete_asset_frame_witness :
  (delete_asset (Id 1) (Demo.manager Demo.X)).2 = Ok tt ∧
  (1 ∉ default ∅ (_ensured_asset_ids (delete_asset (Id 1) (Demo.manager Demo.X)).1
                    !! "b.pak")) ∧
  all_asset_ids (delete_asset (Id 1) (Demo.manager Demo.X)).1
    = all_asset_ids (Demo.manager Demo.X) ∧
  find_paks (delete_asset (Id 1) (Demo.manager Demo.X)).1 (Id 1)
    = find_paks (Demo.manager Demo.X) (Id 1).
Proof.
  assert (does_asset_exists (Demo.manager Demo.X)
            (Id (_resolve_asset_id (Demo.manager Demo.X) (Id 1))) = true) as Hexists
    by (vm_compute; reflexivity).
  pose proof (C10_delete_asset_frame (Demo.manager Demo.X) (Id 1) Hexists) as H.
  destruct H as (Hok & _ & _ & Hens & _ & _ & _ & _ & _ & _ & _ & _ & _ & _ & _
                 & Hall & Hfind).
  split_and!; [exact Hok | exact (Hens "b.pak") | exact Hall | exact (Hfind (Id 1))].
Defined.

Lemma C2_save_rescans_own_provider_witness :
  _modified_resources
    (save_modifications Demo.world "out"
       (delete_asset (Id 1) (Demo.manager Demo.X)).1).1.1 = ∅ ∧
  (init (X:=Demo.X)
     (save_modifications Demo.world "out"
        (delete_asset (Id 1) (Demo.manager Demo.X)).1).1.2
     (provider (delete_asset (Id 1) (Demo.manager Demo.X)).1)
     (target_game (delete_asset (Id 1) (Demo.manager Demo.X)).1)).2 = Ok tt ∧
  headers (save_modifications Demo.world "out"
             (delete_asset (Id 1) (Demo.manager Demo.X)).1).1.1
    = headers (init (X:=Demo.X)
                 (save_modifications Demo.world "out"
                    (delete_asset (Id 1) (Demo.manager Demo.X)).1).1.2
                 (provider (delete_asset (Id 1) (Demo.manager Demo.X)).1)
                 (target_game (delete_asset (Id 1) (Demo.manager Demo.X)).1)).1.
Proof.
  apply C2_save_rescans_own_provider. vm_compute. reflexivity.
Defined.

(** C2 as stated fails: the asset 1 is deleted and the PAKs are saved
    under [out]; the save returns, [out/a.pak] is written without the
    asset, and yet the manager's index still lists the asset 1 and the
    PAK [b.pak], which a scan of [out] finds neither of. *)
Lemma C2_counterexample :
  (save_modifications Demo.world "out"
     (delete_asset (Id 1) (Demo.manager Demo.X)).1).2 = Ok tt ∧
  1 ∈ all_asset_ids
        (save_modifications Demo.world "out"
           (delete_asset (Id 1) (Demo.manager Demo.X)).1).1.1 ∧
  (1 ∉ all_asset_ids
         (init (X:=Demo.X)
            (save_modifications Demo.world "out"
               (delete_asset (Id 1) (Demo.manager Demo.X)).1).1.2
            (PathFileProvider Demo.fnmatch "out") ECHOES).1) ∧
  headers (save_modifications Demo.world "out"
             (delete_asset (Id 1) (Demo.manager Demo.X)).1).1.1
    ≠ headers (init (X:=Demo.X)
                 (save_modifications Demo.world "out"
                    (delete_asset (Id 1) (Demo.manager Demo.X)).1).1.2
                 (PathFileProvider Demo.fnmatch "out") ECHOES).1.
Proof.
  assert (∀ l : list Z, bool_decide (1 ∈ l) = true → 1 ∈ l) as Hin
    by (intros l; apply bool_decide_eq_true_1).
  assert (∀ l : list Z, bool_decide (1 ∈ l) = false → 1 ∉ l) as Hout
    by (intros l; apply bool_decide_eq_false_1).
  split_and!.
  - vm_compute. reflexivity.
  - apply Hin. vm_compute. reflexivity.
  - apply Hout. vm_compute. reflexivity.
  - intros Heq.
    assert (_ensured_asset_ids
              (save_modifications Demo.world "out"
                 (delete_asset (Id 1) (Demo.manager Demo.X)).1).1.1 !! "b.pak"
            = _ensured_asset_ids
                (init (X:=Demo.X)
                   (save_modifications Demo.world "out"
                      (delete_asset (Id 1) (Demo.manager Demo.X)).1).1.2
                   (PathFileProvider Demo.fnmatch "out") ECHOES).1 !! "b.pak") as H
      by (unfold headers in Heq; congruence).
    vm_compute in H. discriminate H.
Qed.

End ManagerFacts.

(** ** asset_manager.py: further properties *)

Module ManagerMoreFacts.
Import GameCheck Manager ManagerMore ManagerFacts.

Section Facts.
Context {X : Collaborators}.

Local Abbreviation reads := (@Manager.reads X _).

(** *** Reading back what was written *)

Lemma replace_asset_Ok (m : AssetManager (X:=X)) (x : NameOrAssetId) new_data a :
  (replace_asset x new_data m).2 = Ok a →
  a = _resolve_asset_id m x ∧
  ∃ raw,
    match new_data with
    | Raw r => r = raw
    | Base resource_type build =>
        build = Ok (r_data raw) ∧ resource_type = r_type raw
    end ∧
    (replace_asset x new_data m).1
      = set_modified_resources (<[a := Some raw]> (_modified_resources m)) m.
Proof.
  unfold replace_asset.
  destruct (negb _); [done|].
  destruct new_data as [r|t [data|e]]; simpl; try done.
  - intros [= <-]. split; [done|]. by exists r.
  - intros [= <-]. split; [done|]. by exists (mkRawResource t data).
Qed.

(** X1.  When [replace_asset] returns, it returns the id its argument
    resolves to, the modification map holds the new raw resource under
    that id, and the readers answer from it: [get_raw_asset] returns the
    resource without looking at any PAK, [get_asset_type] its type, and
    [does_asset_exists] is true. *)
Theorem X1_replace_asset_read_back (m : AssetManager (X:=X)) (x : NameOrAssetId)
    new_data a w :
  (replace_asset x new_data m).2 = Ok a →
  a = _resolve_asset_id m x ∧
  ∃ raw,
    match new_data with
    | Raw r => r = raw
    | Base resource_type build =>
        build = Ok (r_data raw) ∧ resource_type = r_type raw
    end ∧
    _modified_resources (replace_asset x new_data m).1
      = <[a := Some raw]> (_modified_resources m) ∧
    get_raw_asset w x (replace_asset x new_data m).1
      = ((replace_asset x new_data m).1, Ok (Some raw)) ∧
    get_asset_type (replace_asset x new_data m).1 x = Ok (r_type raw) ∧
    does_asset_exists (replace_asset x new_data m).1 x = true.
Proof.
  intros Hok. destruct (replace_asset_Ok m x new_data a Hok) as (-> & raw & Hraw & ->).
  split; [done|]. exists raw. split; [done|].
  unfold get_raw_asset, get_asset_type, does_asset_exists, _resolve_asset_id; simpl.
  rewrite lookup_insert_eq. done.
Qed.

(** X2.  When [delete_asset] returns, the asset is gone for the
    readers: [does_asset_exists] is false, and [get_asset_type] and
    [get_raw_asset] raise [ValueError("Deleted asset_id: ...")], the
    latter without looking at any PAK. *)
Theorem X2_delete_asset_then_read (m : AssetManager (X:=X)) (x : NameOrAssetId) w :
  (delete_asset x m).2 = Ok tt →
  does_asset_exists (delete_asset x m).1 x = false ∧
  get_asset_type (delete_asset x m).1 x
    = Raise (ValueError ("Deleted asset_id: " +:+ str x)) ∧
  get_raw_asset w x (delete_asset x m).1
    = ((delete_asset x m).1, Raise (ValueError ("Deleted asset_id: " +:+ str x))).
Proof.
  unfold delete_asset. destruct (negb _); [done|]. simpl. intros _.
  unfold get_raw_asset, get_asset_type, does_asset_exists, _resolve_asset_id; simpl.
  rewrite lookup_insert_eq. done.
Qed.

(** X3.  [replace_asset], [delete_asset] and
    [register_custom_asset_name] change the manager only when they
    return: a call that raises leaves every attribute as it was. *)
Theorem X3_failed_update_changes_nothing (m : AssetManager (X:=X)) :
  (∀ x new_data e,
     (replace_asset x new_data m).2 = Raise e → (replace_asset x new_data m).1 = m) ∧
  (∀ x e, (delete_asset x m).2 = Raise e → (delete_asset x m).1 = m) ∧
  (∀ name asset_id e,
     (register_custom_asset_name name asset_id m).2 = Raise e →
     (register_custom_asset_name name asset_id m).1 = m).
Proof.
  split_and!.
  - intros x new_data e. unfold replace_asset. by repeat case_match.
  - intros x e. unfold delete_asset. by repeat case_match.
  - intros name asset_id e. unfold register_custom_asset_name. by repeat case_match.
Qed.

(** X4.  When [register_custom_asset_name(name, asset_id)] returns, no
    asset of that id existed, [get_custom_asset(name)] is the id and so
    is what every argument whose [str] is [name] resolves to, an asset
    id with that decimal form included; the other names are as before,
    and registering [name] again for another id raises [ValueError]. *)
Theorem X4_register_custom_asset_name (m : AssetManager (X:=X)) name asset_id :
  (register_custom_asset_name name asset_id m).2 = Ok tt →
  does_asset_exists m (Id asset_id) = false ∧
  get_custom_asset (register_custom_asset_name name asset_id m).1 name
    = Some asset_id ∧
  (∀ y, str y = name →
     _resolve_asset_id (register_custom_asset_name name asset_id m).1 y = asset_id) ∧
  (∀ other, other ≠ name →
     get_custom_asset (register_custom_asset_name name asset_id m).1 other
       = get_custom_asset m other) ∧
  (∀ asset_id', asset_id' ≠ asset_id →
     ∃ msg, (register_custom_asset_name name asset_id'
               (register_custom_asset_name name asset_id m).1).2
            = Raise (ValueError msg)).
Proof.
  intros Hok.
  assert (does_asset_exists m (Id asset_id) = false ∧
          (register_custom_asset_name name asset_id m).1
          = set_custom_asset_ids (<[name := asset_id]> (_custom_asset_ids m)) m)
    as [Hex ->].
  { revert Hok. unfold register_custom_asset_name. by repeat case_match. }
  split_and!; [done|..].
  - unfold get_custom_asset; simpl. by rewrite lookup_insert_eq.
  - intros y <-. unfold _resolve_asset_id; simpl. by rewrite lookup_insert_eq.
  - intros other Hne. unfold get_custom_asset; simpl. by rewrite lookup_insert_ne.
  - intros asset_id' Hne. unfold register_custom_asset_name at 1.
    case_match; [by eexists|]. simpl. rewrite lookup_insert_eq.
    rewrite bool_decide_true by done. by eexists.
Qed.

(** *** The caches *)


Lemma same_bookkeeping_readers (m m' : AssetManager (X:=X)) :
  same_bookkeeping m m' →
  target_game m' = target_game m ∧
  (∀ x, _resolve_asset_id m' x = _resolve_asset_id m x) ∧
  (∀ x, does_asset_exists m' x = does_asset_exists m x) ∧
  (∀ x, get_asset_type m' x = get_asset_type m x).
Proof.
  intros (Hp & Hg & Hm & Hn & He & Hpk & Ht & Hc & Ha).
  unfold does_asset_exists, get_asset_type, _resolve_asset_id.
  rewrite Hg, Hm, Hpk, Ht, Hc. done.
Qed.

(** X6.  A dependency query that returned has its answer cached: asked
    again, for the same asset, it returns the same list and changes
    nothing, whatever the file tree and the stack depth are by then. *)
Theorem X6_dependencies_cached (m : AssetManager (X:=X)) depth w a must_exist deps :
  (get_dependencies_for_asset depth w a must_exist m).2 = Ok deps →
  ∀ depth' w',
    get_dependencies_for_asset depth' w' a must_exist
      (get_dependencies_for_asset depth w a must_exist m).1
    = ((get_dependencies_for_asset depth w a must_exist m).1, Ok deps).
Proof.
  intros Hok depth' w'.
  rewrite !get_dependencies_for_asset_unfold in *.
  unfold get_dependencies_for_asset_body in *.
  assert (∀ rec, (∀ a b, reads (rec a b)) → ∀ rec' m1 produced,
    _get_dependencies_for_asset rec w a must_exist m = (m1, Ok produced) →
    target_game m1 = target_game m ∧
    _get_dependencies_for_asset rec' w' a must_exist m1 = (m1, Ok produced))
    as Hinner.
  { intros rec Hrec rec' m1 produced. unfold _get_dependencies_for_asset at 1.
    destruct (negb (is_valid_asset_id _ _)) eqn:Ev.
    { intros [= <- <-]. split; [done|]. unfold _get_dependencies_for_asset.
      by rewrite Ev. }
    destruct (negb (does_asset_exists _ _)) eqn:Ee.
    { destruct must_exist; [done|]. intros [= <- <-]. split; [done|].
      unfold _get_dependencies_for_asset. by rewrite Ev, Ee. }
    destruct (get_asset_type m (Id a)) as [t|e] eqn:Et; [|done].
    destruct (_cached_dependencies m !! a) as [cached|] eqn:Ec.
    { intros [= <- <-]. split; [done|]. unfold _get_dependencies_for_asset.
      by rewrite Ev, Ee, Et, Ec. }
    pose proof (reads_compute_dependencies rec w a t Hrec m) as Hc.
    destruct (compute_dependencies rec w a t m) as [m2 [ds|e]]; simpl in *; [|done].
    intros [= <- <-].
    apply same_bookkeeping_readers in Hc as (Hg & _ & Hex & Hty).
    split; [done|]. unfold _get_dependencies_for_asset.
    change (target_game (set_cached_dependencies _ m2)) with (target_game m2).
    change (does_asset_exists (set_cached_dependencies ?c m2) ?x)
      with (does_asset_exists m2 x).
    change (get_asset_type (set_cached_dependencies ?c m2) ?x)
      with (get_asset_type m2 x).
    rewrite Hg, Hex, Hty, Ev, Ee, Et. simpl. by rewrite lookup_insert_eq. }
  assert (∀ a b, reads (nested_call depth w a b)) as Hn.
  { intros. destruct depth; [apply reads_mraise|]. apply reads_get_dependencies_for_asset. }
  destruct (_get_dependencies_for_asset (nested_call depth w) w a must_exist m)
    as [m1 [produced|e]] eqn:E1; simpl in *; [|done].
  destruct (Hinner _ Hn (nested_call depth' w') m1 produced E1) as [Hg ->].
  rewrite Hg. by injection Hok as <-.
Qed.

(** X7.  The edge cases of a dependency query: for an id that is not
    valid for the game it yields nothing; for a valid id without an
    asset it yields nothing, or raises [UnknownAssetId] when
    [must_exist] is set.  The manager is left as it was. *)
Theorem X7_dependencies_of_no_asset (m : AssetManager (X:=X)) depth w a :
  (is_valid_asset_id (target_game m) a = false →
   ∀ must_exist, get_dependencies_for_asset depth w a must_exist m = (m, Ok [])) ∧
  (is_valid_asset_id (target_game m) a = true →
   does_asset_exists m (Id a) = false →
   get_dependencies_for_asset depth w a false m = (m, Ok []) ∧
   get_dependencies_for_asset depth w a true m = (m, Raise (UnknownAssetId a))).
Proof.
  split.
  - intros Hv must_exist. rewrite get_dependencies_for_asset_unfold.
    unfold get_dependencies_for_asset_body, _get_dependencies_for_asset.
    by rewrite Hv.
  - intros Hv He. rewrite !get_dependencies_for_asset_unfold.
    unfold get_dependencies_for_asset_body, _get_dependencies_for_asset.
    by rewrite Hv, He.
Qed.

(** *** Ensuring and adding *)

Lemma ensured_more_refl (m : AssetManager (X:=X)) : ensured_more m m.
Proof. by repeat split. Qed.

Lemma ensured_more_trans (m1 m2 m3 : AssetManager (X:=X)) :
  ensured_more m1 m2 → ensured_more m2 m3 → ensured_more m1 m3.
Proof.
  intros (?&?&?&?&?&?&?&?&?&H12) (?&?&?&?&?&?&?&?&?&H23).
  repeat split; try congruence. intros p. etrans; [apply H12 | apply H23].
Qed.

Lemma same_bookkeeping_ensured_more (m m' : AssetManager (X:=X)) :
  same_bookkeeping m m' → ensured_more m m'.
Proof.
  intros (?&?&?&?&He&?&?&?&?). repeat split; try done; by rewrite He.
Qed.

Lemma reads_only_ensures {A} (c : M (X:=X) A) : reads c → only_ensures c.
Proof. intros H m. apply same_bookkeeping_ensured_more, H. Qed.

Lemma only_ensures_mret {A} (a : A) : only_ensures (mret (X:=X) a).
Proof. intros m. apply ensured_more_refl. Qed.

Lemma only_ensures_mraise {A} e : only_ensures (mraise (X:=X) (A:=A) e).
Proof. intros m. apply ensured_more_refl. Qed.

Lemma only_ensures_mbind {A B} (c : M (X:=X) A) (f : A → M (X:=X) B) :
  only_ensures c → (∀ a, only_ensures (f a)) → only_ensures (mbind c f).
Proof.
  intros Hc Hf m. unfold mbind. specialize (Hc m).
  destruct (c m) as [m' [a|e]]; simpl in *; [|done].
  eapply ensured_more_trans; [exact Hc | apply Hf].
Qed.

Lemma only_ensures_mfor {A} (f : A → M (X:=X) unit) l :
  (∀ a, only_ensures (f a)) → only_ensures (mfor f l).
Proof.
  intros Hf. induction l as [|x l IH]; simpl; [apply only_ensures_mret|].
  apply only_ensures_mbind; [apply Hf | intros _; exact IH].
Qed.

(** Each round of a loop that returned has returned, in a state between
    the first and the last. *)
Lemma mfor_Ok_each {A} (f : A → M (X:=X) unit) l :
  (∀ a, only_ensures (f a)) →
  ∀ m, (mfor f l m).2 = Ok tt →
  ∀ x, x ∈ l →
    ∃ mi, ensured_more m mi ∧ (f x mi).2 = Ok tt ∧
          ensured_more (f x mi).1 (mfor f l m).1.
Proof.
  intros Hf. induction l as [|y l IH]; intros m Hok x Hx;
    [by apply elem_of_nil in Hx|].
  simpl in Hok |- *. unfold mbind in Hok |- *.
  pose proof (Hf y m) as Hy.
  destruct (f y m) as [m1 [[]|e]] eqn:Ey; simpl in *; [|done].
  apply elem_of_cons in Hx as [->|Hx].
  - exists m. split; [apply ensured_more_refl|]. rewrite Ey. split; [done|].
    simpl. apply only_ensures_mfor, Hf.
  - destruct (IH m1 Hok x Hx) as (mi & H1 & H2 & H3).
    exists mi. split; [by eapply ensured_more_trans|]. done.
Qed.

Lemma covered_more (m m' : AssetManager (X:=X)) pak_name asset_id :
  ensured_more m m' → covered m pak_name asset_id → covered m' pak_name asset_id.
Proof.
  intros (_&_&_&_&Hp&_&_&_&_&He) [H|H]; [left; by rewrite Hp | right; by apply He].
Qed.

Lemma only_ensures_ensure_present_body next depth w pak_name asset_id :
  (∀ x, only_ensures (next x)) →
  only_ensures (ensure_present_body (X:=X) next depth w pak_name asset_id).
Proof.
  intros Hnext m. unfold ensure_present_body.
  case_bool_decide as Hdom; [apply ensured_more_refl|]; simpl.
  destruct (negb _); [apply ensured_more_refl|].
  destruct (_paks_for_asset_id m !! _) as [paks|] eqn:Epaks;
    [|apply ensured_more_refl].
  eapply ensured_more_trans; [|apply only_ensures_mbind].
  - case_bool_decide as Hp; [|apply ensured_more_refl].
    repeat split; simpl.
    + rewrite dom_insert_L. apply subseteq_union_1_L, singleton_subseteq_l.
      first [done | by apply dec_stable].
    + intros p. rewrite lookup_insert. case_decide as Heq; simpl; [|done].
      subst p. apply union_subseteq_l.
  - apply reads_only_ensures, reads_get_dependencies_for_asset.
  - intros deps. apply only_ensures_mfor. intros dep.
    case_bool_decide; [apply only_ensures_mret | apply Hnext].
Qed.

Lemma only_ensures_ensure_present depth w pak_name asset_id :
  only_ensures (ensure_present (X:=X) depth w pak_name asset_id).
Proof.
  revert asset_id. induction depth as [|depth IH]; intros asset_id m;
    rewrite ensure_present_unfold; apply only_ensures_ensure_present_body.
  - intros _. apply only_ensures_mraise.
  - exact IH.
Qed.

Lemma ensure_present_Ok_covered (m : AssetManager (X:=X)) depth w pak_name x :
  (ensure_present depth w pak_name x m).2 = Ok tt →
  covered (ensure_present depth w pak_name x m).1 pak_name (_resolve_asset_id m x).
Proof.
  rewrite ensure_present_unfold. unfold ensure_present_body.
  case_bool_decide as Hdom; [done|].
  destruct (negb _); [done|].
  destruct (_paks_for_asset_id m !! _) as [paks|] eqn:Epaks; [|done].
  match goal with
  | |- (mbind ?c ?f ?m0).2 = _ → _ =>
      assert (only_ensures (mbind c f)) as Hrest;
      [|assert (covered m0 pak_name (_resolve_asset_id m x)) as Hcov]
  end.
  - apply only_ensures_mbind;
      [apply reads_only_ensures, reads_get_dependencies_for_asset|].
    intros deps. apply only_ensures_mfor. intros dep.
    case_bool_decide; [apply only_ensures_mret|].
    destruct depth; [apply only_ensures_mraise|apply only_ensures_ensure_present].
  - case_bool_decide as Hp.
    + right. simpl. rewrite lookup_insert_eq. simpl.
      apply elem_of_union_r. by apply elem_of_singleton.
    + left. rewrite Epaks. simpl. first [done | by apply dec_stable].
  - intros _. eapply covered_more; [apply Hrest | exact Hcov].
Qed.

(** X8.  [ensure_present(pak_name, asset_id)] only ever adds ids to the
    ensured sets of known PAKs: everything else it leaves as it was,
    whether it returns or raises.  For a PAK name the manager does not
    know it raises [ValueError] and changes nothing.  When it returns,
    the PAK lists the asset in its header or the asset is in the PAK's
    ensured set. *)
Theorem X8_ensure_present_covers (m : AssetManager (X:=X)) depth w pak_name x :
  ensured_more m (ensure_present depth w pak_name x m).1 ∧
  (pak_name ∉ dom (_ensured_asset_ids m) →
   ensure_present depth w pak_name x m
   = (m, Raise (ValueError ("Unknown pak_name: " +:+ pak_name)))) ∧
  ((ensure_present depth w pak_name x m).2 = Ok tt →
   covered (ensure_present depth w pak_name x m).1 pak_name (_resolve_asset_id m x)).
Proof.
  split_and!.
  - apply only_ensures_ensure_present.
  - intros Hdom. rewrite ensure_present_unfold. unfold ensure_present_body.
    by rewrite bool_decide_true.
  - apply ensure_present_Ok_covered.
Qed.

(** X9.  When [add_new_asset(name, new_data, in_paks)] returns: no
    asset of the id the name resolves to existed; the name is
    registered for the id; the modification map holds the new resource
    under the id, so the asset exists; no PAK lists it ([find_paks]
    yields nothing); and every PAK of [in_paks] covers what the id
    resolves to. *)
Theorem X9_add_new_asset (m : AssetManager (X:=X)) depth w name new_data in_paks :
  (add_new_asset depth w name new_data in_paks m).2 = Ok tt →
  does_asset_exists m (Id (_resolve_asset_id m name)) = false ∧
  get_custom_asset (add_new_asset depth w name new_data in_paks m).1 (str name)
    = Some (_resolve_asset_id m name) ∧
  _resolve_asset_id (add_new_asset depth w name new_data in_paks m).1 name
    = _resolve_asset_id m name ∧
  (∃ raw,
     match new_data with
     | Raw r => r = raw
     | Base resource_type build =>
         build = Ok (r_data raw) ∧ resource_type = r_type raw
     end ∧
     _modified_resources (add_new_asset depth w name new_data in_paks m).1
       !! _resolve_asset_id m name = Some (Some raw)) ∧
  does_asset_exists (add_new_asset depth w name new_data in_paks m).1 name = true ∧
  find_paks (add_new_asset depth w name new_data in_paks m).1 name = Ok [] ∧
  ∀ pak_name, pak_name ∈ in_paks →
    covered (add_new_asset depth w name new_data in_paks m).1 pak_name
      (_resolve_asset_id (add_new_asset depth w name new_data in_paks m).1
         (Id (_resolve_asset_id m name))).
Proof.
  unfold add_new_asset.
  set (a := _resolve_asset_id m name).
  destruct (does_asset_exists m (Id a)) eqn:Hex; [done|].
  set (m1 := set_paks_for_asset_id _ _).
  assert (_resolve_asset_id m1 name = a) as Hres1.
  { unfold _resolve_asset_id, m1; simpl. by rewrite lookup_insert_eq. }
  unfold mbind.
  pose proof (replace_asset_Ok m1 name new_data) as Hrep.
  destruct (replace_asset name new_data m1) as [m2 [a2|e]] eqn:Erep; simpl in *;
    [|done].
  destruct (Hrep a2 eq_refl) as (-> & raw & Hraw & Hm2).
  rewrite Hres1 in Hm2.
  assert (_modified_resources m2 = <[a := Some raw]> (_modified_resources m1) ∧
          _custom_asset_ids m2 = _custom_asset_ids m1 ∧
          _paks_for_asset_id m2 = _paks_for_asset_id m1) as (Hmod & Hc2 & Hp2)
    by (by rewrite Hm2).
  set (loop := mfor _ in_paks).
  assert (only_ensures loop) as Hloop
    by (apply only_ensures_mfor; intros; apply only_ensures_ensure_present).
  pose proof (Hloop m2) as (_&_&Hm&_&Hp&_&Hc&_&_&_).
  intros Hok.
  assert (_resolve_asset_id (loop m2).1 name = a) as Hres.
  { unfold _resolve_asset_id. rewrite Hc, Hc2. unfold m1; simpl.
    by rewrite lookup_insert_eq. }
  split_and!; [done|..].
  - unfold get_custom_asset. rewrite Hc, Hc2. unfold m1; simpl.
    by rewrite lookup_insert_eq.
  - done.
  - exists raw. split; [done|]. rewrite Hm, Hmod. by rewrite lookup_insert_eq.
  - unfold does_asset_exists. rewrite Hres, Hm, Hmod. by rewrite lookup_insert_eq.
  - unfold find_paks. rewrite Hres, Hp, Hp2. unfold m1; simpl.
    rewrite lookup_insert_eq. by rewrite elements_empty.
  - intros pak_name Hin.
    destruct (mfor_Ok_each _ in_paks
                (λ p, only_ensures_ensure_present depth w p (Id a)) m2 Hok
                pak_name Hin) as (mi & H1 & H2 & H3).
    pose proof (ensure_present_Ok_covered mi depth w pak_name (Id a) H2) as Hcov.
    eapply covered_more in Hcov; [|exact H3].
    assert (∀ x, _resolve_asset_id (loop m2).1 x = _resolve_asset_id mi x) as ->;
      [|exact Hcov].
    intros x. unfold _resolve_asset_id.
    destruct H1 as (_&Hg1&_&_&_&_&Hc1&_). pose proof (Hloop m2) as (_&Hg&_).
    by rewrite Hc, Hc1, Hg, Hg1.
Qed.

(** X10.  An id that was deleted cannot be added again: when the name
    resolves to an id under a tombstone, [add_new_asset] raises
    [UnknownAssetId] out of its call of [replace_asset], after it has
    registered the name and made the set of PAKs of the id empty. *)
Theorem X10_add_new_asset_after_delete (m : AssetManager (X:=X)) depth w name
    new_data in_paks :
  _modified_resources m !! _resolve_asset_id m name = Some None →
  _resolve_asset_id m (Id (_resolve_asset_id m name)) = _resolve_asset_id m name →
  (add_new_asset depth w name new_data in_paks m).2
    = Raise (UnknownAssetId (_resolve_asset_id m name)) ∧
  (add_new_asset depth w name new_data in_paks m).1
    = set_paks_for_asset_id
        (<[_resolve_asset_id m name := ∅]> (_paks_for_asset_id m))
        (set_custom_asset_ids
           (<[str name := _resolve_asset_id m name]> (_custom_asset_ids m)) m).
Proof.
  set (a := _resolve_asset_id m name). intros Hmod Hres.
  unfold add_new_asset. fold a.
  assert (does_asset_exists m (Id a) = false) as ->.
  { unfold does_asset_exists. by rewrite Hres, Hmod. }
  set (m1 := set_paks_for_asset_id _ _).
  assert (_resolve_asset_id m1 name = a) as Hres1.
  { unfold _resolve_asset_id, m1; simpl. by rewrite lookup_insert_eq. }
  assert (_resolve_asset_id m1 (Id a) = a) as Hres2.
  { unfold _resolve_asset_id, m1; simpl. rewrite lookup_insert.
    case_decide as Heq; [done|]. exact Hres. }
  unfold mbind, replace_asset. rewrite Hres1.
  assert (does_asset_exists m1 (Id a) = false) as ->.
  { unfold does_asset_exists. rewrite Hres2. unfold m1; simpl. by rewrite Hmod. }
  done.
Qed.



(** *** The header index *)

Lemma scan_entry_index name (m0 : AssetManager (X:=X)) entry :
  (∀ a p, p ∈ default ∅ (_paks_for_asset_id (scan_entry name m0 entry) !! a) ↔
          p ∈ default ∅ (_paks_for_asset_id m0 !! a) ∨ (p = name ∧ a = entry.1)) ∧
  dom (_paks_for_asset_id (scan_entry name m0 entry))
    = dom (_paks_for_asset_id m0) ∪ {[entry.1]} ∧
  dom (_types_for_asset_id (scan_entry name m0 entry))
    = dom (_types_for_asset_id m0) ∪ {[entry.1]} ∧
  (∀ a t, _types_for_asset_id (scan_entry name m0 entry) !! a = Some t →
          _types_for_asset_id m0 !! a = Some t ∨ (a, t) = entry).
Proof.
  unfold scan_entry, _add_pak_name_for_asset_id; simpl. split_and!.
  - intros a p. rewrite lookup_insert. case_decide as Heq; simpl.
    + subst a. rewrite elem_of_union, elem_of_singleton. naive_solver.
    + naive_solver.
  - rewrite dom_insert_L. apply (comm_L (∪)).
  - rewrite dom_insert_L. apply (comm_L (∪)).
  - intros a t. rewrite lookup_insert. case_decide as Heq; simpl.
    + subst a. intros [= <-]. right. by destruct entry.
    + by left.
Qed.

Lemma scan_entries_index name resources : ∀ m0 : AssetManager (X:=X),
  (∀ a p, p ∈ default ∅ (_paks_for_asset_id (foldl (scan_entry name) m0 resources) !! a) ↔
          p ∈ default ∅ (_paks_for_asset_id m0 !! a) ∨ (p = name ∧ a ∈ resources.*1)) ∧
  dom (_paks_for_asset_id (foldl (scan_entry name) m0 resources))
    = dom (_paks_for_asset_id m0) ∪ list_to_set resources.*1 ∧
  dom (_types_for_asset_id (foldl (scan_entry name) m0 resources))
    = dom (_types_for_asset_id m0) ∪ list_to_set resources.*1 ∧
  (∀ a t, _types_for_asset_id (foldl (scan_entry name) m0 resources) !! a = Some t →
          _types_for_asset_id m0 !! a = Some t ∨ (a, t) ∈ resources).
Proof.
  induction resources as [|entry resources IH]; intros m0.
  - simpl. split_and!; [|by rewrite (right_id_L ∅ (∪))..|by left].
    intros a p. rewrite elem_of_nil. naive_solver.
  - cbn [foldl]. destruct (IH (scan_entry name m0 entry)) as (I1 & I2 & I3 & I4).
    destruct (scan_entry_index name m0 entry) as (E1 & E2 & E3 & E4).
    split_and!.
    + intros a p. rewrite I1, E1, fmap_cons, elem_of_cons. naive_solver.
    + rewrite I2, E2, fmap_cons. simpl. by rewrite (assoc_L (∪)).
    + rewrite I3, E3, fmap_cons. simpl. by rewrite (assoc_L (∪)).
    + intros a t [H|H]%I4; [|right; by apply elem_of_cons; right].
      apply E4 in H as [H|H]; [by left|]. right. apply elem_of_cons. by left.
Qed.

Lemma scan_paks_index w names : ∀ (m0 : AssetManager (X:=X)),
  (scan_paks w names m0).2 = Ok tt →
  provider (scan_paks w names m0).1 = provider m0 ∧
  target_game (scan_paks w names m0).1 = target_game m0 ∧
  (∀ p, p ∈ names → is_Ok (header_resources w m0 p)) ∧
  (∀ a p, p ∈ default ∅ (_paks_for_asset_id (scan_paks w names m0).1 !! a) ↔
          p ∈ default ∅ (_paks_for_asset_id m0 !! a) ∨
          (p ∈ names ∧ ∃ resources,
             header_resources w m0 p = Ok resources ∧ a ∈ resources.*1)) ∧
  dom (_ensured_asset_ids (scan_paks w names m0).1)
    = dom (_ensured_asset_ids m0) ∪ list_to_set names ∧
  (dom (_types_for_asset_id m0) = dom (_paks_for_asset_id m0) →
   dom (_types_for_asset_id (scan_paks w names m0).1)
     = dom (_paks_for_asset_id (scan_paks w names m0).1)) ∧
  (∀ a t, _types_for_asset_id (scan_paks w names m0).1 !! a = Some t →
          _types_for_asset_id m0 !! a = Some t ∨
          ∃ p resources, p ∈ names ∧ header_resources w m0 p = Ok resources ∧
                         (a, t) ∈ resources).
Proof.
  induction names as [|name names IH]; intros m0.
  - simpl. intros _. split_and!; try done.
    + by intros p ?%elem_of_nil.
    + intros a p. split; [by left|]. by intros [?|[?%elem_of_nil _]].
    + by rewrite (right_id_L ∅ (∪)).
    + by left.
  - cbn [scan_paks]. fold (header_resources w m0 name).
    destruct (header_resources w m0 name) as [resources|e] eqn:Ehr; [|done].
    set (m1 := foldl (scan_entry name) _ resources).
    intros Hok. destruct (IH m1 Hok) as (Hp & Hg & I1 & I2 & I3 & I4 & I5).
    destruct (scan_entries_index name resources
                (set_ensured_asset_ids (<[name:=∅]> (_ensured_asset_ids m0)) m0))
      as (E1 & E2 & E3 & E4).
    destruct (scan_entries_keep name resources
                (set_ensured_asset_ids (<[name:=∅]> (_ensured_asset_ids m0)) m0))
      as (Hp1 & Hg1 & _).
    destruct (scan_entries_frame name resources
                (set_ensured_asset_ids (<[name:=∅]> (_ensured_asset_ids m0)) m0))
      as (_ & He1).
    fold m1 in E1, E2, E3, E4, Hp1, Hg1, He1. simpl in *.
    assert (∀ p, header_resources w m1 p = header_resources w m0 p) as Hhr.
    { intros p. unfold header_resources. by rewrite Hp1, Hg1. }
    split_and!.
    + by rewrite Hp, Hp1.
    + by rewrite Hg, Hg1.
    + intros p [->|Hin]%elem_of_cons; [rewrite Ehr; by eexists|].
      rewrite <- Hhr. by apply I1.
    + intros a p. rewrite I2, E1. setoid_rewrite Hhr. setoid_rewrite elem_of_cons.
      split.
      * intros [[?|[-> ?]]|(? & res & ? & ?)]; [by left|right..].
        -- split; [by left|]. by exists resources.
        -- split; [by right|]. by exists res.
      * intros [?|([->|?] & res & Hres & ?)]; [by left; left| |].
        -- left; right. split; [done|]. congruence.
        -- right. split; [done|]. by exists res.
    + rewrite I3, He1, dom_insert_L. simpl. set_solver.
    + intros H0. apply I4. by rewrite E2, E3, H0.
    + intros a t [H|(p & res & Hin & Hres & Hat)]%I5.
      * apply E4 in H as [H|H]; [by left|]. right. exists name, resources.
        split_and!; [by left|done..].
      * right. exists p, res. rewrite <- Hhr. split_and!; [by right|done..].
Qed.

Lemma scan_entries_all_paks name resources : ∀ m0 : AssetManager (X:=X),
  all_paks (foldl (scan_entry name) m0 resources) = all_paks m0.
Proof.
  induction resources as [|entry resources IH]; intros m0; [done|].
  cbn [foldl]. by rewrite IH.
Qed.

Lemma scan_paks_all_paks w names : ∀ m0 : AssetManager (X:=X),
  all_paks (scan_paks w names m0).1 = all_paks m0.
Proof.
  induction names as [|name names IH]; intros m0; simpl; [done|].
  destruct (rbind _ _) as [resources|e]; [|done].
  by rewrite IH, scan_entries_all_paks.
Qed.

(** X11.  When [_update_headers] returns, the index is what the headers
    of the PAKs say: [all_paks] is what [rglob("*.pak")] found, each of
    these PAKs has an (empty) ensured set and a header that parsed, a
    PAK is among the PAKs of an asset exactly when its header lists the
    asset, the assets with a type are those with a PAK, and the type of
    an asset is one a header lists for it. *)
Theorem X11_update_headers_index (m : AssetManager (X:=X)) w :
  (_update_headers w m).2 = Ok tt →
  all_paks (_update_headers w m).1 = rglob (provider m) w "*.pak" ∧
  dom (_ensured_asset_ids (_update_headers w m).1)
    = list_to_set (all_paks (_update_headers w m).1) ∧
  (∀ p, default ∅ (_ensured_asset_ids (_update_headers w m).1 !! p) = ∅) ∧
  (∀ p, p ∈ all_paks (_update_headers w m).1 → is_Ok (header_resources w m p)) ∧
  (∀ a p, p ∈ default ∅ (_paks_for_asset_id (_update_headers w m).1 !! a) ↔
          p ∈ all_paks (_update_headers w m).1 ∧
          ∃ resources, header_resources w m p = Ok resources ∧ a ∈ resources.*1) ∧
  dom (_types_for_asset_id (_update_headers w m).1)
    = dom (_paks_for_asset_id (_update_headers w m).1) ∧
  (∀ a t, _types_for_asset_id (_update_headers w m).1 !! a = Some t →
          ∃ p resources, p ∈ all_paks (_update_headers w m).1 ∧
                         header_resources w m p = Ok resources ∧
                         (a, t) ∈ resources).
Proof.
  pose proof (_update_headers_fresh w m) as [_ Hfresh].
  revert Hfresh. unfold _update_headers; simpl.
  destruct (if is_file (provider m) w "custom_names.json" then _ else _)
    as [custom|e]; [|done].
  set (names := rglob (provider m) w "*.pak").
  set (m0 := set_all_paks names _).
  intros Hfresh Hok.
  destruct (scan_paks_index w names m0 Hok) as (Hp & Hg & I1 & I2 & I3 & I4 & I5).
  assert (all_paks (scan_paks w names m0).1 = names) as Hall
    by apply scan_paks_all_paks.
  assert (∀ p, header_resources w m0 p = header_resources w m p) as Hhr by done.
  rewrite Hall. split_and!.
  - done.
  - rewrite I3. simpl. by rewrite dom_empty_L, (left_id_L ∅ (∪)).
  - exact Hfresh.
  - intros p Hin. rewrite <- Hhr. by apply I1.
  - intros a p. rewrite I2. simpl. rewrite lookup_empty. simpl.
    setoid_rewrite Hhr. rewrite elem_of_empty. naive_solver.
  - by apply I4.
  - intros a t [H|H]%I5; [simpl in H; by rewrite lookup_empty in H|].
    by setoid_rewrite Hhr in H.
Qed.



(** *** What saving writes *)

Lemma collect_modified_paks_Ok (m : AssetManager (X:=X)) asset_ids : ∀ acc paks,
  collect_modified_paks m asset_ids acc = Ok paks →
  ∀ p, p ∈ paks ↔
       p ∈ acc ∨ ∃ a, a ∈ asset_ids ∧ p ∈ default ∅ (_paks_for_asset_id m !! a).
Proof.
  induction asset_ids as [|a asset_ids IH]; intros acc paks; simpl.
  - intros [= <-] p. split; [by left|]. by intros [?|(? & ?%elem_of_nil & _)].
  - destruct (_paks_for_asset_id m !! a) as [s|] eqn:Ea; [|done].
    intros H p. rewrite (IH _ _ H p), elem_of_union. setoid_rewrite elem_of_cons.
    split.
    + intros [[?|?]|(b & ? & ?)]; [by left|right..].
      * exists a. split; [by left|]. by rewrite Ea.
      * exists b. split; [by right|done].
    + intros [?|(b & [->|?] & Hb)]; [by left; left|..].
      * left; right. by rewrite Ea in Hb.
      * right. by exists b.
Qed.

Lemma update_paks_writes output_path to_copy pak_names :
  ∀ (m : AssetManager (X:=X)) (w : World),
  (∀ path, path ∉ joinpath output_path <$> pak_names →
           (update_paks output_path to_copy pak_names m w).1.2 !! path = w !! path) ∧
  ((update_paks output_path to_copy pak_names m w).2 = Ok tt →
   ∀ p, p ∈ pak_names →
        is_Some ((update_paks output_path to_copy pak_names m w).1.2
                   !! joinpath output_path p)).
Proof.
  induction pak_names as [|p pak_names IH]; intros m w; simpl.
  - split; [done|]. by intros _ p ?%elem_of_nil.
  - assert ((∀ path, path ≠ joinpath output_path p →
                     (update_pak output_path to_copy p m w).1.2 !! path = w !! path) ∧
            ((update_pak output_path to_copy p m w).2 = Ok tt →
             is_Some ((update_pak output_path to_copy p m w).1.2
                        !! joinpath output_path p))) as [Hone Hsome].
    { unfold update_pak. destruct (_in_memory_paks m !! p); [|done].
      destruct (rbind _ _); simpl; [|done]. split.
      - intros path Hne. by rewrite lookup_insert_ne.
      - intros _. by rewrite lookup_insert_eq. }
    destruct (update_pak output_path to_copy p m w) as [[m1 w1] [[]|e]]; simpl in *.
    + destruct (IH m1 w1) as [Hrest Hall]. split.
      * intros path [Hne Hnin]%not_elem_of_cons. rewrite Hrest by done. by apply Hone.
      * intros Hok q [->|Hin]%elem_of_cons; [|by apply Hall].
        destruct (decide (joinpath output_path p ∈ joinpath output_path <$> pak_names))
          as [(q & -> & Hq)%list_elem_of_fmap|Hnin]; [by apply Hall|].
        rewrite Hrest by done. by apply Hsome.
    + split; [|done]. intros path [Hne _]%not_elem_of_cons. by apply Hone.
Qed.

(** X12.  [save_modifications(output_path)] writes, whether it returns
    or raises on the way, nothing but [custom_names.json] and the PAKs
    that list an asset of the modification map in their headers, each
    under [output_path]; a PAK whose ensured set is all that changed is
    not written.  When it returns, each of these files is there, and
    [custom_names.json] holds the custom names. *)
Theorem X12_save_modifications_writes (m : AssetManager (X:=X)) w output_path :
  (∀ path, (save_modifications w output_path m).1.2 !! path ≠ w !! path →
     path = joinpath output_path "custom_names.json" ∨
     ∃ pak_name asset_id,
       path = joinpath output_path pak_name ∧
       asset_id ∈ dom (_modified_resources m) ∧
       pak_name ∈ default ∅ (_paks_for_asset_id m !! asset_id)) ∧
  ((save_modifications w output_path m).2 = Ok tt →
   (save_modifications w output_path m).1.2 !! joinpath output_path "custom_names.json"
     = Some (json_dump X (_custom_asset_ids m)) ∧
   ∀ pak_name asset_id,
     asset_id ∈ dom (_modified_resources m) →
     pak_name ∈ default ∅ (_paks_for_asset_id m !! asset_id) →
     is_Some ((save_modifications w output_path m).1.2
                !! joinpath output_path pak_name)).
Proof.
  unfold save_modifications.
  destruct (collect_modified_paks _ _ _) as [modified_paks|e] eqn:Ecol; [|done].
  pose proof (collect_modified_paks_Ok _ _ _ _ Ecol) as Hpaks.
  assert (∀ p, p ∈ elements modified_paks ↔
               ∃ a, a ∈ dom (_modified_resources m) ∧
                    p ∈ default ∅ (_paks_for_asset_id m !! a)) as Hin.
  { intros p. rewrite elem_of_elements, Hpaks, elem_of_empty.
    setoid_rewrite list_elem_of_fmap. setoid_rewrite elem_of_dom. split.
    - intros [[]|(a & ([a' v] & -> & Hav%elem_of_map_to_list) & ?)].
      exists a'. split; [by eexists|done].
    - intros (a & [v Hv] & ?). right. exists a. split; [|done].
      exists (a, v). split; [done|]. by apply elem_of_map_to_list. }
  pose proof (reads_mfor (λ pak_name, mbind (get_pak w pak_name) (λ _, mret tt))
                (elements modified_paks)
                (λ a, reads_mbind _ _ (reads_get_pak w a) (λ _, reads_mret tt)) m)
    as H1.
  destruct (mfor _ _ m) as [m1 [[]|e]]; simpl in *; [|done].
  pose proof (reads_collect_assets_to_copy w
                (concat (elements <$> (map_to_list (_ensured_asset_ids m1)).*2))
                ∅ m1) as H2.
  destruct (collect_assets_to_copy _ _ _ m1) as [m2 [to_copy|e]]; simpl in *; [|done].
  pose proof (update_paks_same output_path to_copy (elements modified_paks) m2 w)
    as H3.
  destruct (update_paks_writes output_path to_copy (elements modified_paks) m2 w)
    as [Hw Hall].
  destruct (update_paks _ _ _ m2 w) as [[m3 w3] [[]|e]]; simpl in *.
  - assert (same_bookkeeping m m3) as (_&_&_&_&_&_&_&Hc&_)
      by (eapply same_bookkeeping_trans; [eapply same_bookkeeping_trans|]; done).
    destruct (_update_headers _ _) as [m4 r]; simpl.
    unfold _write_custom_names. split.
    + intros path. rewrite lookup_insert. case_decide as Heq; [by left|].
      intros Hne. right.
      destruct (decide (path ∈ joinpath output_path <$> elements modified_paks))
        as [(p & -> & (a & ? & ?)%Hin)%list_elem_of_fmap|Hnin]; [by exists p, a|].
      by rewrite Hw in Hne.
    + intros _. split; [by rewrite lookup_insert_eq, Hc|].
      intros p a Ha Hp. rewrite lookup_insert. case_decide; [done|].
      apply Hall; [done|]. apply Hin. by exists a.
  - split; [|done]. intros path Hne. right.
    destruct (decide (path ∈ joinpath output_path <$> elements modified_paks))
      as [(p & -> & (a & ? & ?)%Hin)%list_elem_of_fmap|Hnin]; [by exists p, a|].
    by rewrite Hw in Hne.
Qed.

End Facts.

(** *** Instances on the demo tree *)

(** The asset 1 of the demo tree, given the data of another texture. *)
Lemma X1_replace_asset_read_back_witness :
  (replace_asset (Id 1) (Raw (Demo.raw_of 5)) (Demo.manager Demo.X)).2 = Ok 1 ∧
  get_raw_asset Demo.world (Id 1)
    (replace_asset (Id 1) (Raw (Demo.raw_of 5)) (Demo.manager Demo.X)).1
  = ((replace_asset (Id 1) (Raw (Demo.raw_of 5)) (Demo.manager Demo.X)).1,
     Ok (Some (Demo.raw_of 5))).
Proof.
  assert ((replace_asset (Id 1) (Raw (Demo.raw_of 5)) (Demo.manager Demo.X)).2 = Ok 1)
    as H by (vm_compute; reflexivity).
  split; [exact H|].
  destruct (X1_replace_asset_read_back _ _ _ _ Demo.world H)
    as (_ & raw & <- & _ & Hraw & _).
  exact Hraw.
Defined.

(** The asset 1 of the demo tree, deleted. *)
Lemma X2_delete_asset_then_read_witness :
  (delete_asset (Id 1) (Demo.manager Demo.X)).2 = Ok tt ∧
  does_asset_exists (delete_asset (Id 1) (Demo.manager Demo.X)).1 (Id 1) = false.
Proof.
  assert ((delete_asset (Id 1) (Demo.manager Demo.X)).2 = Ok tt)
    as H by (vm_compute; reflexivity).
  split; [exact H|].
  exact (proj1 (X2_delete_asset_then_read _ _ Demo.world H)).
Defined.

(** The name [boss] registered for the free id 77. *)
Lemma X4_register_custom_asset_name_witness :
  (register_custom_asset_name "boss" 77 (Demo.manager Demo.X)).2 = Ok tt ∧
  get_custom_asset (register_custom_asset_name "boss" 77 (Demo.manager Demo.X)).1
    "boss" = Some 77.
Proof.
  assert ((register_custom_asset_name "boss" 77 (Demo.manager Demo.X)).2 = Ok tt)
    as H by (vm_compute; reflexivity).
  split; [exact H|].
  exact (proj1 (proj2 (X4_register_custom_asset_name _ _ _ H))).
Defined.


(** The dependencies of the asset 1, which depends on the asset 2,
    asked for again with no stack left and no tree. *)
Lemma X6_dependencies_cached_witness :
  (get_dependencies_for_asset 1 Demo.world 1 false (Demo.manager Demo.X_chain)).2
    = Ok [mkDependency "TXTR" 2 false; mkDependency "TXTR" 1 false] ∧
  get_dependencies_for_asset 0 ∅ 1 false
    (get_dependencies_for_asset 1 Demo.world 1 false (Demo.manager Demo.X_chain)).1
  = ((get_dependencies_for_asset 1 Demo.world 1 false (Demo.manager Demo.X_chain)).1,
     Ok [mkDependency "TXTR" 2 false; mkDependency "TXTR" 1 false]).
Proof.
  assert ((get_dependencies_for_asset 1 Demo.world 1 false
             (Demo.manager Demo.X_chain)).2
          = Ok [mkDependency "TXTR" 2 false; mkDependency "TXTR" 1 false])
    as H by (vm_compute; reflexivity).
  split; [exact H|].
  exact (X6_dependencies_cached _ _ _ _ _ _ H 0%nat ∅).
Defined.

(** A new texture, named [newtx], added to [b.pak]. *)
Lemma X9_add_new_asset_witness :
  (add_new_asset 1 Demo.world (Name "newtx") (Raw (Demo.raw_of 9)) ["b.pak"]
     (Demo.manager Demo.X)).2 = Ok tt ∧
  find_paks (add_new_asset 1 Demo.world (Name "newtx") (Raw (Demo.raw_of 9))
               ["b.pak"] (Demo.manager Demo.X)).1 (Name "newtx") = Ok [].
Proof.
  assert ((add_new_asset 1 Demo.world (Name "newtx") (Raw (Demo.raw_of 9)) ["b.pak"]
             (Demo.manager Demo.X)).2 = Ok tt) as H by (vm_compute; reflexivity).
  split; [exact H|].
  exact (proj1 (proj2 (proj2 (proj2 (proj2 (proj2
           (X9_add_new_asset _ _ _ _ _ _ H))))))).
Defined.

(** The asset 1 of the demo tree, deleted and added again under the
    name [a], which resolves to the id 1. *)
Lemma X10_add_new_asset_after_delete_witness :
  (add_new_asset 1 Demo.world (Name "a") (Raw (Demo.raw_of 1)) ["b.pak"]
     (delete_asset (Id 1) (Demo.manager Demo.X)).1).2 = Raise (UnknownAssetId 1).
Proof.
  refine (proj1 (X10_add_new_asset_after_delete
                   (delete_asset (Id 1) (Demo.manager Demo.X)).1
                   1 Demo.world (Name "a") (Raw (Demo.raw_of 1)) ["b.pak"] _ _));
    vm_compute; reflexivity.
Defined.

(** The demo tree, scanned. *)
Lemma X11_update_headers_index_witness :
  (_update_headers Demo.world (Demo.manager Demo.X)).2 = Ok tt ∧
  all_paks (_update_headers Demo.world (Demo.manager Demo.X)).1
    = rglob (provider (Demo.manager Demo.X)) Demo.world "*.pak".
Proof.
  assert ((_update_headers Demo.world (Demo.manager Demo.X)).2 = Ok tt)
    as H by (vm_compute; reflexivity).
  split; [exact H|].
  exact (proj1 (X11_update_headers_index _ _ H)).
Defined.

End ManagerMoreFacts.

(** ** formats/mrea.py: further properties *)

Module MreaMoreFacts.
Import Construct Mrea Python MreaMore CodecFacts MreaFacts.

Lemma len_replicate {A} (n : Z) (x : A) :
  0 ≤ n → len (replicate (Z.to_nat n) x) = n.
Proof. intros Hn. unfold len. rewrite length_replicate. lia. Qed.

Lemma Aligned_build_aligned (b : bytes) : len (Aligned_build 32 b) `mod` 32 = 0.
Proof.
  unfold Aligned_build. rewrite len_app, len_replicate.
  - rewrite Zplus_mod_idemp_r. by replace (len b + - len b) with 0 by lia.
  - by apply Z.mod_pos_bound.
Qed.

Lemma ljust32_aligned (b : bytes) : len b `mod` 32 = 0 → ljust32 b = b.
Proof.
  intros Hb. unfold ljust32.
  replace ((- len b) `mod` 32) with 0
    by (symmetry; by apply Z.mod_opp_l_z).
  apply app_nil_r.
Qed.

Lemma Aligned_build_of_aligned (b : bytes) :
  len b `mod` 32 = 0 → Aligned_build 32 b = b.
Proof. apply ljust32_aligned. Qed.

Section Categories.
Context {Decoded : Type}.
Variable category_build : string → Decoded → Result bytes.

(** X13.  Every section [_encode_category] returns has a length that
    is a multiple of 32, the empty bytes of an absent section
    included, so the padding the block writer applies to each section
    ([ljust]) adds nothing to it; there is one encoded section for each
    value. *)
Theorem X13_encode_category_aligned category
    (values : list (SectionValue (Decoded:=Decoded))) encoded :
  _encode_category category_build category values = Ok encoded →
  length encoded = length values ∧
  Forall (λ data, len data `mod` 32 = 0) encoded ∧
  Forall (λ data, ljust32 data = data) encoded.
Proof.
  revert encoded. induction values as [|value values IH]; intros encoded; simpl.
  { intros [= <-]. by repeat constructor. }
  destruct (encode_section category_build category value) as [data|e] eqn:Edata;
    [|done]. cbn [rbind].
  destruct (_encode_category category_build category values) as [rest|e]; [|done].
  cbn [rbind]. intros [= <-].
  destruct (IH rest eq_refl) as (Hlen & Hall & Hjust).
  assert (len data `mod` 32 = 0) as Hdata.
  { destruct value as [|b|d]; simpl in Edata.
    - by injection Edata as <-.
    - injection Edata as <-. apply Aligned_build_aligned.
    - destruct (category_build category d) as [b|e]; [|done].
      injection Edata as <-. apply Aligned_build_aligned. }
  split_and!.
  - simpl. by rewrite Hlen.
  - by constructor.
  - constructor; [by apply ljust32_aligned | done].
Qed.

(** X14.  A category decoded lazily and encoded again: empty sections
    become [None] and come back empty, the others come back padded
    with zero bytes to a multiple of 32; sections whose lengths are
    multiples of 32 come back as they were. *)
Theorem X14_decode_lazily_then_encode category (raw : list bytes) :
  ∃ values,
    _decode_category (Decoded:=Decoded) GreedyBytes_parse raw = Ok values ∧
    _encode_category category_build category values
      = Ok (Aligned_build 32 <$> raw) ∧
    (Forall (λ section, len section `mod` 32 = 0) raw →
     _encode_category category_build category values = Ok raw).
Proof.
  assert (∃ values,
    _decode_category (Decoded:=Decoded) GreedyBytes_parse raw = Ok values ∧
    _encode_category category_build category values
      = Ok (Aligned_build 32 <$> raw)) as (values & Hdec & Henc).
  { induction raw as [|section raw (values & Hdec & Henc)]; simpl.
    { by exists []. }
    rewrite Hdec. case_bool_decide as Hlen; cbn [GreedyBytes_parse rbind].
    - exists (SBytes section :: values). split; [done|]. simpl. by rewrite Henc.
    - exists (SNone :: values). split; [done|]. simpl. rewrite Henc. simpl.
      destruct section; [done|]. unfold len in Hlen. simpl in Hlen. lia. }
  exists values. split_and!; [done..|].
  intros Hall. rewrite Henc. f_equal. clear Hdec Henc.
  induction Hall as [|section raw' Hs _ IH]; [done|].
  rewrite fmap_cons. f_equal; [by apply Aligned_build_of_aligned | exact IH].
Qed.

End Categories.

(** *** Blocks and sections *)

Lemma split_block_app group : ∀ (pre : bytes) (acc : list bytes) more post,
  split_block (length group) ((len <$> acc) ++ (len <$> group) ++ more)
    (pre ++ concat group ++ post) (len pre) acc = Ok (acc ++ group).
Proof.
  induction group as [|section group IH]; intros pre acc more post; simpl.
  { by rewrite app_nil_r. }
  rewrite lookup_app_r by (by rewrite length_fmap).
  rewrite length_fmap, Nat.sub_diag. simpl.
  replace (slice (len pre) (Some (len pre + len section))
             (pre ++ (section ++ concat group) ++ post)) with section.
  - specialize (IH (pre ++ section) (acc ++ [section]) more post).
    rewrite fmap_app, len_app in IH. simpl in IH.
    rewrite <- !(assoc_L (++)) in IH. simpl in IH.
    rewrite <- !(assoc_L (++)). exact IH.
  - unfold slice. rewrite <- (assoc_L (++) section), (assoc_L (++) pre section).
    replace (Z.to_nat (len pre + len section)) with (length (pre ++ section))
      by (rewrite length_app; unfold len; lia).
    rewrite take_app_length.
    replace (Z.to_nat (len pre)) with (length pre) by (unfold len; lia).
    by rewrite drop_app_length.
Qed.

Lemma total_concat (group : list bytes) : total group = len (concat group).
Proof.
  induction group as [|section group IH]; [done|].
  cbn [concat]. rewrite len_app, <- IH. done.
Qed.

(** X15.  What the block writer merges, the block reader splits: for a
    group of sections whose lengths are multiples of 32 (as
    [_encode_category] makes them), the merged and padded group has the
    block's uncompressed size, and the inner loop of
    [_decode_compressed_blocks], run over it with the sizes of the
    sections, appends exactly the sections of the group. *)
Theorem X15_split_block_of_merged (group acc : list bytes) (more : list Z) :
  Forall (λ section, len section `mod` 32 = 0) group →
  len (concat (ljust32 <$> group)) = total group ∧
  split_block (length group) ((len <$> acc) ++ (len <$> group) ++ more)
    (concat (ljust32 <$> group)) 0 acc = Ok (acc ++ group).
Proof.
  intros Hall.
  assert (ljust32 <$> group = group) as ->.
  { induction Hall as [|section group' Hs _ IH]; [done|].
    rewrite fmap_cons. f_equal; [by apply ljust32_aligned | exact IH]. }
  split; [by rewrite total_concat|].
  pose proof (split_block_app group [] acc more []) as H.
  simpl in H. by rewrite app_nil_r in H.
Qed.

(** X18.  The inner loop of [_decode_compressed_blocks] takes one size
    for each section of the block, from the position of the first
    section not yet read: it appends [count] sections when the sizes
    suffice, and raises [IndexError] when they run out before the
    last section of the block. *)
Theorem X18_split_block_bounds count : ∀ sizes block offset (acc : list bytes),
  ((length acc + count ≤ length sizes)%nat →
   ∃ sections,
     split_block count sizes block offset acc = Ok (acc ++ sections) ∧
     length sections = count) ∧
  ((0 < count)%nat → (length sizes < length acc + count)%nat →
   split_block count sizes block offset acc
   = Raise (IndexError "list index out of range")).
Proof.
  induction count as [|count IH]; intros sizes block offset acc; simpl.
  { split; [|lia]. intros _. exists []. by rewrite app_nil_r. }
  destruct (sizes !! length acc) as [section_size|] eqn:Esize.
  - match goal with
    | |- context [split_block count sizes block ?o ?a] =>
        destruct (IH sizes block o a) as [Hok Herr]
    end.
    rewrite length_app in Hok, Herr. simpl in Hok, Herr. split.
    + intros Hle. destruct Hok as (sections & -> & Hlen); [lia|].
      eexists (_ :: sections). rewrite <- (assoc_L (++)). split; [done|].
      simpl. by rewrite Hlen.
    + intros _ Hlt. apply lookup_lt_Some in Esize. apply Herr; lia.
  - apply lookup_ge_None in Esize. split; [lia|done].
Qed.

(** *** The layout of the categories *)

Lemma omap_ext_Forall {A B} (f g : A → option B) (l : list A) :
  Forall (λ x, f x = g x) l → omap f l = omap g l.
Proof.
  induction 1 as [|x l Hx _ IH]; [done|]. simpl. rewrite Hx.
  destruct (g x); [f_equal|]; exact IH.
Qed.

Lemma header_get_cons_ne k v (entries : list (string * option Z)) label :
  label ≠ k → header_get ((k, v) :: entries) label = header_get entries label.
Proof.
  intros Hne. unfold header_get. simpl. rewrite decide_False by done.
  by destruct (list_find _ entries) as [[? [? ?]]|].
Qed.

Lemma omap_cons_list {A B} (f : A → option B) (x : A) (l : list A) :
  omap f (x :: l) = match f x with
                    | Some y => y :: omap f l
                    | None => omap f l
                    end.
Proof. reflexivity. Qed.

Lemma header_get_entries (entries : list (string * option Z)) :
  NoDup entries.*1 →
  omap (λ label, match header_get entries label with
                 | Some v => Some (label, v)
                 | None => None
                 end) entries.*1
  = filter_starts entries.
Proof.
  induction entries as [|[k v] entries IH]; [done|].
  rewrite fmap_cons, NoDup_cons. intros [Hk Hnd].
  unfold filter_starts. rewrite !omap_cons_list. fold (filter_starts entries).
  cbn [fst snd].
  assert (header_get ((k, v) :: entries) k = v) as ->.
  { unfold header_get. simpl. by rewrite decide_True. }
  rewrite <- (IH Hnd).
  assert (omap (λ label, match header_get ((k, v) :: entries) label with
                         | Some v0 => Some (label, v0)
                         | None => None
                         end) entries.*1
          = omap (λ label, match header_get entries label with
                           | Some v0 => Some (label, v0)
                           | None => None
                           end) entries.*1) as ->; [|done].
  apply omap_ext_Forall, Forall_forall. intros label Hin.
  rewrite header_get_cons_ne; [done|]. by intros ->.
Qed.

Lemma split_categories_starts_from (present : list (string * list bytes)) :
  ∀ pre : list bytes,
  NoDup present.*1 →
  split_categories (starts_from (len pre) present) (pre ++ concat present.*2)
  = list_to_map present.
Proof.
  induction present as [|[c secs] present IH]; intros pre; [done|].
  rewrite fmap_cons, NoDup_cons. intros [Hc Hnd].
  cbn [starts_from split_categories fmap list_fmap snd concat list_to_map foldr].
  specialize (IH (pre ++ secs) Hnd). rewrite len_app in IH.
  rewrite <- (assoc_L (++)) in IH. rewrite IH.
  assert (slice (len pre)
            match starts_from (len pre + len secs) present with
            | [] => None
            | (_, v) :: _ => Some v
            end (pre ++ secs ++ concat present.*2) = secs) as ->.
  { unfold slice.
    replace (Z.to_nat (len pre)) with (length pre) by (unfold len; lia).
    destruct present as [|[c2 secs2] present]; simpl.
    - by rewrite app_nil_r, drop_app_length.
    - rewrite (assoc_L (++) pre secs).
      replace (Z.to_nat (len pre + len secs)) with (length (pre ++ secs))
        by (rewrite length_app; unfold len; lia).
      by rewrite take_app_length, drop_app_length. }
  symmetry. apply insert_union_singleton_r.
  by apply not_elem_of_list_to_map_1.
Qed.

Lemma lookup_present_in (raw : gmap string (list bytes)) categories c :
  NoDup categories →
  (list_to_map (present_in raw categories) : gmap string (list bytes)) !! c
  = if bool_decide (c ∈ categories) then raw !! c else None.
Proof.
  intros Hnd. case_bool_decide as Hin.
  - destruct (raw !! c) as [secs|] eqn:Ec.
    + apply elem_of_list_to_map_1; [by apply present_in_NoDup|].
      unfold present_in. apply list_elem_of_omap. exists c. split; [done|].
      by rewrite Ec.
    + apply not_elem_of_list_to_map_1.
      intros ([c' secs] & Heq & Hp)%list_elem_of_fmap. simpl in Heq. subst c'.
      unfold present_in in Hp.
      apply list_elem_of_omap in Hp as (c' & _ & Hc').
      destruct (raw !! c') as [s|] eqn:E'; [|done].
      simpl in Hc'. injection Hc' as -> ->. congruence.
  - apply not_elem_of_list_to_map_1. intros Hp. by apply present_in_keys in Hp.
Qed.

(** X16.  The loop of [_parse] that cuts the data sections into
    categories undoes the loop of [_build] that lays the categories
    out: from the offsets and the data sections [_build] computes for
    [raw_sections], it recovers the sections of every category of
    [_all_categories]; categories of other names are not laid out. *)
Theorem X16_split_categories_of_combined (raw_sections : gmap string (list bytes))
    (c : string) :
  split_categories
    (sort_by_start
       (omap (λ label,
                match header_get
                        (combine_sections _all_categories raw_sections [] []).1
                        label with
                | Some v => Some (label, v)
                | None => None
                end) _all_categories))
    (combine_sections _all_categories raw_sections [] []).2
  !! c
  = if bool_decide (c ∈ _all_categories) then raw_sections !! c else None.
Proof.
  destruct (combine_sections_spec _all_categories raw_sections [] [])
    as (entries & -> & Hkeys & Hstarts).
  cbn [fst snd app]. rewrite <- Hkeys at 1.
  rewrite header_get_entries by (rewrite Hkeys; apply _all_categories_NoDup).
  rewrite Hstarts. change (len []) with 0.
  rewrite sort_by_start_sorted by apply starts_from_sorted.
  pose proof (split_categories_starts_from
                (present_in raw_sections _all_categories) []) as H.
  change (len []) with 0 in H. cbn [app] in H.
  rewrite H by apply present_in_NoDup, _all_categories_NoDup.
  apply lookup_present_in, _all_categories_NoDup.
Qed.

(** *** Compressed blocks on the way out and in *)

Lemma PrefixedWithPaddingBefore_length (data : bytes) :
  len (PrefixedWithPaddingBefore_build data) = len data + (- len data) `mod` 32.
Proof.
  unfold PrefixedWithPaddingBefore_build. rewrite len_app.
  pose proof (Z.mod_pos_bound (len data) 32 eq_refl) as Hr.
  case_bool_decide as Hpad.
  - rewrite len_replicate by lia.
    rewrite Z.mod_opp_l_nz by lia. lia.
  - assert (len data `mod` 32 = 0) as H0 by lia.
    rewrite Z.mod_opp_l_z by lia. unfold len at 1. simpl. lia.
Qed.

Lemma PrefixedWithPaddingBefore_parse_build {A} (subcon : bytes → Result A)
    (data rest : bytes) :
  PrefixedWithPaddingBefore_parse (len data) subcon
    (PrefixedWithPaddingBefore_build data ++ rest)
  = match subcon data with
    | Ok obj => Ok (obj, rest)
    | Raise e => Raise e
    end.
Proof.
  unfold PrefixedWithPaddingBefore_parse, PrefixedWithPaddingBefore_build, pbind.
  pose proof (Z.mod_pos_bound (len data) 32 eq_refl) as Hr.
  case_bool_decide as Hpad.
  - rewrite <- (assoc_L (++)).
    rewrite <- (len_replicate (32 - len data `mod` 32) Byte.x00) at 1 by lia.
    rewrite stream_read_app, stream_read_app.
    by destruct (subcon data).
  - simpl. unfold pret at 1. rewrite stream_read_app. by destruct (subcon data).
Qed.

Section Blocks.
Variable lzo_parse : Z → bytes → Result bytes.
Variable DataSection_parse : Z → Parser bytes.
Variable DataSection_build : Z → bytes → Result bytes.

(** X17.  A compressed block is read as it was written: for a block
    whose header gives the length of its data as the compressed size
    (as the encoder's blocks do), and whose data is not empty, [_build]
    writes the data behind zero bytes that make the whole a multiple of
    32 long; that length is the block size the parser computes from the
    header, the parser reads exactly these bytes as the block, and the
    LZO layer is handed the data without the padding. *)
Theorem X17_compressed_block_written_and_read (block : Block) (rest : bytes) :
  compressed_size (header block) = len (data block) →
  compressed_size (header block) ≠ 0 →
  ∃ written,
    build_block DataSection_build block = Ok written ∧
    len written = _get_compressed_block_size (header block) ∧
    len written `mod` 32 = 0 ∧
    read_blocks [header block] (written ++ rest) = Ok ([written], rest) ∧
    _get_compressed_block_subcon lzo_parse DataSection_parse
      (compressed_size (header block)) (uncompressed_size (header block)) written
    = match lzo_parse (uncompressed_size (header block)) (data block) with
      | Ok decompressed => Ok (decompressed, [])
      | Raise e => Raise e
      end.
Proof.
  intros Hsize Hnz. exists (PrefixedWithPaddingBefore_build (data block)).
  assert (len (PrefixedWithPaddingBefore_build (data block))
          = _get_compressed_block_size (header block)) as Hlen.
  { rewrite PrefixedWithPaddingBefore_length. unfold _get_compressed_block_size.
    rewrite bool_decide_false by done. by rewrite Hsize. }
  assert (len (PrefixedWithPaddingBefore_build (data block)) `mod` 32 = 0) as Hmod.
  { rewrite PrefixedWithPaddingBefore_length, Zplus_mod_idemp_r.
    by replace (len (data block) + - len (data block)) with 0 by lia. }
  split_and!.
  - unfold build_block. by rewrite bool_decide_true.
  - done.
  - done.
  - cbn [read_blocks]. unfold pbind, Aligned_parse, FixedSized_GreedyBytes_parse.
    rewrite <- Hlen.
    rewrite bool_decide_false by (pose proof (len_nonneg
      (PrefixedWithPaddingBefore_build (data block))); lia).
    rewrite stream_read_app.
    replace (len (PrefixedWithPaddingBefore_build (data block) ++ rest) - len rest)
      with (len (PrefixedWithPaddingBefore_build (data block)))
      by (rewrite len_app; lia).
    rewrite Z.mod_opp_l_z by (done || lia).
    change (stream_read 0 rest) with (stream_read (len (@nil Byte.byte)) ([] ++ rest)).
    by rewrite stream_read_app.
  - unfold _get_compressed_block_subcon. rewrite bool_decide_true by done.
    rewrite Hsize.
    pose proof (PrefixedWithPaddingBefore_parse_build
                  (lzo_parse (uncompressed_size (header block)))
                  (data block) []) as H.
    by rewrite app_nil_r in H.
Qed.

End Blocks.

(** *** The header *)

Lemma header_get_cons_eq k v (entries : list (string * option Z)) :
  header_get ((k, v) :: entries) k = v.
Proof. unfold header_get. simpl. by rewrite decide_True. Qed.


Lemma Int32ub_build_parse v b rest :
  Int32ub_build v = Ok b → Int32ub_parse (b ++ rest) = Ok (v, rest).
Proof.
  intros [-> Hv]%IntNub_build_Ok. by apply IntNub_parse_build.
Qed.

Lemma Int32ub_build_opt_parse x b rest :
  Int32ub_build_opt x = Ok b →
  ∃ v, x = Some v ∧ Int32ub_parse (b ++ rest) = Ok (v, rest).
Proof.
  destruct x as [v|]; [|done]. simpl. intros H. exists v.
  split; [done|]. by apply Int32ub_build_parse.
Qed.

Lemma WithVersion_build_parse this_version version x b rest :
  WithVersion_build this_version version x = Ok b →
  WithVersion_parse this_version version Int32ub_parse (b ++ rest)
  = Ok (if bool_decide (this_version >= version) then x else None, rest).
Proof.
  unfold WithVersion_build, WithVersion_parse. case_bool_decide.
  - intros (v & -> & Hp)%(Int32ub_build_opt_parse _ _ rest).
    unfold pbind. by rewrite Hp.
  - by intros [= <-].
Qed.

Lemma BeforeVersion_build_parse this_version version x b rest :
  BeforeVersion_build this_version version x = Ok b →
  BeforeVersion_parse this_version version Int32ub_parse (b ++ rest)
  = Ok (if bool_decide (this_version < version) then x else None, rest).
Proof.
  unfold BeforeVersion_build, BeforeVersion_parse. case_bool_decide.
  - intros (v & -> & Hp)%(Int32ub_build_opt_parse _ _ rest).
    unfold pbind. by rewrite Hp.
  - by intros [= <-].
Qed.

Lemma Aligned_parse_build {A} (P : Parser A) (body : bytes) (obj : A) rest :
  (∀ tail, P (body ++ tail) = Ok (obj, tail)) →
  Aligned_parse 32 P (Aligned_build 32 body ++ rest) = Ok (obj, rest).
Proof.
  intros HP. unfold Aligned_parse, Aligned_build.
  rewrite <- (assoc_L (++)), HP.
  set (pad := replicate _ Byte.x00).
  replace (len (body ++ pad ++ rest) - len (pad ++ rest)) with (len body)
    by (rewrite !len_app; lia).
  assert (len pad = (- len body) `mod` 32) as <-.
  { unfold pad, len. rewrite length_replicate.
    pose proof (Z.mod_pos_bound (- Z.of_nat (length body)) 32 eq_refl). lia. }
  by rewrite stream_read_app.
Qed.

Lemma len_Aligned_build (b : bytes) : len (Aligned_build 32 b) `mod` 32 = 0.
Proof.
  unfold Aligned_build. rewrite len_app.
  assert (len (replicate (Z.to_nat ((- len b) `mod` 32)) Byte.x00)
          = (- len b) `mod` 32) as ->.
  { unfold len. rewrite length_replicate.
    pose proof (Z.mod_pos_bound (- Z.of_nat (length b)) 32 eq_refl). lia. }
  rewrite Zplus_mod_idemp_r. by replace (len b + - len b) with 0 by lia.
Qed.


(** *** Instances *)

Lemma X13_encode_category_aligned_witness :
  ∃ encoded,
    _encode_category Demo.no_decoded "geometry_section"
      [SNone; SBytes [Byte.x01]] = Ok encoded ∧
    length encoded = length [SNone (Decoded:=unit); SBytes [Byte.x01]] ∧
    Forall (λ data, len data `mod` 32 = 0) encoded ∧
    Forall (λ data, ljust32 data = data) encoded.
Proof.
  eassert (_encode_category Demo.no_decoded "geometry_section"
             [SNone; SBytes [Byte.x01]] = Ok _) as H
    by (vm_compute; reflexivity).
  eexists. split; [exact H|].
  exact (X13_encode_category_aligned Demo.no_decoded _ _ _ H).
Defined.

Lemma X15_split_block_of_merged_witness :
  Forall (λ section, len section `mod` 32 = 0) [replicate 32 Byte.x01; []] ∧
  len (concat (ljust32 <$> [replicate 32 Byte.x01; []]))
    = total [replicate 32 Byte.x01; []] ∧
  split_block (length [replicate 32 Byte.x01; []])
    ((len <$> @nil bytes) ++ (len <$> [replicate 32 Byte.x01; []]) ++ [7])
    (concat (ljust32 <$> [replicate 32 Byte.x01; []])) 0 []
  = Ok (@nil bytes ++ [replicate 32 Byte.x01; []]).
Proof.
  assert (Forall (λ section, len section `mod` 32 = 0)
            [replicate 32 Byte.x01; []]) as H
    by (repeat constructor).
  split; [exact H|].
  exact (X15_split_block_of_merged [replicate 32 Byte.x01; []] [] [7] H).
Defined.

Lemma X17_compressed_block_written_and_read_witness :
  compressed_size (header DemoMore.block) = len (data DemoMore.block) ∧
  compressed_size (header DemoMore.block) ≠ 0 ∧
  ∃ written,
    build_block Demo.data_section_build DemoMore.block = Ok written ∧
    len written = _get_compressed_block_size (header DemoMore.block) ∧
    len written `mod` 32 = 0 ∧
    read_blocks [header DemoMore.block] (written ++ [Byte.xff])
      = Ok ([written], [Byte.xff]) ∧
    _get_compressed_block_subcon Demo.lzo_parse_stored Demo.data_section_parse
      (compressed_size (header DemoMore.block))
      (uncompressed_size (header DemoMore.block)) written
    = match Demo.lzo_parse_stored (uncompressed_size (header DemoMore.block))
              (data DemoMore.block) with
      | Ok decompressed => Ok (decompressed, [])
      | Raise e => Raise e
      end.
Proof.
  assert (compressed_size (header DemoMore.block) = len (data DemoMore.block))
    as H1 by reflexivity.
  assert (compressed_size (header DemoMore.block) ≠ 0) as H2 by (by vm_compute).
  split; [exact H1|]. split; [exact H2|].
  exact (X17_compressed_block_written_and_read Demo.lzo_parse_stored
           Demo.data_section_parse Demo.data_section_build DemoMore.block
           [Byte.xff] H1 H2).
Defined.


End MreaMoreFacts.

(** ** formats/mrea.py: the area *)

Module AreaFacts.
Import Construct Mrea Python MreaMore.

(** *** Docks *)

Lemma py_index_Some {A} (l : list A) (i : Z) (n : nat) :
  py_index l i = Some n → (n < length l)%nat.
Proof.
  unfold py_index, len. repeat case_bool_decide; intros [= <-]; lia.
Qed.

Lemma attach_connections_spec (cs : list Connection) : ∀ acc,
  NoDup acc →
  NoDup (attach_connections acc cs) ∧
  ∀ i, i ∈ attach_connections acc cs ↔
       i ∈ acc ∨ ∃ c, c ∈ cs ∧ area_index c = i.
Proof.
  unfold attach_connections.
  induction cs as [|c cs IH]; intros acc Hnd; simpl.
  { split; [done|]. intros i. split; [by left|].
    by intros [?|(c & ?%elem_of_nil & _)]. }
  case_bool_decide as Hin.
  - destruct (IH acc Hnd) as [Hnd' Hmem]. split; [done|].
    intros i. rewrite Hmem. setoid_rewrite elem_of_cons. split.
    + intros [?|(c' & ? & ?)]; [by left|]. right. exists c'. by split; [right|].
    + intros [?|(c' & [-> | ?] & <-)]; [by left|by left|]. right. by exists c'.
  - assert (NoDup (acc ++ [area_index c])) as Hnd1.
    { apply NoDup_app. split_and!; [done| |apply NoDup_singleton].
      intros x Hx ->%list_elem_of_singleton. done. }
    destruct (IH _ Hnd1) as [Hnd' Hmem]. split; [done|].
    intros i. rewrite Hmem, elem_of_app, list_elem_of_singleton.
    setoid_rewrite elem_of_cons. split.
    + intros [[? | ->]|(c' & ? & ?)]; [by left|right..].
      * exists c. by split; [left|].
      * exists c'. by split; [right|].
    + intros [?|(c' & [-> | ?] & <-)]; [by left; left|by left; right|].
      right. by exists c'.
Qed.

Lemma collect_attached_spec (ds : list Dock) :
  NoDup (collect_attached ds) ∧
  ∀ i, i ∈ collect_attached ds ↔
       ∃ d c, d ∈ ds ∧ c ∈ connecting_dock d ∧ area_index c = i.
Proof.
  unfold collect_attached.
  assert (∀ acc, NoDup acc →
    NoDup (foldl (λ acc d, attach_connections acc (connecting_dock d)) acc ds) ∧
    ∀ i, i ∈ foldl (λ acc d, attach_connections acc (connecting_dock d)) acc ds ↔
         i ∈ acc ∨ ∃ d c, d ∈ ds ∧ c ∈ connecting_dock d ∧ area_index c = i) as H.
  { induction ds as [|d ds IH]; intros acc Hnd; simpl.
    { split; [done|]. intros i. split; [by left|].
      by intros [?|(d & c & ?%elem_of_nil & _)]. }
    destruct (attach_connections_spec (connecting_dock d) acc Hnd) as [Hnd1 Hmem1].
    destruct (IH _ Hnd1) as [Hnd2 Hmem2]. split; [done|].
    intros i. rewrite Hmem2, Hmem1. setoid_rewrite elem_of_cons. split.
    + intros [[?|(c & ? & ?)]|(d' & c & ? & ? & ?)]; [by left|right..].
      * exists d, c. by split; [left|].
      * exists d', c. by split; [right|].
    + intros [?|(d' & c & [-> | ?] & ? & ?)]; [by left; left| |].
      * left; right. by exists c.
      * right. by exists d', c. }
  destruct (H [] (NoDup_nil_2)) as [Hnd Hmem]. split; [done|].
  intros i. rewrite Hmem, elem_of_nil. naive_solver.
Qed.

(** X19.  [Area._raw_connect_to]: for a dock number out of range (a
    negative one counts from the end) it raises [IndexError]; for a
    dock that does not have exactly one connection it fails its
    assertion; otherwise the dock's connection is made to point at the
    target, the other docks stay as they were, and
    [attached_area_index] becomes the list, without repetition, of the
    area indices the connections of all docks point at, the target's
    among them. *)
Theorem X19_raw_connect_to (raw : AreaRaw) (source_dock_number : Z)
    (target_area_index target_dock_number : Z) :
  match _raw_connect_to raw source_dock_number target_area_index
          target_dock_number with
  | Return raw' =>
      ∃ n source_dock,
        py_index (docks raw) source_dock_number = Some n ∧
        docks raw !! n = Some source_dock ∧
        length (connecting_dock source_dock) = 1%nat ∧
        docks raw' =
          <[n := {| connecting_dock :=
                      [ {| area_index := target_area_index;
                           dock_index := target_dock_number |} ];
                    dock_coordinates := dock_coordinates source_dock |}]>
            (docks raw) ∧
        NoDup (attached_area_index raw') ∧
        (∀ i, i ∈ attached_area_index raw' ↔
              ∃ d c, d ∈ docks raw' ∧ c ∈ connecting_dock d ∧ area_index c = i) ∧
        target_area_index ∈ attached_area_index raw'
  | Throw (Known (IndexError _)) =>
      py_index (docks raw) source_dock_number = None
  | Throw (AssertionError _) =>
      ∃ n source_dock,
        py_index (docks raw) source_dock_number = Some n ∧
        docks raw !! n = Some source_dock ∧
        length (connecting_dock source_dock) ≠ 1%nat
  | Throw _ => False
  end.
Proof.
  unfold _raw_connect_to.
  destruct (py_index (docks raw) source_dock_number) as [n|] eqn:Eidx; [|done].
  pose proof (py_index_Some _ _ _ Eidx) as Hn.
  destruct (docks raw !! n) as [source_dock|] eqn:Edock;
    [|apply lookup_ge_None in Edock; lia].
  destruct (connecting_dock source_dock) as [|c [|c2 cs]] eqn:Econ.
  - exists n, source_dock. by rewrite Econ.
  - exists n, source_dock. rewrite Econ. split_and!; try done; simpl.
    + apply collect_attached_spec.
    + apply collect_attached_spec.
    + apply collect_attached_spec.
      eexists _, _. split_and!.
      * apply list_elem_of_lookup. exists n. by apply list_lookup_insert_eq.
      * simpl. apply list_elem_of_here.
      * done.
  - exists n, source_dock. by rewrite Econ.
Qed.

(** *** Instance ids *)

Lemma count_scan_None fuel ids : ∀ i,
  count_scan fuel ids i = None →
  ∀ x, x ∈ seqZ i (Z.of_nat fuel) → x ∈ ids.
Proof.
  induction fuel as [|fuel IH]; intros i Hscan x Hx.
  { by apply elem_of_nil in Hx. }
  simpl in Hscan. case_bool_decide as Hi; [|done].
  apply list_elem_of_lookup in Hx as [k Hk].
  apply lookup_seqZ in Hk as [-> Hk].
  destruct k as [|k]; [by rewrite Z.add_0_r|].
  apply (IH (i + 1) Hscan). apply list_elem_of_lookup. exists k.
  apply lookup_seqZ. lia.
Qed.

Lemma count_scan_Some fuel ids : ∀ i x,
  count_scan fuel ids i = Some x →
  i ≤ x < i + Z.of_nat fuel ∧ (x ∉ ids) ∧ ∀ j, i ≤ j < x → j ∈ ids.
Proof.
  induction fuel as [|fuel IH]; intros i x; simpl; [done|].
  case_bool_decide as Hi.
  - intros (? & ? & Hbelow)%IH. split_and!; [lia..|done|].
    intros j Hj. destruct (decide (j = i)) as [->|]; [done|]. apply Hbelow. lia.
  - intros [= <-]. split_and!; [lia..|done|]. intros j ?. lia.
Qed.

Lemma count_scan_more fuel ids : ∀ fuel' i x,
  count_scan fuel ids i = Some x → (fuel ≤ fuel')%nat →
  count_scan fuel' ids i = Some x.
Proof.
  induction fuel as [|fuel IH]; intros fuel' i x; simpl; [done|].
  intros Hscan Hle. destruct fuel' as [|fuel']; [lia|]. simpl.
  case_bool_decide; [|done]. apply IH; [done | lia].
Qed.

Lemma count_scan_enough ids i : is_Some (count_scan (S (length ids)) ids i).
Proof.
  destruct (count_scan (S (length ids)) ids i) as [x|] eqn:Hscan; [eauto|].
  exfalso. pose proof (count_scan_None _ _ _ Hscan) as Hall.
  assert (length (seqZ i (Z.of_nat (S (length ids)))) ≤ length ids)%nat as Hle.
  { apply submseteq_length, NoDup_submseteq; [apply NoDup_seqZ|]. exact Hall. }
  rewrite length_seqZ in Hle. lia.
Qed.

(** X20.  [Area.next_instance_id] comes to an end, after one test more
    than there are instances at the latest, and returns the least
    number from 0 on that no instance has: it is not the number of an
    instance, every smaller one is, and it is at most the number of
    instances. *)
Theorem X20_next_instance_id (ids : list Z) :
  ∃ r,
    (∀ fuel, (length ids < fuel)%nat → next_instance_id fuel ids = Some r) ∧
    0 ≤ r ≤ len ids ∧
    (r ∉ ids) ∧
    ∀ j, 0 ≤ j < r → j ∈ ids.
Proof.
  destruct (count_scan_enough ids 0) as [r Hscan]. exists r.
  destruct (count_scan_Some _ _ _ _ Hscan) as (Hr & Hnot & Hbelow).
  split_and!; [|unfold len; lia..|done|done].
  intros fuel Hfuel. unfold next_instance_id.
  apply (count_scan_more _ _ _ _ _ Hscan). lia.
Qed.

(** *** The dependency table *)

Lemma layer_offsets_length {A} (layer_deps : list (list A)) : ∀ offset,
  length (layer_offsets offset layer_deps) = length layer_deps.
Proof.
  induction layer_deps as [|l ls IH]; intros offset; simpl; [done|].
  by rewrite IH.
Qed.

Lemma layer_offsets_lookup {A} (layer_deps : list (list A)) : ∀ offset i layer,
  layer_deps !! i = Some layer →
  layer_offsets offset layer_deps !! i
  = Some (offset + len (concat (take i layer_deps))).
Proof.
  induction layer_deps as [|l ls IH]; intros offset i layer; [done|].
  destruct i as [|i]; simpl.
  - intros _. f_equal. unfold len. simpl. lia.
  - intros Hi. rewrite (IH _ _ _ Hi). f_equal.
    unfold len. rewrite length_app. lia.
Qed.

Lemma layer_offsets_sorted {A} (layer_deps : list (list A)) : ∀ offset,
  StronglySorted Z.le (layer_offsets offset layer_deps) ∧
  Forall (Z.le offset) (layer_offsets offset layer_deps).
Proof.
  induction layer_deps as [|l ls IH]; intros offset; simpl.
  { split; constructor. }
  destruct (IH (offset + len l)) as [Hs Hall].
  assert (Forall (Z.le offset) (layer_offsets (offset + len l) ls)) as Hall'.
  { eapply Forall_impl; [exact Hall|]. intros x Hx. simpl in Hx.
    unfold len in *. lia. }
  split; constructor; first [done | lia].
Qed.

(** X21.  The dependency table [build_mlvl_dependencies] stores: there
    is one offset for each layer, the offsets do not decrease, and the
    dependencies of a layer are those found from its offset on; read
    back through [non_layer_dependencies] with the number of script
    layers, the table gives the group that came last, the dependencies
    outside of any layer. *)
Theorem X21_dependency_table {A} (layer_deps : list (list A)) :
  length (dependency_table layer_deps).2 = length layer_deps ∧
  StronglySorted Z.le (dependency_table layer_deps).2 ∧
  (∀ i layer, layer_deps !! i = Some layer →
     ∃ offset, (dependency_table layer_deps).2 !! i = Some offset ∧
               0 ≤ offset ∧
               take (length layer)
                 (drop (Z.to_nat offset) (dependency_table layer_deps).1) = layer) ∧
  (∀ layers non_layer, layer_deps = layers ++ [non_layer] →
     non_layer_dependencies (dependency_table layer_deps) (len layers)
     = Ok non_layer).
Proof.
  unfold dependency_table. cbn [fst snd].
  assert (∀ i layer, layer_deps !! i = Some layer →
            drop (length (concat (take i layer_deps))) (concat layer_deps)
            = layer ++ concat (drop (S i) layer_deps)) as Hdrop.
  { intros i layer Hi.
    rewrite <- (take_drop_middle _ _ _ Hi) at 2.
    rewrite concat_app, drop_app_length. done. }
  split_and!.
  - apply layer_offsets_length.
  - apply layer_offsets_sorted.
  - intros i layer Hi. eexists. split; [by apply (layer_offsets_lookup _ _ _ layer)|].
    split; [unfold len; lia|].
    replace (Z.to_nat (0 + len (concat (take i layer_deps))))
      with (length (concat (take i layer_deps))) by (unfold len; lia).
    by rewrite (Hdrop _ _ Hi), take_app_length.
  - intros layers non_layer ->. unfold non_layer_dependencies. cbn [fst snd].
    assert ((layers ++ [non_layer]) !! length layers = Some non_layer) as Hi.
    { by rewrite lookup_app_r, Nat.sub_diag. }
    unfold py_index. rewrite bool_decide_true.
    2: { unfold len. rewrite layer_offsets_length, length_app. simpl. lia. }
    replace (Z.to_nat (len layers)) with (length layers) by (unfold len; lia).
    rewrite (layer_offsets_lookup _ _ _ _ Hi).
    unfold slice_from. rewrite bool_decide_true by (unfold len; lia). f_equal.
    replace (Z.to_nat (0 + len (concat (take (length layers) (layers ++ [non_layer])))))
      with (length (concat (take (length layers) (layers ++ [non_layer]))))
      by (unfold len; lia).
    rewrite (Hdrop _ _ Hi).
    rewrite drop_ge by (rewrite length_app; simpl; lia).
    apply app_nil_r.
Qed.

End AreaFacts.

(** ** construct_extensions.py and game_check.py *)

Module ConstructExtFacts.
Import GameCheck Construct Python ConstructExt CodecFacts.

Lemma len_bytes_times (pattern : bytes) (k : Z) :
  0 ≤ k → len (bytes_times pattern k) = k * len pattern.
Proof.
  intros Hk. unfold bytes_times, len.
  rewrite length_concat, fmap_replicate, sum_list_replicate. lia.
Qed.

Lemma bytes_times_singleton (b : Byte.byte) (k : Z) :
  bytes_times [b] k = replicate (Z.to_nat k) b.
Proof.
  unfold bytes_times. induction (Z.to_nat k) as [|m IH]; [done|].
  simpl. by rewrite IH.
Qed.

(** X22.  [Game.is_valid_asset_id] on integers: for Prime and Echoes
    the ids that are not valid are 0 and [0xFFFFFFFF]; for Corruption
    the one id that is not valid is [0xFFFFFFFFFFFFFFFF], and 0 is
    valid; for the remaster, whose invalid id is a UUID, every integer
    is valid. *)
Theorem X22_is_valid_asset_id (game : Game) (asset_id : Z) :
  is_valid_asset_id game asset_id = true ↔
  match game with
  | PRIME | ECHOES => asset_id ≠ 0 ∧ asset_id ≠ 0xFFFFFFFF
  | CORRUPTION => asset_id ≠ 0xFFFFFFFFFFFFFFFF
  | PRIME_REMASTER => True
  end.
Proof.
  unfold is_valid_asset_id, invalid_asset_id, uses_asset_id_32, uses_asset_id_64, le.
  change (Z.shiftl 1 32 - 1) with 0xFFFFFFFF.
  change (Z.shiftl 1 64 - 1) with 0xFFFFFFFFFFFFFFFF.
  destruct game; cbn [value]; repeat case_bool_decide; simpl;
    try lia; try discriminate.
  all: naive_solver congruence.
Qed.

(** X23.  [AlignTo(modulus)]: with a positive modulus, [_build] writes
    fewer than [modulus] zero bytes, none when the position is aligned
    already, and leaves the stream at a multiple of the modulus;
    [_parse] at the same position reads exactly these bytes.  With a
    negative modulus nothing is written, and with the modulus 0 both
    raise [ZeroDivisionError]. *)
Theorem X23_AlignTo (modulus position : Z) :
  (0 < modulus →
   ∃ pad,
     AlignTo_build modulus position = Return pad ∧
     len pad = (- position) `mod` modulus ∧
     (position + len pad) `mod` modulus = 0 ∧
     Forall (λ b, b = Byte.x00) pad ∧
     ∀ rest, AlignTo_parse modulus position (pad ++ rest) = Return (pad, rest)) ∧
  (modulus < 0 → AlignTo_build modulus position = Return []) ∧
  (modulus = 0 →
   AlignTo_build modulus position = Throw ZeroDivisionError ∧
   ∀ s, AlignTo_parse modulus position s = Throw ZeroDivisionError).
Proof.
  unfold AlignTo_build, AlignTo_parse. split_and!.
  - intros Hm. rewrite bool_decide_false by lia.
    pose proof (Z.mod_pos_bound position modulus Hm) as Hr.
    destruct (decide (position `mod` modulus = 0)) as [H0|Hn0].
    + rewrite bool_decide_false by lia. exists []. split_and!; try done.
      * rewrite Z.mod_opp_l_z by lia. done.
      * unfold len. simpl. by rewrite Z.add_0_r.
    + rewrite bool_decide_true by lia.
      exists (bytes_times [Byte.x00] (modulus - position `mod` modulus)).
      assert (len (bytes_times [Byte.x00] (modulus - position `mod` modulus))
              = modulus - position `mod` modulus) as Hlen.
      { rewrite len_bytes_times by lia. unfold len. simpl. lia. }
      split_and!; [done|..].
      * rewrite Hlen, Z.mod_opp_l_nz by lia. done.
      * rewrite Hlen.
        replace (position + (modulus - position `mod` modulus))
          with (position - position `mod` modulus + 1 * modulus) by lia.
        rewrite Z.mod_add by lia. rewrite Zminus_mod_idemp_r.
        by rewrite Z.sub_diag.
      * rewrite bytes_times_singleton. by apply Forall_replicate.
      * intros rest. rewrite <- Hlen at 1. by rewrite stream_read_app.
  - intros Hm. rewrite bool_decide_false by lia.
    pose proof (Z.mod_neg_bound position modulus Hm) as Hr.
    by rewrite bool_decide_false by lia.
  - intros ->. done.
Qed.

Section AlignedPrefixed.
Variable n : nat.

(** X24.  [AlignedPrefixed] over [GreedyBytes], with a positive
    modulus, a pad byte and a length field of [n] bytes: when [_build]
    returns, it has written the length of the padded data and then the
    object followed by as many pad bytes as make the length a multiple
    of the modulus; [_parse] reads that back as the padded data, so a
    round trip returns the object only when its length is a multiple of
    the modulus already.  The [length_size] given plays no part. *)
Theorem X24_AlignedPrefixed (modulus length_size : Z) (pad_byte : Byte.byte)
    (obj written : bytes) :
  0 < modulus →
  AlignedPrefixed_build n modulus length_size [pad_byte] obj = Return written →
  ∃ padded,
    padded = obj ++ replicate (Z.to_nat ((- len obj) `mod` modulus)) pad_byte ∧
    len padded `mod` modulus = 0 ∧
    written = to_bytes_big n (len padded) ++ padded ∧
    (∀ rest, AlignedPrefixed_parse n modulus length_size [pad_byte] (written ++ rest)
             = Return (padded, rest)) ∧
    (∀ other, AlignedPrefixed_build n modulus other [pad_byte] obj = Return written).
Proof.
  intros Hm.
  assert (∀ (data : bytes) ls,
    AlignedPrefixed_pad modulus ls [pad_byte] data
    = Return (data ++ replicate (Z.to_nat ((- len data) `mod` modulus)) pad_byte))
    as Hpad.
  { intros data ls. unfold AlignedPrefixed_pad. rewrite bool_decide_false by lia.
    replace ((len data - modulus) `mod` modulus) with (len data `mod` modulus)
      by (replace (len data - modulus) with (len data + (-1) * modulus) by lia;
          by rewrite Z.mod_add by lia).
    pose proof (Z.mod_pos_bound (len data) modulus Hm) as Hr.
    destruct (decide (len data `mod` modulus = 0)) as [H0|Hn0].
    - rewrite bool_decide_false by lia. rewrite Z.mod_opp_l_z by lia.
      by rewrite app_nil_r.
    - rewrite bool_decide_true by lia. rewrite Z.mod_opp_l_nz by lia.
      by rewrite bytes_times_singleton. }
  assert (∀ data : bytes,
    len (data ++ replicate (Z.to_nat ((- len data) `mod` modulus)) pad_byte)
      `mod` modulus = 0) as Haligned.
  { intros data. unfold len. rewrite length_app, length_replicate.
    fold (len data). rewrite Nat2Z.inj_add, Z2Nat.id
      by (by apply Z.mod_pos_bound).
    rewrite Zplus_mod_idemp_r. fold (len data).
    by replace (len data + - len data) with 0 by lia. }
  unfold AlignedPrefixed_build. rewrite Hpad. cbn [obind].
  set (padded := obj ++ replicate _ pad_byte).
  destruct (IntNub_build n (len padded)) as [c|e] eqn:Ec; [|done].
  cbn [known obind]. intros [= <-].
  apply IntNub_build_Ok in Ec as [-> Hrange].
  exists padded. split_and!; [done|apply Haligned|done| |].
  - intros rest. unfold AlignedPrefixed_parse.
    rewrite <- (assoc_L (++)), IntNub_parse_build by done. cbn [known obind fst snd].
    rewrite stream_read_app. cbn [known obind fst snd].
    rewrite Hpad. cbn [obind].
    replace ((- len padded) `mod` modulus) with 0
      by (symmetry; apply Z.mod_opp_l_z; [lia | apply Haligned]).
    change (Z.to_nat 0) with 0%nat. cbn [replicate]. by rewrite app_nil_r.
  - intros other. unfold AlignedPrefixed_build. rewrite Hpad. cbn [obind].
    fold padded. unfold IntNub_build. by rewrite bool_decide_true.
Qed.

End AlignedPrefixed.

Lemma X24_AlignedPrefixed_witness :
  ∃ written,
    0 < 4 ∧
    AlignedPrefixed_build 2 4 9 [Byte.xff] [Byte.x01; Byte.x02; Byte.x03]
      = Return written ∧
    ∃ padded,
      padded = [Byte.x01; Byte.x02; Byte.x03]
               ++ replicate (Z.to_nat ((- len [Byte.x01; Byte.x02; Byte.x03]) `mod` 4))
                    Byte.xff ∧
      len padded `mod` 4 = 0 ∧
      written = to_bytes_big 2 (len padded) ++ padded ∧
      (∀ rest, AlignedPrefixed_parse 2 4 9 [Byte.xff] (written ++ rest)
               = Return (padded, rest)) ∧
      (∀ other, AlignedPrefixed_build 2 4 other [Byte.xff]
                  [Byte.x01; Byte.x02; Byte.x03] = Return written).
Proof.
  eassert (AlignedPrefixed_build 2 4 9 [Byte.xff] [Byte.x01; Byte.x02; Byte.x03]
           = Return _) as H by (vm_compute; reflexivity).
  assert (0 < 4) as Hm by lia.
  eexists. split; [exact Hm|]. split; [exact H|].
  exact (X24_AlignedPrefixed 2 4 9 Byte.xff _ _ Hm H).
Defined.

End ConstructExtFacts.
